(** * Verification of the VQ-diffusion scheduler and of the Wuerstchen prior
      sampling loop

    Sources embedded here:
    - [src/diffusers/schedulers/scheduling_vq_diffusion.py]
    - [src/diffusers/pipelines/wuerstchen/pipeline_wuerstchen_prior.py]

    Numbers.  The schedules are built with numpy on float64 and then moved
    to log space with [torch.log].  Rounding is not modelled: finite values
    are exact rationals ([Qc]) before the logarithm and exact reals after
    it, and the IEEE special values (infinities, NaN) are kept, since numpy
    and torch return them instead of raising.  Signed zeros and overflow are
    left out. *)

From Stdlib Require Import ZArith List Bool Lia Lra.
From Stdlib Require Import QArith Qcanon Qreals Reals.
Import ListNotations.

Set Implicit Arguments.

(** ** Python exceptions and the error monad *)

Inductive exn : Type :=
| IndexError
| RuntimeError
| ValueError.

Inductive result (A : Type) : Type :=
| Ok (a : A)
| Raise (e : exn).

Arguments Ok {A} a.
Arguments Raise {A} e.

Definition bind {A B : Type} (m : result A) (k : A -> result B) : result B :=
  match m with
  | Ok a => k a
  | Raise e => Raise e
  end.

Declare Scope py_scope.
Delimit Scope py_scope with py.
Notation "x <- m ;; k" := (bind m (fun x => k))
  (at level 61, m at next level, right associativity) : py_scope.
Notation "' p <- m ;; k" := (bind m (fun x => match x with p => k end))
  (at level 61, p pattern, m at next level, right associativity) : py_scope.
Open Scope py_scope.

(** [xs[i]] on a Python list, numpy array or torch tensor: a negative
    index counts from the end, an index out of range raises. *)
Definition py_index {A : Type} (xs : list A) (i : Z) : result A :=
  let n := Z.of_nat (length xs) in
  let j := if (i <? 0)%Z then (i + n)%Z else i in
  if ((0 <=? j) && (j <? n))%Z%bool
  then match nth_error xs (Z.to_nat j) with
       | Some a => Ok a
       | None => Raise IndexError
       end
  else Raise IndexError.

(** Element-wise combination of two sequences of the same length. *)
Fixpoint map2 {A B C : Type} (f : A -> B -> C) (xs : list A) (ys : list B)
  : list C :=
  match xs, ys with
  | x :: xs', y :: ys' => f x y :: map2 f xs' ys'
  | _, _ => []
  end.

(** ** numpy float64 values, without rounding *)

Module Np.

Inductive npfloat : Type :=
| Fin (q : Qc)
| PInf
| NInf
| NaN.

Definition of_Z (z : Z) : npfloat := Fin (Q2Qc (inject_Z z)).

Definition neg (x : npfloat) : npfloat :=
  match x with
  | Fin q => Fin (- q)%Qc
  | PInf => NInf
  | NInf => PInf
  | NaN => NaN
  end.

Definition add (x y : npfloat) : npfloat :=
  match x, y with
  | NaN, _ | _, NaN => NaN
  | Fin a, Fin b => Fin (a + b)%Qc
  | PInf, NInf | NInf, PInf => NaN
  | PInf, _ | _, PInf => PInf
  | NInf, _ | _, NInf => NInf
  end.

Definition sub (x y : npfloat) : npfloat := add x (neg y).

(** The sign of a finite value: [Lt] negative, [Eq] zero, [Gt] positive. *)
Definition sgn (q : Qc) : comparison := (q ?= 0)%Qc.

Definition signed_inf (s : comparison) : npfloat :=
  match s with
  | Lt => NInf
  | Eq => NaN
  | Gt => PInf
  end.

Definition flip (s : comparison) : comparison := CompOpp s.

Definition mul (x y : npfloat) : npfloat :=
  match x, y with
  | NaN, _ | _, NaN => NaN
  | Fin a, Fin b => Fin (a * b)%Qc
  | Fin a, PInf | PInf, Fin a => signed_inf (sgn a)
  | Fin a, NInf | NInf, Fin a => signed_inf (flip (sgn a))
  | PInf, PInf | NInf, NInf => PInf
  | PInf, NInf | NInf, PInf => NInf
  end.

(** Division never raises on arrays: [x / 0] is an infinity of the sign of
    [x], and [0 / 0] is NaN (numpy only emits a warning). *)
Definition div (x y : npfloat) : npfloat :=
  match x, y with
  | NaN, _ | _, NaN => NaN
  | Fin a, Fin b =>
      match sgn b with
      | Eq => signed_inf (sgn a)
      | _ => Fin (a / b)%Qc
      end
  | Fin _, PInf | Fin _, NInf => Fin 0%Qc
  | PInf, Fin b => match sgn b with Lt => NInf | _ => PInf end
  | NInf, Fin b => match sgn b with Lt => PInf | _ => NInf end
  | PInf, PInf | PInf, NInf | NInf, PInf | NInf, NInf => NaN
  end.

(** [np.arange(0, n)] *)
Definition arange (n : Z) : list Z := map Z.of_nat (seq 0 (Z.to_nat n)).

End Np.

Import Np.

(** ** The transition schedules *)

(** [alpha_schedules]: returns [(at, att)]. *)
Definition alpha_schedules (num_diffusion_timesteps : Z)
    (a_cumulative_start a_cumulative_end : Qc)
  : list npfloat * list npfloat :=
  let att :=
    map (fun i =>
           add (mul (div (of_Z i) (of_Z (num_diffusion_timesteps - 1)))
                    (Fin (a_cumulative_end - a_cumulative_start)%Qc))
               (Fin a_cumulative_start))
        (arange num_diffusion_timesteps) in
  let att := Fin 1%Qc :: att in
  let at_ := map2 div (tl att) (removelast att) in
  let att := tl att ++ [Fin 1%Qc] in
  (at_, att).

(** [gamma_schedules]: returns [(ct, ctt)]. *)
Definition gamma_schedules (num_diffusion_timesteps : Z)
    (c_cumulative_start c_cumulative_end : Qc)
  : list npfloat * list npfloat :=
  let ctt :=
    map (fun i =>
           add (mul (div (of_Z i) (of_Z (num_diffusion_timesteps - 1)))
                    (Fin (c_cumulative_end - c_cumulative_start)%Qc))
               (Fin c_cumulative_start))
        (arange num_diffusion_timesteps) in
  let ctt := Fin 0%Qc :: ctt in
  let one_minus_ctt := map (fun c => sub (Fin 1%Qc) c) ctt in
  let one_minus_ct := map2 div (tl one_minus_ctt) (removelast one_minus_ctt) in
  let ct := map (fun c => sub (Fin 1%Qc) c) one_minus_ct in
  let ctt := tl ctt ++ [Fin 0%Qc] in
  (ct, ctt).

(** ** torch float values, without rounding *)

Module Torch.

Inductive tfloat : Type :=
| TFin (r : R)
| TPInf
| TNInf
| TNaN.

(** [torch.log] of a value that came from numpy. *)
Definition torch_log (x : npfloat) : tfloat :=
  match x with
  | Fin q =>
      match sgn q with
      | Gt => TFin (ln (Q2R q))
      | Eq => TNInf
      | Lt => TNaN
      end
  | PInf => TPInf
  | NInf | NaN => TNaN
  end.

(** [torch.exp] *)
Definition torch_exp (x : tfloat) : tfloat :=
  match x with
  | TFin r => TFin (exp r)
  | TPInf => TPInf
  | TNInf => TFin 0%R
  | TNaN => TNaN
  end.

End Torch.

Import Torch.

(** ** The scheduler object *)

Record Config : Type := {
  cfg_num_embed : Z;
  cfg_num_train_timesteps : Z;
  cfg_a_cumulative_start : Qc;
  cfg_a_cumulative_end : Qc;
  cfg_c_cumulative_start : Qc;
  cfg_c_cumulative_end : Qc
}.

Record VQDiffusionScheduler (F : Type) : Type := {
  config : Config;
  num_embed : Z;
  mask_class : Z;
  log_at : list F;
  log_bt : list F;
  log_ct : list F;
  log_cumprod_at : list F;
  log_cumprod_bt : list F;
  log_cumprod_ct : list F;
  num_inference_steps : option Z;
  timesteps : list Z
}.

(** Modelled from the spec: the decorator [register_to_config] of
    [configuration_utils.py], a file that is not at hand.  It stores the
    constructor's arguments as the object's configuration; the
    specification's design notes record that nothing guards [num_embed]. *)
Definition register_to_config (num_embed num_train_timesteps : Z)
    (a_cumulative_start a_cumulative_end
     c_cumulative_start c_cumulative_end : Qc) : Config :=
  {| cfg_num_embed := num_embed;
     cfg_num_train_timesteps := num_train_timesteps;
     cfg_a_cumulative_start := a_cumulative_start;
     cfg_a_cumulative_end := a_cumulative_end;
     cfg_c_cumulative_start := c_cumulative_start;
     cfg_c_cumulative_end := c_cumulative_end |}.

(** The per-step and cumulative [beta], in linear space:
    [(1 - at - ct) / num_non_mask_classes]. *)
Definition beta_schedule (num_non_mask_classes : Z) (at_ ct : list npfloat)
  : list npfloat :=
  map2 (fun a c => div (sub (sub (Fin 1%Qc) a) c) (of_Z num_non_mask_classes))
       at_ ct.

(** [VQDiffusionScheduler.__init__] *)
Definition VQDiffusionScheduler__init__ (num_embed num_train_timesteps : Z)
    (a_cumulative_start a_cumulative_end
     c_cumulative_start c_cumulative_end : Qc)
  : result (VQDiffusionScheduler tfloat) :=
  let mask_class := (num_embed - 1)%Z in
  let '(at_, att) :=
    alpha_schedules num_train_timesteps a_cumulative_start a_cumulative_end in
  let '(ct, ctt) :=
    gamma_schedules num_train_timesteps c_cumulative_start c_cumulative_end in
  let num_non_mask_classes := (num_embed - 1)%Z in
  let bt := beta_schedule num_non_mask_classes at_ ct in
  let btt := beta_schedule num_non_mask_classes att ctt in
  Ok {| config := register_to_config num_embed num_train_timesteps
                    a_cumulative_start a_cumulative_end
                    c_cumulative_start c_cumulative_end;
        num_embed := num_embed;
        mask_class := mask_class;
        log_at := map torch_log at_;
        log_bt := map torch_log bt;
        log_ct := map torch_log ct;
        log_cumprod_at := map torch_log att;
        log_cumprod_bt := map torch_log btt;
        log_cumprod_ct := map torch_log ctt;
        num_inference_steps := None;
        timesteps := rev (arange num_train_timesteps) |}.

(** [VQDiffusionScheduler.set_timesteps]; moving the tables to a device
    leaves their values unchanged. *)
Definition set_timesteps {F : Type} (self : VQDiffusionScheduler F)
    (num_inference_steps : Z) : VQDiffusionScheduler F :=
  {| config := config self;
     num_embed := num_embed self;
     mask_class := mask_class self;
     log_at := log_at self;
     log_bt := log_bt self;
     log_ct := log_ct self;
     log_cumprod_at := log_cumprod_at self;
     log_cumprod_bt := log_cumprod_bt self;
     log_cumprod_ct := log_cumprod_ct self;
     num_inference_steps := Some num_inference_steps;
     timesteps := rev (arange num_inference_steps) |}.


(** How the entry [t] of a table of log-betas is derived from the entries
    [t] of the linear tables of alphas and gammas: division of
    [1 - alpha - gamma] by [k], followed by the logarithm. *)
Definition beta_derived_at (alpha gamma : list npfloat)
    (log_beta : list tfloat) (k : Z) (t : Z) : Prop :=
  forall a c : npfloat,
    py_index alpha t = Ok a -> py_index gamma t = Ok c ->
    py_index log_beta t
    = Ok (torch_log (div (sub (sub (Fin 1%Qc) a) c) (of_Z k))) /\
    forall qa qc, a = Fin qa -> c = Fin qc -> k <> 0%Z ->
      exists qb,
        div (sub (sub (Fin 1%Qc) a) c) (of_Z k) = Fin qb /\
        qb = ((1 - qa - qc) / Q2Qc (inject_Z k))%Qc /\
        (qa + Q2Qc (inject_Z k) * qb + qc)%Qc = 1%Qc.

(** The default boundary values of the constructor. *)
Definition default_a_cumulative_start : Qc := Q2Qc (99999 # 100000).
Definition default_a_cumulative_end : Qc := Q2Qc (9 # 1000000).
Definition default_c_cumulative_start : Qc := Q2Qc (9 # 1000000).
Definition default_c_cumulative_end : Qc := Q2Qc (99999 # 100000).

(** The scheduler built for [num_embed] classes and [num_train_timesteps]
    steps with the default boundary values. *)
Definition default_scheduler (num_embed num_train_timesteps : Z)
  : result (VQDiffusionScheduler tfloat) :=
  VQDiffusionScheduler__init__ num_embed num_train_timesteps
    default_a_cumulative_start default_a_cumulative_end
    default_c_cumulative_start default_c_cumulative_end.

(** The alpha and gamma of one timestep are positive and leave a positive
    mass [1 - alpha - gamma] for beta. *)
Definition positive_mixture (ac : npfloat * npfloat) : bool :=
  match ac with
  | (Fin qa, Fin qc) =>
      match sgn qa, sgn qc, sgn (1 - qa - qc)%Qc with
      | Gt, Gt, Gt => true
      | _, _, _ => false
      end
  | _ => false
  end.

Definition is_finite (x : tfloat) : bool :=
  match x with
  | TFin _ => true
  | _ => false
  end.

(** ** The tensor runtime

    The scheduler's tensor code only uses the scalar operations below, all
    of them supplied by torch.  They are kept abstract: the structural
    properties of the scheduler hold for every runtime.  A tensor is a
    nested list, outermost dimension first; tensors are rectangular, and
    the inner sizes of a tensor whose outer dimension is empty are not
    represented.  Broadcasting is modelled where the scheduler relies on it
    (scalars, and the size-one class dimension of [q_log_sum_exp]);
    elsewhere operands have the shapes the docstrings give. *)

Class TensorRuntime : Type := {
  F : Type;                       (* a float scalar *)
  Generator : Type;               (* the state of a [torch.Generator] *)
  fadd : F -> F -> F;
  fsub : F -> F -> F;
  fneg : F -> F;
  flog : F -> F;
  fmax : F -> F -> F;
  logaddexp : F -> F -> F;
  logsumexp : list F -> F;        (* reduction of one column *)
  fgtb : F -> F -> bool;          (* the order [argmax] uses *)
  of_int : Z -> F;                (* [.float()] on an integer *)
  f1em30 : F;                     (* the literal [1e-30] *)
  rand : Generator -> F * Generator   (* one uniform draw from [0, 1) *)
}.

Section Scheduler.

Context {RT : TensorRuntime}.

Definition tensor2 : Type := list (list F).
Definition tensor3 : Type := list (list (list F)).
Definition long2 : Type := list (list Z).

(** *** Shapes *)

Definition is_mat {A : Type} (rows cols : nat) (m : list (list A)) : Prop :=
  length m = rows /\ Forall (fun r => length r = cols) m.

Definition is_tensor3 {A : Type} (b c p : nat) (t : list (list (list A)))
  : Prop :=
  length t = b /\ Forall (is_mat c p) t.

Definition same_len {A B : Type} (xs : list A) (ys : list B) : bool :=
  (length xs =? length ys)%nat.

Fixpoint all2 {A B : Type} (f : A -> B -> bool) (xs : list A) (ys : list B)
  : bool :=
  match xs, ys with
  | [], [] => true
  | x :: xs', y :: ys' => f x y && all2 f xs' ys'
  | _, _ => false
  end.

(** Two three-dimensional tensors have the same shape. *)
Definition same_shape3 {A B : Type} (s : list (list (list A)))
    (t : list (list (list B))) : bool :=
  all2 (all2 same_len) s t.

Definition map3 {A B : Type} (f : A -> B) (t : list (list (list A)))
  : list (list (list B)) :=
  map (map (map f)) t.

(** An element-wise binary operation on tensors of one shape. *)
Definition zip3 (f : F -> F -> F) (s t : tensor3) : result tensor3 :=
  if same_shape3 s t
  then Ok (map2 (map2 (map2 f)) s t)
  else Raise RuntimeError.

(** The column [j] of a matrix given by its rows. *)
Definition column {A : Type} (m : list (list A)) (j : nat) : list A :=
  flat_map (fun r => match nth_error r j with
                     | Some a => [a]
                     | None => []
                     end) m.

(** Transposition of a matrix with [cols] columns. *)
Definition transpose {A : Type} (cols : nat) (m : list (list A))
  : list (list A) :=
  map (column m) (seq 0 cols).

(** The size of the last dimension, read off the first row. *)
Definition width {A : Type} (m : list (list A)) : nat :=
  match m with
  | [] => 0
  | r :: _ => length r
  end.

(** *** [index_to_log_onehot] *)

(** [F.one_hot(x, num_classes)], of shape (batch, pixels, classes); class
    values outside [0, num_classes) are refused.  The inference of the
    class count ([num_classes = -1]) is not used by the scheduler. *)
Definition one_hot (x : long2) (num_classes : Z)
  : result (list (list (list Z))) :=
  if forallb (forallb (fun v => (0 <=? v) && (v <? num_classes))%Z) x
  then Ok (map (map (fun v =>
                       map (fun c => if (v =? c)%Z then 1%Z else 0%Z)
                           (arange num_classes))) x)
  else Raise RuntimeError.

(** [t.permute(0, 2, 1)] on a tensor whose last dimension has size
    [last]. *)
Definition permute_0_2_1 {A : Type} (last : nat) (t : list (list (list A)))
  : list (list (list A)) :=
  map (transpose last) t.

Definition index_to_log_onehot (x : long2) (num_classes : Z)
  : result tensor3 :=
  x_onehot <- one_hot x num_classes ;;
  let x_onehot := permute_0_2_1 (Z.to_nat num_classes) x_onehot in
  let log_x := map3 (fun v => flog (fmax (of_int v) f1em30)) x_onehot in
  Ok log_x.

(** *** [gumbel_noised] *)

(** [torch.rand]: the entries are drawn one after the other, in row-major
    order, from the generator, whose state advances. *)
Fixpoint rand_row {A : Type} (shape : list A) (g : Generator)
  : list F * Generator :=
  match shape with
  | [] => ([], g)
  | _ :: rest =>
      let (u, g1) := rand g in
      let (us, g2) := rand_row rest g1 in
      (u :: us, g2)
  end.

Fixpoint rand_mat {A : Type} (shape : list (list A)) (g : Generator)
  : tensor2 * Generator :=
  match shape with
  | [] => ([], g)
  | r :: rest =>
      let (us, g1) := rand_row r g in
      let (uss, g2) := rand_mat rest g1 in
      (us :: uss, g2)
  end.

Fixpoint torch_rand {A : Type} (shape : list (list (list A))) (g : Generator)
  : tensor3 * Generator :=
  match shape with
  | [] => ([], g)
  | m :: rest =>
      let (us, g1) := rand_mat m g in
      let (uss, g2) := torch_rand rest g1 in
      (us :: uss, g2)
  end.

(** The process-wide random state: torch's default generator, from which a
    call draws when it is handed no generator. *)
Record Rng : Type := {
  default_generator : Generator
}.

(** [torch.rand(shape, generator=generator)]: returns the draws, the new
    state of the generator passed in, and the new state of the default
    generator. *)
Definition torch_rand_with {A : Type} (shape : list (list (list A)))
    (generator : option Generator) (world : Rng)
  : tensor3 * option Generator * Rng :=
  match generator with
  | Some g =>
      let (u, g') := torch_rand shape g in
      (u, Some g', world)
  | None =>
      let (u, d') := torch_rand shape (default_generator world) in
      (u, None, {| default_generator := d' |})
  end.

Definition gumbel_noised (logits : tensor3) (generator : option Generator)
    (world : Rng) : tensor3 * option Generator * Rng :=
  let '(uniform, generator', world') :=
    torch_rand_with logits generator world in
  let gumbel_noise :=
    map3 (fun u => fneg (flog (fadd (fneg (flog (fadd u f1em30))) f1em30)))
         uniform in
  let noised := map2 (map2 (map2 fadd)) gumbel_noise logits in
  (noised, generator', world').

(** *** [log_Q_t_transitioning_to_known_class] *)

Fixpoint mapM {A B : Type} (f : A -> result B) (xs : list A)
  : result (list B) :=
  match xs with
  | [] => Ok []
  | x :: xs' =>
      y <- f x ;;
      ys <- mapM f xs' ;;
      Ok (y :: ys)
  end.

(** [t[:, -1, :].unsqueeze(1)] *)
Definition last_channel (t : tensor3) : result tensor3 :=
  mapM (fun m => r <- py_index m (-1) ;; Ok [r]) t.

(** [t[:, :-1, :]] *)
Definition drop_last_channel (t : tensor3) : tensor3 := map (@removelast _) t.

(** [m.unsqueeze(1).expand(-1, k, -1)]: a size of [-1] keeps the size one
    of the new dimension, any other negative size is refused. *)
Definition expand_dim1 {A : Type} (m : list (list A)) (k : Z)
  : result (list (list (list A))) :=
  if (k =? -1)%Z then Ok (map (fun r => [r]) m)
  else if (k <? 0)%Z then Raise RuntimeError
  else Ok (map (fun r => repeat r (Z.to_nat k)) m).

(** [t[mask] = c]: the mask must have the shape of [t]. *)
Definition masked_assign (t : tensor3) (mask : list (list (list bool)))
    (c : F) : result tensor3 :=
  if same_shape3 mask t
  then Ok (map2 (map2 (map2 (fun (m : bool) v => if m then c else v))) mask t)
  else Raise IndexError.

(** All rows of a matrix have one length. *)
Definition rectangular {A : Type} (m : list (list A)) : bool :=
  forallb (fun r => (length r =? width m)%nat) m.

(** [torch.cat((s, t), dim=1)] *)
Definition cat_dim1 (s t : tensor3) : result tensor3 :=
  if same_len s t && forallb (@rectangular _) (map2 (@app _) s t)
  then Ok (map2 (@app _) s t)
  else Raise RuntimeError.

Definition log_Q_t_transitioning_to_known_class
    (self : VQDiffusionScheduler F) (t : Z) (x_t : long2)
    (log_onehot_x_t : tensor3) (cumulative : bool) : result tensor3 :=
  a <- py_index (if cumulative then log_cumprod_at self else log_at self) t ;;
  b <- py_index (if cumulative then log_cumprod_bt self else log_bt self) t ;;
  c <- py_index (if cumulative then log_cumprod_ct self else log_ct self) t ;;
  log_onehot_x_t_transitioning_from_masked <-
    (if negb cumulative then last_channel log_onehot_x_t else Ok []) ;;
  let log_onehot_x_t := drop_last_channel log_onehot_x_t in
  let log_Q_t := map3 (fun v => logaddexp (fadd v a) b) log_onehot_x_t in
  let mask_class_mask := map (map (fun v => (v =? mask_class self)%Z)) x_t in
  mask_class_mask <- expand_dim1 mask_class_mask (num_embed self - 1) ;;
  log_Q_t <- masked_assign log_Q_t mask_class_mask c ;;
  if negb cumulative
  then cat_dim1 log_Q_t log_onehot_x_t_transitioning_from_masked
  else Ok log_Q_t.

(** *** [apply_cumulative_transitions] *)

Definition apply_cumulative_transitions (self : VQDiffusionScheduler F)
    (q : tensor3) (t : Z) : result tensor3 :=
  a <- py_index (log_cumprod_at self) t ;;
  b <- py_index (log_cumprod_bt self) t ;;
  c <- py_index (log_cumprod_ct self) t ;;
  let q' := map3 (fun v => logaddexp (fadd v a) b) q in
  Ok (map2 (fun m m' => m' ++ [repeat c (width m)]) q q').

(** *** [q_posterior] *)

(** [torch.logsumexp(q, dim=1, keepdim=True)] *)
Definition logsumexp_dim1 (q : tensor3) : tensor3 :=
  map (fun m => [map logsumexp (transpose (width m) m)]) q.

(** [f] between a tensor and one whose class dimension has size one. *)
Definition broadcast_dim1 (f : F -> F -> F) (q s : tensor3) : result tensor3 :=
  if all2 (fun m k => match k with
                      | [r] => forallb (fun row => same_len row r) m
                      | _ => false
                      end) q s
  then Ok (map2 (fun m k => map (fun row => map2 f row (hd [] k)) m) q s)
  else Raise RuntimeError.

Definition q_posterior (self : VQDiffusionScheduler F) (log_p_x_0 : tensor3)
    (x_t : long2) (t : Z) : result tensor3 :=
  log_onehot_x_t <- index_to_log_onehot x_t (num_embed self) ;;
  log_q_x_t_given_x_0 <-
    log_Q_t_transitioning_to_known_class self t x_t log_onehot_x_t true ;;
  log_q_t_given_x_t_min_1 <-
    log_Q_t_transitioning_to_known_class self t x_t log_onehot_x_t false ;;
  q <- zip3 fsub log_p_x_0 log_q_x_t_given_x_0 ;;
  let q_log_sum_exp := logsumexp_dim1 q in
  q <- broadcast_dim1 fsub q q_log_sum_exp ;;
  q <- apply_cumulative_transitions self q (t - 1) ;;
  s <- zip3 fadd q log_q_t_given_x_t_min_1 ;;
  log_p_x_t_min_1 <- broadcast_dim1 fadd s q_log_sum_exp ;;
  Ok log_p_x_t_min_1.

(** *** [step] *)

(** The index of the first maximal entry of a non-empty column. *)
Fixpoint argmax_from (best : Z) (vbest : F) (i : Z) (xs : list F) : Z :=
  match xs with
  | [] => best
  | x :: xs' =>
      if fgtb x vbest
      then argmax_from i x (i + 1) xs'
      else argmax_from best vbest (i + 1) xs'
  end.

Definition argmax_column (xs : list F) : result Z :=
  match xs with
  | [] => Raise IndexError
  | x :: xs' => Ok (argmax_from 0 x 1 xs')
  end.

(** [t.argmax(dim=1)] *)
Definition argmax_dim1 (t : tensor3) : result long2 :=
  mapM (fun m =>
          match m with
          | [] => Raise IndexError
          | _ => mapM argmax_column (transpose (width m) m)
          end) t.

Inductive StepOutput : Type :=
| Tuple1 (x_t_min_1 : long2)
| VQDiffusionSchedulerOutput (prev_sample : long2).

(** The value of [log_p_x_t_min_1] after the conditional that opens
    [step]. *)
Definition step_posterior (self : VQDiffusionScheduler F)
    (log_p_x_0 : tensor3) (t : Z) (x_t : long2) : result tensor3 :=
  if (t =? 0)%Z
  then Ok log_p_x_0
  else q_posterior self log_p_x_0 x_t t.

Definition step (self : VQDiffusionScheduler F) (log_p_x_0 : tensor3)
    (t : Z) (x_t : long2) (generator : option Generator)
    (return_dict : bool) (world : Rng)
  : result (StepOutput * option Generator * Rng) :=
  log_p_x_t_min_1 <- step_posterior self log_p_x_0 t x_t ;;
  let '(log_p_x_t_min_1, generator', world') :=
    gumbel_noised log_p_x_t_min_1 generator world in
  x_t_min_1 <- argmax_dim1 log_p_x_t_min_1 ;;
  if negb return_dict
  then Ok (Tuple1 x_t_min_1, generator', world')
  else Ok (VQDiffusionSchedulerOutput x_t_min_1, generator', world').

(** The output object of [step] for a sample. *)
Definition step_output (return_dict : bool) (x_t_min_1 : long2)
  : StepOutput :=
  if negb return_dict
  then Tuple1 x_t_min_1
  else VQDiffusionSchedulerOutput x_t_min_1.

(** What a caller observes of a call of [step]: the output and the new
    state of the generator it passed, or the exception. *)
Definition observed (r : result (StepOutput * option Generator * Rng))
  : result (StepOutput * option Generator) :=
  '(o, g, _) <- r ;; Ok (o, g).

(** The state in which a call of [step] leaves the default generator. *)
Definition default_after (world : Rng)
    (r : result (StepOutput * option Generator * Rng)) : Rng :=
  match r with
  | Ok (_, _, world') => world'
  | Raise _ => world
  end.

End Scheduler.

(** ** The Wuerstchen prior pipeline

    The prior network, the text encoder with its tokenizer, the scheduler
    ([DDPMWuerstchenScheduler]) and [randn_tensor] are collaborators that
    the pipeline receives or imports; they are parameters here.  A tensor
    is the list of its batch entries, each entry flattened. *)

Module Wuerstchen.

Definition tensor : Type := list (list Qc).

(** [torch.cat([x] * 2)] *)
Definition cat2 {A : Type} (x : list A) : list A := x ++ x.

(** [x.chunk(2)] unpacked into two names: the first chunk holds
    [ceil(n / 2)] entries and the second the rest; a batch of one entry
    gives a single chunk, and the unpacking fails. *)
Definition chunk2 {A : Type} (x : list A) : result (list A * list A) :=
  let n := length x in
  let k := Nat.div (n + 1) 2 in
  if (n =? 1)%nat then Raise ValueError
  else Ok (firstn k x, skipn k x).

(** [torch.lerp(start, end, weight)] with a scalar weight:
    [start + weight * (end - start)], element by element.  The two halves
    of a doubled batch have one shape; operands of different shapes, which
    torch would try to broadcast, are refused here. *)
Definition lerp_scalar (s e w : Qc) : Qc := (s + w * (e - s))%Qc.

Definition same_shape2 {A B : Type} (s : list (list A)) (t : list (list B))
  : bool :=
  all2 (fun r r' => (length r =? length r')%nat) s t.

Definition lerp (start end_ : tensor) (weight : Qc) : result tensor :=
  if same_shape2 start end_
  then Ok (map2 (map2 (fun s e => lerp_scalar s e weight)) start end_)
  else Raise RuntimeError.

(** The [prompt] argument: a string (the list of its code points), a list
    of strings, or a value of another type. *)
Inductive Prompt : Type :=
| PromptStr (s : list nat)
| PromptList (l : list (list nat))
| PromptOther.

Record WuerstchenPriorPipelineOutput (Embeds : Type) : Type := {
  image_embeds : tensor;
  text_embeds : Embeds
}.

Section Pipeline.

Variable Embeds : Type.
Variable Generator : Type.

(** [self.prior(x, r=..., c=...)] *)
Variable prior : tensor -> list Qc -> Embeds -> tensor.
(** [self.prior.config.c_in] *)
Variable c_in : Z.
(** [self._encode_prompt], which runs the tokenizer and the text encoder *)
Variable _encode_prompt :
  list (list nat) -> Z -> bool -> option Prompt -> result Embeds.
(** [self.scheduler.set_timesteps] followed by [self.scheduler.timesteps] *)
Variable scheduler_timesteps : list (Qc * Z) -> list Qc.
(** [self.scheduler.step(...).prev_sample] *)
Variable scheduler_step :
  tensor -> list Qc -> tensor -> option Generator -> tensor * option Generator.
(** [randn_tensor] for a batch size and an entry size *)
Variable randn_tensor :
  Z -> Z -> option Generator -> tensor * option Generator.

Definition prepare_latents (batch entry : Z) (generator : option Generator)
    (latents : option tensor) : result (tensor * option Generator) :=
  match latents with
  | None => Ok (randn_tensor batch entry generator)
  | Some l =>
      if (Z.of_nat (length l) =? batch)%Z
         && forallb (fun e => (Z.of_nat (length e) =? entry)%Z) l
      then Ok (l, generator)
      else Raise ValueError
  end.

(** [guidance_scale > 1.0] *)
Definition do_classifier_free_guidance (guidance_scale : Qc) : bool :=
  match (guidance_scale ?= 1)%Qc with
  | Gt => true
  | _ => false
  end.

(** The prediction handed to the scheduler in one iteration of the
    loop. *)
Definition predict (guidance_scale : Qc) (text_encoder_hidden_states : Embeds)
    (latents : tensor) (ratio : list Qc) : result tensor :=
  let do_cfg := do_classifier_free_guidance guidance_scale in
  let predicted_image_embedding :=
    prior (if do_cfg then cat2 latents else latents)
          (if do_cfg then cat2 ratio else ratio)
          text_encoder_hidden_states in
  if do_cfg
  then
    '(predicted_image_embedding_text, predicted_image_embedding_uncond) <-
      chunk2 predicted_image_embedding ;;
    lerp predicted_image_embedding_uncond predicted_image_embedding_text
         guidance_scale
  else Ok predicted_image_embedding.

(** One iteration of the loop over [timesteps[:-1]]. *)
Definition iteration (guidance_scale : Qc) (text_encoder_hidden_states : Embeds)
    (t : Qc) (state : tensor * option Generator)
  : result (tensor * option Generator) :=
  let '(latents, generator) := state in
  let ratio := repeat t (length latents) in
  predicted_image_embedding <-
    predict guidance_scale text_encoder_hidden_states latents ratio ;;
  Ok (scheduler_step predicted_image_embedding ratio latents generator).

Fixpoint sampling_loop (guidance_scale : Qc)
    (text_encoder_hidden_states : Embeds) (timesteps : list Qc)
    (state : tensor * option Generator)
  : result (tensor * option Generator) :=
  match timesteps with
  | [] => Ok state
  | t :: rest =>
      state' <- iteration guidance_scale text_encoder_hidden_states t state ;;
      sampling_loop guidance_scale text_encoder_hidden_states rest state'
  end.

(** An iteration that calls the network on the batch as it is and hands
    its prediction to the scheduler unchanged. *)
Definition unguided_iteration (text_encoder_hidden_states : Embeds)
    (state : tensor * option Generator) (t : Qc)
  : tensor * option Generator :=
  let ratio := repeat t (length (fst state)) in
  scheduler_step (prior (fst state) ratio text_encoder_hidden_states)
                 ratio (fst state) (snd state).

(** [WuerstchenPriorPipeline.__call__] *)
Definition WuerstchenPriorPipeline__call__ (prompt : Prompt)
    (height width : Z) (num_inference_steps : list (Qc * Z))
    (guidance_scale : Qc) (negative_prompt : option Prompt)
    (num_images_per_prompt : Z) (generator : option Generator)
    (latents : option tensor)
  : result (WuerstchenPriorPipelineOutput Embeds * option Generator) :=
  let do_cfg := do_classifier_free_guidance guidance_scale in
  prompt <- match prompt with
            | PromptStr s => Ok [s]
            | PromptList l => Ok l
            | PromptOther => Raise ValueError
            end ;;
  let batch_size := Z.of_nat (length prompt) in
  text_encoder_hidden_states <-
    _encode_prompt prompt num_images_per_prompt do_cfg negative_prompt ;;
  let latent_height := (128 * (height / 128) / (1024 / 24))%Z in
  let latent_width := (128 * (width / 128) / (1024 / 24))%Z in
  let num_channels := c_in in
  let timesteps := scheduler_timesteps num_inference_steps in
  state <- prepare_latents (num_images_per_prompt * batch_size)
             (num_channels * latent_height * latent_width)
             generator latents ;;
  state <- sampling_loop guidance_scale text_encoder_hidden_states
             (removelast timesteps) state ;;
  let '(latents, generator) := state in
  let latents :=
    map (map (fun v => v * Q2Qc (inject_Z 42) - 1)%Qc) latents in
  Ok ({| image_embeds := latents;
         text_embeds := text_encoder_hidden_states |}, generator).

(** [__call__] when no iteration applies guidance: the prompt is encoded
    without the unconditional half and the loop is the unguided one. *)
Definition unguided_call (prompt : Prompt)
    (height width : Z) (num_inference_steps : list (Qc * Z))
    (negative_prompt : option Prompt)
    (num_images_per_prompt : Z) (generator : option Generator)
    (latents : option tensor)
  : result (WuerstchenPriorPipelineOutput Embeds * option Generator) :=
  prompt <- match prompt with
            | PromptStr s => Ok [s]
            | PromptList l => Ok l
            | PromptOther => Raise ValueError
            end ;;
  text_encoder_hidden_states <-
    _encode_prompt prompt num_images_per_prompt false negative_prompt ;;
  state <- prepare_latents
             (num_images_per_prompt * Z.of_nat (length prompt))
             (c_in * (128 * (height / 128) / (1024 / 24))
                   * (128 * (width / 128) / (1024 / 24)))
             generator latents ;;
  let '(latents, generator) :=
    fold_left (unguided_iteration text_encoder_hidden_states)
              (removelast (scheduler_timesteps num_inference_steps)) state in
  Ok ({| image_embeds :=
           map (map (fun v => v * Q2Qc (inject_Z 42) - 1)%Qc) latents;
         text_embeds := text_encoder_hidden_states |}, generator).

End Pipeline.

(** Collaborators for running the loop on concrete data: a network that
    returns its input and a scheduler whose step returns the prediction. *)
Definition echo_prior (x : tensor) (_ : list Qc) (_ : unit) : tensor := x.

Definition echo_scheduler_step (model_output : tensor) (_ : list Qc)
    (_ : tensor) (generator : option unit) : tensor * option unit :=
  (model_output, generator).

End Wuerstchen.

(** ** A runtime over exact extended reals

    The operations of the runtime on [tfloat], with the IEEE rules for the
    special values.  The generator is a linear congruential one: torch's
    own generators are not part of the sources, and the scheduler only
    threads their state. *)

Module Exact.

Definition tneg (x : tfloat) : tfloat :=
  match x with
  | TFin r => TFin (- r)%R
  | TPInf => TNInf
  | TNInf => TPInf
  | TNaN => TNaN
  end.

Definition tadd (x y : tfloat) : tfloat :=
  match x, y with
  | TNaN, _ | _, TNaN => TNaN
  | TFin a, TFin b => TFin (a + b)%R
  | TPInf, TNInf | TNInf, TPInf => TNaN
  | TPInf, _ | _, TPInf => TPInf
  | TNInf, _ | _, TNInf => TNInf
  end.

Definition tsub (x y : tfloat) : tfloat := tadd x (tneg y).

Definition tlog (x : tfloat) : tfloat :=
  match x with
  | TFin r =>
      if Rlt_dec 0 r then TFin (ln r)
      else if Req_dec_T r 0 then TNInf
      else TNaN
  | TPInf => TPInf
  | TNInf | TNaN => TNaN
  end.

(** [x.clamp(min=m)] *)
Definition tmax (x m : tfloat) : tfloat :=
  match x, m with
  | TNaN, _ | _, TNaN => TNaN
  | TPInf, _ | _, TPInf => TPInf
  | TNInf, y => y
  | x, TNInf => x
  | TFin a, TFin b => if Rlt_dec a b then TFin b else TFin a
  end.

Definition tlogaddexp (x y : tfloat) : tfloat :=
  match x, y with
  | TNaN, _ | _, TNaN => TNaN
  | TPInf, _ | _, TPInf => TPInf
  | TNInf, y => y
  | x, TNInf => x
  | TFin a, TFin b => TFin (ln (exp a + exp b))
  end.

Definition tlogsumexp (xs : list tfloat) : tfloat :=
  fold_left tlogaddexp xs TNInf.

(** [x] comes strictly after [y] in the order of [argmax], for which NaN
    is the largest value. *)
Definition tgtb (x y : tfloat) : bool :=
  match x, y with
  | _, TNaN => false
  | TNaN, _ => true
  | _, TPInf => false
  | TPInf, _ => true
  | TNInf, _ => false
  | TFin _, TNInf => true
  | TFin a, TFin b => if Rlt_dec b a then true else false
  end.

(** The literal [1e-30] of [gumbel_noised]. *)
Definition eps : R := (/ 10 ^ 30)%R.

(** The Gumbel transform of one uniform draw,
    [-log(-log(u + 1e-30) + 1e-30)]. *)
Definition gumbel (u : R) : R := (- ln (- ln (u + eps) + eps))%R.

Definition lcg_modulus : Z := 2147483648.

Definition lcg_next (s : Z) : Z := ((1103515245 * s + 12345) mod lcg_modulus)%Z.

Definition lcg_rand (s : Z) : tfloat * Z :=
  let s' := lcg_next s in
  (TFin (IZR s' / IZR lcg_modulus)%R, s').

#[export] Instance RealRuntime : TensorRuntime := {|
  F := tfloat;
  Generator := Z;
  fadd := tadd;
  fsub := tsub;
  fneg := tneg;
  flog := tlog;
  fmax := tmax;
  logaddexp := tlogaddexp;
  logsumexp := tlogsumexp;
  fgtb := tgtb;
  of_int := fun z => TFin (IZR z);
  f1em30 := TFin eps;
  rand := lcg_rand
|}.

End Exact.

(** ** Entries and sizes *)

(** The entry [(i, j)] of a matrix and the entry [(i, c, j)] of a
    three-dimensional tensor, when the indices are in range. *)
Definition entry2 {A : Type} (m : list (list A)) (i j : nat) : option A :=
  match nth_error m i with
  | Some r => nth_error r j
  | None => None
  end.

Definition entry3 {A : Type} (t : list (list (list A))) (i c j : nat)
  : option A :=
  match nth_error t i with
  | Some m => entry2 m c j
  | None => None
  end.

(** The tables of a scheduler have the sizes that construction with [T]
    timesteps gives them: [T] per-step entries and [T + 1] cumulative
    ones. *)
Definition well_sized {F : Type} (self : VQDiffusionScheduler F) (T : nat)
  : Prop :=
  length (log_at self) = T /\
  length (log_bt self) = T /\
  length (log_ct self) = T /\
  length (log_cumprod_at self) = S T /\
  length (log_cumprod_bt self) = S T /\
  length (log_cumprod_ct self) = S T.

(** The running products of a sequence, starting from [acc]. *)
Fixpoint cumprod_from (acc : npfloat) (xs : list npfloat) : list npfloat :=
  match xs with
  | [] => []
  | x :: xs' => mul acc x :: cumprod_from (mul acc x) xs'
  end.

Definition cumprod (xs : list npfloat) : list npfloat :=
  cumprod_from (Fin 1%Qc) xs.

(** A finite value other than zero. *)
Definition nonzero_fin (x : npfloat) : bool :=
  match x with
  | Fin q => match sgn q with
             | Eq => false
             | _ => true
             end
  | _ => false
  end.

(** [1 - x] *)
Definition complement (x : npfloat) : npfloat := sub (Fin 1%Qc) x.

(** The index that [argmax] chooses in a column, the first maximal one. *)
Definition chosen {RT : TensorRuntime} (col : list F) : Z :=
  match col with
  | [] => 0%Z
  | x :: xs => argmax_from 0 x 1 xs
  end.

(** ** [_encode_prompt]

    The tokenizer and the text encoder are collaborators of the pipeline
    and stay parameters.  A float tensor of three dimensions is kept as
    its sizes and its entries in row-major order, which is what [view]
    reads; tensors of token ids are lists of rows, and the size of the
    last dimension of one without rows is taken to be zero.  Moving a
    tensor to a device changes no value and is left out.  The warning
    that [logger.warning] emits is returned along with the result, as the
    token ids that [batch_decode] is given. *)

Module EncodePrompt.

Import Wuerstchen.

(** [TypeError], which the code modelled above never raises, besides
    the exceptions of [exn]. *)
Inductive raised : Type :=
| TypeError
| Other (e : exn).

Inductive outcome (A : Type) : Type :=
| Returns (a : A)
| Raises (e : raised).

Arguments Returns {A} a.
Arguments Raises {A} e.

Definition and_then {A B : Type} (m : outcome A) (k : A -> outcome B)
  : outcome B :=
  match m with
  | Returns a => k a
  | Raises e => Raises e
  end.

Notation "x <~ m ;; k" := (and_then m (fun x => k))
  (at level 61, m at next level, right associativity).

(** The [prompt] argument, of one of the two types of the signature of
    [__call__]: a string or a list of strings. *)
Inductive Text : Type :=
| Str (s : list nat)
| Strs (l : list (list nat)).

(** [type(prompt) is type(negative_prompt)] *)
Definition same_type (prompt : Text) (negative_prompt : Prompt) : bool :=
  match prompt, negative_prompt with
  | Str _, PromptStr _ => true
  | Strs _, PromptList _ => true
  | _, _ => false
  end.

Record tensor3d : Type := {
  size0 : nat;
  size1 : nat;
  size2 : nat;
  entries : list Qc
}.

(** The bound [k] of a slice of a sequence of length [n], as Python
    clamps it. *)
Definition clamp (k : Z) (n : nat) : nat :=
  if (k <? 0)%Z then Z.to_nat (Z.max 0 (k + Z.of_nat n))
  else Z.to_nat (Z.min k (Z.of_nat n)).

(** [xs[start:stop]] and [xs[:stop]] *)
Definition slice {A : Type} (start stop : Z) (xs : list A) : list A :=
  skipn (clamp start (length xs)) (firstn (clamp stop (length xs)) xs).

Definition slice_to {A : Type} (stop : Z) (xs : list A) : list A :=
  firstn (clamp stop (length xs)) xs.

(** [torch.equal] on tensors of token ids *)
Definition ids_equal (a b : list (list Z)) : bool :=
  if list_eq_dec (list_eq_dec Z.eq_dec) a b then true else false.

(** The entries of a tensor of [count] blocks of [size] entries in which
    every block is written [n] times in a row. *)
Fixpoint repeat_blocks {A : Type} (count size n : nat) (data : list A)
  : list A :=
  match count with
  | O => []
  | S c =>
      concat (repeat (firstn size data) n)
      ++ repeat_blocks c size n (skipn size data)
  end.

(** [t.repeat_interleave(n, dim=0)] *)
Definition repeat_interleave0 (t : tensor3d) (n : Z) : outcome tensor3d :=
  if (n <? 0)%Z then Raises (Other RuntimeError)
  else Returns {| size0 := size0 t * Z.to_nat n;
                  size1 := size1 t;
                  size2 := size2 t;
                  entries := repeat_blocks (size0 t) (size1 t * size2 t)
                               (Z.to_nat n) (entries t) |}.

(** [t.repeat(1, n, 1)] *)
Definition repeat_dim1 (t : tensor3d) (n : Z) : outcome tensor3d :=
  if (n <? 0)%Z then Raises (Other RuntimeError)
  else Returns {| size0 := size0 t;
                  size1 := size1 t * Z.to_nat n;
                  size2 := size2 t;
                  entries := repeat_blocks (size0 t) (size1 t * size2 t)
                               (Z.to_nat n) (entries t) |}.

(** [t.view(d0, d1, -1)]: the last size is inferred from the number of
    entries, which fails when [d0 * d1] is zero or does not divide it. *)
Definition view (t : tensor3d) (d0 d1 : Z) : outcome tensor3d :=
  let total := (size0 t * size1 t * size2 t)%nat in
  if ((d0 <? 0) || (d1 <? 0))%Z%bool then Raises (Other RuntimeError)
  else
    let k := (Z.to_nat d0 * Z.to_nat d1)%nat in
    if (k =? 0)%nat then Raises (Other RuntimeError)
    else if (total mod k =? 0)%nat
    then Returns {| size0 := Z.to_nat d0;
                    size1 := Z.to_nat d1;
                    size2 := total / k;
                    entries := entries t |}
    else Raises (Other RuntimeError).

(** [torch.cat([s, t])] *)
Definition cat (s t : tensor3d) : outcome tensor3d :=
  if ((size1 s =? size1 t) && (size2 s =? size2 t))%nat%bool
  then Returns {| size0 := size0 s + size0 t;
                  size1 := size1 s;
                  size2 := size2 s;
                  entries := entries s ++ entries t |}
  else Raises (Other RuntimeError).

(** The duplication of the unconditional embeddings, once for each
    image of a prompt: [u.repeat(1, n, 1).view(batch_size * n, seq_len, -1)]
    with [seq_len = u.shape[1]]. *)
Definition duplicated (u : tensor3d) (batch_size n : Z) : outcome tensor3d :=
  u' <~ repeat_dim1 u n ;;
  view u' (batch_size * n) (Z.of_nat (size1 u)).

Section Encoder.

(** [self.tokenizer.model_max_length] *)
Variable model_max_length : Z.
(** [self.tokenizer(text, padding="max_length", max_length=...,
    truncation=True)]: the token ids and the attention mask *)
Variable tokenizer : Text -> list (list Z) * list (list Z).
(** [self.tokenizer(text, padding="longest").input_ids] *)
Variable tokenizer_longest : Text -> list (list Z).
(** [self.text_encoder(ids, attention_mask=mask).last_hidden_state] *)
Variable text_encoder : list (list Z) -> list (list Z) -> tensor3d.

Definition _encode_prompt (prompt : Text) (num_images_per_prompt : Z)
    (do_classifier_free_guidance : bool) (negative_prompt : option Prompt)
  : outcome (tensor3d * option (list (list Z))) :=
  let batch_size :=
    match prompt with
    | Strs l => Z.of_nat (length l)
    | Str _ => 1%Z
    end in
  let '(text_input_ids, attention_mask) := tokenizer prompt in
  let untruncated_ids := tokenizer_longest prompt in
  let truncated :=
    (width text_input_ids <=? width untruncated_ids)%nat
    && negb (ids_equal text_input_ids untruncated_ids) in
  let removed_text :=
    if truncated
    then Some (map (slice (model_max_length - 1) (-1)) untruncated_ids)
    else None in
  let text_input_ids :=
    if truncated then map (slice_to model_max_length) text_input_ids
    else text_input_ids in
  let attention_mask :=
    if truncated then map (slice_to model_max_length) attention_mask
    else attention_mask in
  let text_encoder_hidden_states :=
    text_encoder text_input_ids attention_mask in
  text_encoder_hidden_states <~
    repeat_interleave0 text_encoder_hidden_states num_images_per_prompt ;;
  if do_classifier_free_guidance
  then
    uncond_tokens <~
      match negative_prompt with
      | None => Returns (repeat [] (Z.to_nat batch_size))
      | Some np =>
          if negb (same_type prompt np) then Raises TypeError
          else
            match np with
            | PromptStr s => Returns [s]
            | PromptList l =>
                if negb (batch_size =? Z.of_nat (length l))%Z
                then Raises (Other ValueError)
                else Returns l
            | PromptOther => Raises TypeError (* no prompt has this type *)
            end
      end ;;
    let '(uncond_input_ids, uncond_attention_mask) :=
      tokenizer (Strs uncond_tokens) in
    let uncond_text_encoder_hidden_states :=
      text_encoder uncond_input_ids uncond_attention_mask in
    let seq_len := size1 uncond_text_encoder_hidden_states in
    uncond_text_encoder_hidden_states <~
      repeat_dim1 uncond_text_encoder_hidden_states num_images_per_prompt ;;
    uncond_text_encoder_hidden_states <~
      view uncond_text_encoder_hidden_states
           (batch_size * num_images_per_prompt) (Z.of_nat seq_len) ;;
    text_encoder_hidden_states <~
      cat text_encoder_hidden_states uncond_text_encoder_hidden_states ;;
    Returns (text_encoder_hidden_states, removed_text)
  else Returns (text_encoder_hidden_states, removed_text).

End Encoder.

(** Collaborators for running [_encode_prompt] on concrete data: a
    tokenizer whose ids are the code points of each string, padded with
    zeros or cut to three tokens, and an encoder that returns the ids as
    embeddings of size one. *)
Definition texts_of (text : Text) : list (list nat) :=
  match text with
  | Str s => [s]
  | Strs l => l
  end.

Definition toy_tokenizer (text : Text) : list (list Z) * list (list Z) :=
  (map (fun s => firstn 3 (map Z.of_nat s ++ repeat 0%Z 3)) (texts_of text),
   map (fun s => firstn 3 (map (fun _ => 1%Z) s ++ repeat 0%Z 3))
       (texts_of text)).

Definition toy_tokenizer_longest (text : Text) : list (list Z) :=
  let longest := fold_right Nat.max 0%nat (map (@length nat) (texts_of text)) in
  map (fun s => firstn longest (map Z.of_nat s ++ repeat 0%Z longest))
      (texts_of text).

Definition toy_text_encoder (ids mask : list (list Z)) : tensor3d :=
  {| size0 := length ids;
     size1 := width ids;
     size2 := 1;
     entries := map (fun z => Q2Qc (inject_Z z)) (concat ids) |}.

(** [len(prompt) if isinstance(prompt, list) else 1] *)
Definition batch_size_of (prompt : Text) : Z :=
  match prompt with
  | Strs l => Z.of_nat (length l)
  | Str _ => 1%Z
  end.

(** The unconditional tokens that [_encode_prompt] chooses for a negative
    prompt that it accepts. *)
Definition accepted (prompt : Text) (negative_prompt : option Prompt)
    (uncond_tokens : list (list nat)) : Prop :=
  (negative_prompt = None /\
   uncond_tokens = repeat [] (Z.to_nat (batch_size_of prompt))) \/
  (exists s s', prompt = Str s /\ negative_prompt = Some (PromptStr s') /\
                uncond_tokens = [s']) \/
  (exists l, prompt = Strs l /\
             negative_prompt = Some (PromptList uncond_tokens) /\
             length uncond_tokens = length l).

End EncodePrompt.

(** A draw of [torch.rand] over the exact runtime: a real of [0, 1). *)
Definition unit_draw (x : tfloat) : Prop :=
  exists u : R, x = TFin u /\ (0 <= u < 1)%R.

(** Every entry of a tensor is a real number. *)
Definition all_finite (t : list (list (list tfloat))) : Prop :=
  Forall (Forall (Forall (fun x => is_finite x = true))) t.

(** * Properties *)

Unset Implicit Arguments.

(** ** Indexing and lists *)

(** Closes [true = (0 <=? j) && (j <? n)] when [lia] knows the bounds. *)
Ltac in_range :=
  symmetry; apply andb_true_iff; split;
  [apply Z.leb_le | apply Z.ltb_lt]; lia.

Lemma py_index_Ok_inv {A : Type} (xs : list A) (i : Z) (a : A) :
  py_index xs i = Ok a ->
  let n := Z.of_nat (length xs) in
  let j := if (i <? 0)%Z then (i + n)%Z else i in
  (0 <= j < n)%Z /\ nth_error xs (Z.to_nat j) = Some a.
Proof.
  unfold py_index. cbv zeta.
  destruct (_ && _)%bool eqn:Hr; [|discriminate].
  apply andb_true_iff in Hr. destruct Hr as [H0 H1].
  apply Z.leb_le in H0. apply Z.ltb_lt in H1.
  destruct (nth_error _ _) eqn:Hn; [|discriminate].
  intros [= ->]. split; [lia | reflexivity].
Qed.

Lemma py_index_nth {A : Type} (xs : list A) (i : Z) (a : A) :
  (0 <= i)%Z -> nth_error xs (Z.to_nat i) = Some a -> py_index xs i = Ok a.
Proof.
  intros Hi Hn. unfold py_index.
  assert (Hlen : (Z.to_nat i < length xs)%nat)
    by (apply nth_error_Some; congruence).
  destruct (i <? 0)%Z eqn:Hneg; [apply Z.ltb_lt in Hneg; lia|].
  replace ((0 <=? i)%Z && (i <? Z.of_nat (length xs))%Z)%bool with true.
  - now rewrite Hn.
  - in_range.
Qed.

Lemma py_index_last {A : Type} (l : list A) (x : A) :
  py_index (l ++ [x]) (-1) = Ok x.
Proof.
  unfold py_index. rewrite length_app. cbn [length].
  change (-1 <? 0)%Z with true. cbv iota.
  replace (-1 + Z.of_nat (length l + 1))%Z with (Z.of_nat (length l))
    by lia.
  replace ((0 <=? Z.of_nat (length l))%Z
           && (Z.of_nat (length l) <? Z.of_nat (length l + 1))%Z)%bool
    with true by in_range.
  rewrite Nat2Z.id, nth_error_app2, Nat.sub_diag by lia. reflexivity.
Qed.

Lemma map2_length {A B C : Type} (f : A -> B -> C) xs ys :
  length (map2 f xs ys) = Nat.min (length xs) (length ys).
Proof.
  revert ys. induction xs as [|x xs IH]; intros [|y ys]; simpl; auto.
Qed.

Lemma nth_error_map2 {A B C : Type} (f : A -> B -> C) xs ys n x y :
  nth_error xs n = Some x -> nth_error ys n = Some y ->
  nth_error (map2 f xs ys) n = Some (f x y).
Proof.
  revert ys n. induction xs as [|x0 xs IH]; intros [|y0 ys] [|n]; simpl;
    try discriminate.
  - now intros [= ->] [= ->].
  - apply IH.
Qed.

Lemma nth_error_map2_inv {A B C : Type} (f : A -> B -> C) xs ys n z :
  nth_error (map2 f xs ys) n = Some z ->
  exists x y, nth_error xs n = Some x /\ nth_error ys n = Some y /\ z = f x y.
Proof.
  revert ys n. induction xs as [|x0 xs IH]; intros [|y0 ys] [|n]; simpl;
    try discriminate.
  - intros [= <-]. eauto.
  - apply IH.
Qed.


Lemma arange_length n : length (arange n) = Z.to_nat n.
Proof. unfold arange. now rewrite length_map, length_seq. Qed.

Lemma nth_error_arange n i :
  (i < Z.to_nat n)%nat -> nth_error (arange n) i = Some (Z.of_nat i).
Proof.
  intros H. unfold arange. rewrite nth_error_map.
  rewrite nth_error_seq.
  replace (i <? Z.to_nat n)%nat with true
    by (symmetry; now apply Nat.ltb_lt).
  reflexivity.
Qed.

(** ** Exact arithmetic *)

Lemma sgn_of_Z z : sgn (Q2Qc (inject_Z z)) = (z ?= 0)%Z.
Proof.
  unfold sgn, Qccompare.
  change (this (Q2Qc (inject_Z z))) with (Qred (inject_Z z)).
  change (this 0%Qc) with (Qred 0).
  rewrite <- Qred_compare. unfold Qcompare. simpl. now rewrite Z.mul_1_r.
Qed.

Lemma sgn_Eq q : sgn q = Eq <-> q = 0%Qc.
Proof. unfold sgn. symmetry. apply Qceq_alt. Qed.

Lemma div_Fin a b :
  b <> 0%Qc -> div (Fin a) (Fin b) = Fin (a / b)%Qc.
Proof.
  intros Hb. unfold div.
  destruct (sgn b) eqn:Hs; auto.
  apply sgn_Eq in Hs. contradiction.
Qed.

Lemma of_Z_nonzero z : z <> 0%Z -> Q2Qc (inject_Z z) <> 0%Qc.
Proof.
  intros Hz Hq. apply sgn_Eq in Hq. rewrite sgn_of_Z in Hq.
  apply Z.compare_eq in Hq. contradiction.
Qed.

Lemma div_Fin_inv x y q :
  div x (Fin y) = Fin q -> y <> 0%Qc /\ exists a, x = Fin a /\ q = (a / y)%Qc.
Proof.
  destruct x as [a| | |]; simpl.
  - destruct (sgn y) eqn:Hs.
    + destruct (sgn a); discriminate.
    + intros [= <-]. split; [|eauto].
      intros ->. discriminate.
    + intros [= <-]. split; [|eauto].
      intros ->. discriminate.
  - destruct (sgn y); discriminate.
  - destruct (sgn y); discriminate.
  - discriminate.
Qed.

Lemma Q2R_Qc_plus (a b : Qc) : Q2R (a + b)%Qc = (Q2R a + Q2R b)%R.
Proof.
  rewrite <- Q2R_plus. apply Qeq_eqR.
  change (this (a + b)%Qc) with (Qred (a + b)). apply Qred_correct.
Qed.

Lemma Q2R_Qc_mult (a b : Qc) : Q2R (a * b)%Qc = (Q2R a * Q2R b)%R.
Proof.
  rewrite <- Q2R_mult. apply Qeq_eqR.
  change (this (a * b)%Qc) with (Qred (a * b)). apply Qred_correct.
Qed.

Lemma Q2R_of_Z z : Q2R (Q2Qc (inject_Z z)) = IZR z.
Proof.
  transitivity (Q2R (inject_Z z)).
  - apply Qeq_eqR.
    change (this (Q2Qc (inject_Z z))) with (Qred (inject_Z z)).
    apply Qred_correct.
  - unfold Q2R. simpl. lra.
Qed.

Lemma Q2R_Qc_1 : Q2R 1%Qc = 1%R.
Proof. unfold Q2R. simpl. lra. Qed.

Lemma Q2R_Qc_0 : Q2R 0%Qc = 0%R.
Proof. unfold Q2R. simpl. lra. Qed.

(** ** The schedules *)

Lemma alpha_schedules_length T s e :
  length (fst (alpha_schedules T s e)) = Z.to_nat T /\
  length (snd (alpha_schedules T s e)) = S (Z.to_nat T).
Proof.
  unfold alpha_schedules. cbv zeta. cbn [fst snd tl].
  rewrite map2_length, length_app, length_map, arange_length. cbn [length].
  rewrite removelast_firstn_len. rewrite length_firstn. cbn [length].
  rewrite length_map, arange_length. lia.
Qed.

Lemma gamma_schedules_length T s e :
  length (fst (gamma_schedules T s e)) = Z.to_nat T /\
  length (snd (gamma_schedules T s e)) = S (Z.to_nat T).
Proof.
  unfold gamma_schedules. cbv zeta. cbn [fst snd tl map].
  rewrite length_map, map2_length, length_app, !length_map, arange_length.
  cbn [length].
  rewrite removelast_firstn_len. rewrite length_firstn. cbn [length].
  rewrite !length_map, arange_length. lia.
Qed.

Lemma beta_schedule_length k at_ ct :
  length at_ = length ct -> length (beta_schedule k at_ ct) = length at_.
Proof. intros H. unfold beta_schedule. rewrite map2_length. lia. Qed.


Lemma exp_log_Fin x e :
  torch_exp (torch_log x) = TFin e -> exists q, x = Fin q /\ e = Q2R q.
Proof.
  destruct x as [q| | |]; simpl; try discriminate.
  destruct (sgn q) eqn:Hs; simpl; try discriminate; intros [= <-]; exists q.
  - apply sgn_Eq in Hs. subst q. split; [reflexivity | now rewrite Q2R_Qc_0].
  - split; [reflexivity|]. apply exp_ln.
    unfold sgn in Hs. apply Qcgt_alt in Hs.
    rewrite <- Q2R_Qc_0. now apply Qlt_Rlt.
Qed.

(** The three coefficients of a row of the transition matrix sum to one. *)
Lemma mixture_sum (k : Z) (xa xc : npfloat) (ea eb ec : R) :
  torch_exp (torch_log xa) = TFin ea ->
  torch_exp (torch_log (div (sub (sub (Fin 1%Qc) xa) xc) (of_Z k))) = TFin eb ->
  torch_exp (torch_log xc) = TFin ec ->
  (ea + eb * IZR k + ec = 1)%R.
Proof.
  intros Ha Hb Hc.
  apply exp_log_Fin in Ha, Hb, Hc.
  destruct Ha as (qa & -> & ->), Hb as (qb & Hb & ->), Hc as (qc & -> & ->).
  unfold of_Z in Hb. apply div_Fin_inv in Hb.
  destruct Hb as (Hk & a0 & Hsub & ->).
  simpl in Hsub. injection Hsub as <-.
  assert (Hq : (qa + (1 + - qa + - qc) / Q2Qc (inject_Z k) * Q2Qc (inject_Z k)
                + qc = 1)%Qc) by (field; exact Hk).
  apply (f_equal (fun q : Qc => Q2R q)) in Hq.
  rewrite !Q2R_Qc_plus, Q2R_Qc_mult, Q2R_of_Z, Q2R_Qc_1 in Hq.
  exact Hq.
Qed.

Lemma py_index_map {A B : Type} (f : A -> B) xs t x :
  py_index xs t = Ok x -> py_index (map f xs) t = Ok (f x).
Proof.
  intros Hx. apply py_index_Ok_inv in Hx. cbv zeta in Hx.
  destruct Hx as [Hj Hx]. unfold py_index. rewrite length_map.
  replace (_ && _)%bool with true by in_range.
  now rewrite nth_error_map, Hx.
Qed.

Lemma py_index_map2 {A B C : Type} (f : A -> B -> C) xs ys t x y :
  length xs = length ys ->
  py_index xs t = Ok x -> py_index ys t = Ok y ->
  py_index (map2 f xs ys) t = Ok (f x y).
Proof.
  intros Hlen Hx Hy. apply py_index_Ok_inv in Hx, Hy. cbv zeta in Hx, Hy.
  rewrite <- Hlen in Hy.
  destruct Hx as [Hj Hx], Hy as [_ Hy]. unfold py_index.
  rewrite map2_length, <- Hlen, Nat.min_id.
  replace (_ && _)%bool with true by in_range.
  now rewrite (nth_error_map2 f xs ys _ x y Hx Hy).
Qed.

Lemma beta_derived k (at_ ct : list npfloat) t :
  length at_ = length ct ->
  beta_derived_at at_ ct (map torch_log (beta_schedule k at_ ct)) k t.
Proof.
  intros Hlen a c Ha Hc. split.
  - apply py_index_map. unfold beta_schedule.
    exact (py_index_map2
             (fun a c => div (sub (sub (Fin 1%Qc) a) c) (of_Z k))
             at_ ct t a c Hlen Ha Hc).
  - intros qa qc -> -> Hk.
    exists ((1 - qa - qc) / Q2Qc (inject_Z k))%Qc.
    pose proof (of_Z_nonzero _ Hk) as Hk'.
    repeat split.
    + unfold of_Z. simpl sub. now rewrite div_Fin.
    + field. exact Hk'.
Qed.

(** C1, amended.  At every timestep [t] of a built schedule the per-step
    beta is [(1 - alpha - gamma) / (num_embed - 1)] in linear space, so
    that [alpha + (num_embed - 1) * beta + gamma = 1]; the cumulative beta
    divides by [num_embed - 1] as well. *)
Theorem beta_divides_by_num_non_mask_classes
    (num_embed num_train_timesteps : Z)
    (a_cumulative_start a_cumulative_end
     c_cumulative_start c_cumulative_end : Qc)
    (s : VQDiffusionScheduler tfloat) (t : Z) :
  VQDiffusionScheduler__init__ num_embed num_train_timesteps
    a_cumulative_start a_cumulative_end c_cumulative_start c_cumulative_end
  = Ok s ->
  let alpha := alpha_schedules num_train_timesteps
                 a_cumulative_start a_cumulative_end in
  let gamma := gamma_schedules num_train_timesteps
                 c_cumulative_start c_cumulative_end in
  log_at s = map torch_log (fst alpha) /\
  log_ct s = map torch_log (fst gamma) /\
  log_cumprod_at s = map torch_log (snd alpha) /\
  log_cumprod_ct s = map torch_log (snd gamma) /\
  beta_derived_at (fst alpha) (fst gamma) (log_bt s) (num_embed - 1) t /\
  beta_derived_at (snd alpha) (snd gamma) (log_cumprod_bt s)
    (num_embed - 1) t.
Proof.
  unfold VQDiffusionScheduler__init__.
  pose proof (alpha_schedules_length num_train_timesteps
                a_cumulative_start a_cumulative_end) as [La La'].
  pose proof (gamma_schedules_length num_train_timesteps
                c_cumulative_start c_cumulative_end) as [Lc Lc'].
  destruct (alpha_schedules _ _ _) as [at_ att].
  destruct (gamma_schedules _ _ _) as [ct ctt].
  cbn [fst snd] in *.
  intros [= <-]. cbn [log_at log_bt log_ct log_cumprod_at log_cumprod_bt
                        log_cumprod_ct].
  do 4 (split; [reflexivity|]).
  split; apply beta_derived; congruence.
Qed.


Lemma torch_exp_log_pos (q : Qc) :
  (0 < this q)%Q -> torch_exp (torch_log (Fin q)) = TFin (Q2R q).
Proof.
  intros Hq. simpl.
  assert (Hs : sgn q = Gt).
  { unfold sgn. apply Qcgt_alt. exact Hq. }
  rewrite Hs. simpl. f_equal. apply exp_ln.
  rewrite <- RMicromega.Q2R_0. now apply Qlt_Rlt.
Qed.

(** The default configuration always yields a scheduler. *)
Lemma default_scheduler_built (num_embed num_train_timesteps : Z) :
  exists s, default_scheduler num_embed num_train_timesteps = Ok s.
Proof.
  unfold default_scheduler, VQDiffusionScheduler__init__.
  destruct (alpha_schedules _ _ _) as [at_ att].
  destruct (gamma_schedules _ _ _) as [ct ctt].
  eexists. reflexivity.
Qed.

(** The per-step alpha and gamma of the default schedule of a hundred
    steps at the last timestep. *)
Lemma default_linear_last :
  exists qa qc,
    py_index (fst (alpha_schedules 100 default_a_cumulative_start
                     default_a_cumulative_end)) 99 = Ok (Fin qa) /\
    py_index (fst (gamma_schedules 100 default_c_cumulative_start
                     default_c_cumulative_end)) 99 = Ok (Fin qc) /\
    this qa = 99 # 111208 /\
    this qc = 111109 # 111219.
Proof.
  eexists. eexists.
  split; [vm_compute; reflexivity|].
  split; [vm_compute; reflexivity|].
  split; vm_compute; reflexivity.
Qed.

(** The last timestep of the default schedule with three classes and a
    hundred steps, in linear space. *)
Lemma default_3_100_last :
  exists s qa qb qc,
    default_scheduler 3 100 = Ok s /\
    py_index (log_at s) 99 = Ok (torch_log (Fin qa)) /\
    py_index (log_bt s) 99 = Ok (torch_log (Fin qb)) /\
    py_index (log_ct s) 99 = Ok (torch_log (Fin qc)) /\
    this qa = 99 # 111208 /\
    this qb = 1222199 # 24736885104 /\
    this qc = 111109 # 111219.
Proof.
  unfold default_scheduler, VQDiffusionScheduler__init__.
  destruct (alpha_schedules 100 default_a_cumulative_start
              default_a_cumulative_end) as [at_ att] eqn:Ealpha.
  destruct (gamma_schedules 100 default_c_cumulative_start
              default_c_cumulative_end) as [ct ctt] eqn:Egamma.
  assert (Eat : at_ = fst (alpha_schedules 100 default_a_cumulative_start
                             default_a_cumulative_end))
    by now rewrite Ealpha.
  assert (Ect : ct = fst (gamma_schedules 100 default_c_cumulative_start
                            default_c_cumulative_end))
    by now rewrite Egamma.
  assert (Ha : exists qa, nth_error at_ 99 = Some (Fin qa)
                          /\ this qa = 99 # 111208).
  { rewrite Eat. eexists. split; vm_compute; reflexivity. }
  assert (Hc : exists qc, nth_error ct 99 = Some (Fin qc)
                          /\ this qc = 111109 # 111219).
  { rewrite Ect. eexists. split; vm_compute; reflexivity. }
  assert (Hb : exists qb, nth_error (beta_schedule (3 - 1) at_ ct) 99
                          = Some (Fin qb)
                          /\ this qb = 1222199 # 24736885104).
  { rewrite Eat, Ect. eexists. split; vm_compute; reflexivity. }
  destruct Ha as (qa & Ha & Hqa), Hb as (qb & Hb & Hqb),
    Hc as (qc & Hc & Hqc).
  eexists. exists qa, qb, qc.
  split; [reflexivity|]. cbn [log_at log_bt log_ct].
  repeat split; try assumption;
    (apply py_index_nth; [lia|]; rewrite nth_error_map;
     change (Z.to_nat 99) with 99%nat).
  - now rewrite Ha.
  - now rewrite Hb.
  - now rewrite Hc.
Qed.

(** C1, counterexample.  With three classes and the default hundred steps,
    at the last timestep the sum [exp(alpha) + (num_embed - 2) * exp(beta)
    + exp(gamma)] misses one by more than [1e-5]. *)
Lemma beta_not_divided_by_num_embed_minus_2 :
  exists s la lb lc ea eb ec,
    default_scheduler 3 100 = Ok s /\
    py_index (log_at s) 99 = Ok la /\
    py_index (log_bt s) 99 = Ok lb /\
    py_index (log_ct s) 99 = Ok lc /\
    torch_exp la = TFin ea /\ torch_exp lb = TFin eb /\
    torch_exp lc = TFin ec /\
    (Rabs (ea + IZR (3 - 2) * eb + ec - 1) > 1 / 100000)%R.
Proof.
  destruct default_3_100_last
    as (s & qa & qb & qc & Hs & Ha & Hb & Hc & Hqa & Hqb & Hqc).
  exists s, (torch_log (Fin qa)), (torch_log (Fin qb)),
    (torch_log (Fin qc)), (Q2R qa), (Q2R qb), (Q2R qc).
  repeat split; try assumption.
  - apply torch_exp_log_pos. now rewrite Hqa.
  - apply torch_exp_log_pos. now rewrite Hqb.
  - apply torch_exp_log_pos. now rewrite Hqc.
  - unfold Q2R. rewrite Hqa, Hqb, Hqc. cbn [Qnum Qden].
    change (IZR (3 - 2)) with 1%R.
    unfold Rabs. destruct (Rcase_abs _) as [Hn|Hn]; [lra|].
    exfalso. clear - Hn. lra.
Qed.

Lemma beta_divides_by_num_non_mask_classes_witness :
  exists s qa qb qc,
    default_scheduler 3 100 = Ok s /\
    py_index (log_bt s) 99 = Ok (torch_log (Fin qb)) /\
    this qa = 99 # 111208 /\
    this qc = 111109 # 111219 /\
    qb = ((1 - qa - qc) / Q2Qc (inject_Z (3 - 1)))%Qc /\
    (qa + Q2Qc (inject_Z (3 - 1)) * qb + qc)%Qc = 1%Qc.
Proof.
  destruct (default_scheduler_built 3 100) as (s & Hs).
  destruct (beta_divides_by_num_non_mask_classes 3 100
              default_a_cumulative_start default_a_cumulative_end
              default_c_cumulative_start default_c_cumulative_end s 99 Hs)
    as (_ & _ & _ & _ & Hstep & _).
  destruct default_linear_last as (qa & qc & Ha & Hc & Hqa & Hqc).
  destruct (Hstep _ _ Ha Hc) as [Hb Hlin].
  destruct (Hlin qa qc eq_refl eq_refl ltac:(lia))
    as (qb & Hdiv & Hqb & Hsum).
  exists s, qa, qb, qc. rewrite Hdiv in Hb.
  repeat split; assumption.
Defined.


(** ** The default schedule *)

Lemma Qc_div_pos (x k : Qc) : (0 < x)%Qc -> (0 < k)%Qc -> (0 < x / k)%Qc.
Proof.
  unfold Qclt. intros Hx Hk.
  change (this (x / k)%Qc) with (Qred (this x * Qred (/ this k))).
  rewrite Qred_correct, Qred_correct.
  apply Qmult_lt_0_compat; [exact Hx|]. now apply Qinv_lt_0_compat.
Qed.

Lemma of_Z_pos (z : Z) : (0 < z)%Z -> (0 < Q2Qc (inject_Z z))%Qc.
Proof.
  intros Hz. apply Qcgt_alt.
  change ((Q2Qc (inject_Z z) ?= 0)%Qc) with (sgn (Q2Qc (inject_Z z))).
  rewrite sgn_of_Z. now apply Z.compare_gt_iff.
Qed.

(** Every timestep of the default schedule of a hundred steps has positive
    alpha, gamma and [1 - alpha - gamma], per step and cumulatively. *)
Lemma default_tables_positive :
  forallb positive_mixture
    (combine (fst (alpha_schedules 100 default_a_cumulative_start
                     default_a_cumulative_end))
             (fst (gamma_schedules 100 default_c_cumulative_start
                     default_c_cumulative_end))) = true /\
  forallb positive_mixture
    (firstn 100
       (combine (snd (alpha_schedules 100 default_a_cumulative_start
                        default_a_cumulative_end))
                (snd (gamma_schedules 100 default_c_cumulative_start
                        default_c_cumulative_end)))) = true.
Proof. split; vm_compute; reflexivity. Qed.

Lemma positive_mixture_sum (k : Z) (a c : npfloat) :
  (0 < k)%Z -> positive_mixture (a, c) = true ->
  exists ea eb ec : R,
    torch_exp (torch_log a) = TFin ea /\
    torch_exp (torch_log (div (sub (sub (Fin 1%Qc) a) c) (of_Z k)))
    = TFin eb /\
    torch_exp (torch_log c) = TFin ec /\
    (0 < ea)%R /\ (0 < eb)%R /\ (0 < ec)%R /\
    (ea + eb * IZR k + ec = 1)%R.
Proof.
  intros Hk Hpos. unfold positive_mixture in Hpos.
  destruct a as [qa| | |]; try discriminate.
  destruct c as [qc| | |]; try discriminate.
  destruct (sgn qa) eqn:Ha; try discriminate.
  destruct (sgn qc) eqn:Hc; try discriminate.
  destruct (sgn (1 - qa - qc)%Qc) eqn:Hb; try discriminate.
  apply Qcgt_alt in Ha, Hc, Hb.
  pose proof (of_Z_pos k Hk) as Hkq.
  assert (Hknz : Q2Qc (inject_Z k) <> 0%Qc).
  { apply of_Z_nonzero. lia. }
  assert (Hdiv : div (sub (sub (Fin 1%Qc) (Fin qa)) (Fin qc)) (of_Z k)
                 = Fin ((1 - qa - qc) / Q2Qc (inject_Z k))%Qc).
  { unfold of_Z. simpl sub. now rewrite div_Fin. }
  pose proof (Qc_div_pos _ _ Hb Hkq) as Hbq.
  exists (Q2R qa), (Q2R ((1 - qa - qc) / Q2Qc (inject_Z k))%Qc), (Q2R qc).
  assert (Ea := torch_exp_log_pos qa Ha).
  assert (Ec := torch_exp_log_pos qc Hc).
  assert (Eb := torch_exp_log_pos _ Hbq).
  rewrite Hdiv. repeat split; try assumption.
  - rewrite <- RMicromega.Q2R_0. now apply Qlt_Rlt.
  - rewrite <- RMicromega.Q2R_0. now apply Qlt_Rlt.
  - rewrite <- RMicromega.Q2R_0. now apply Qlt_Rlt.
  - eapply mixture_sum; [exact Ea | rewrite Hdiv; exact Eb | exact Ec].
Qed.

Lemma nth_error_combine {A B : Type} (xs : list A) (ys : list B) n x y :
  nth_error xs n = Some x -> nth_error ys n = Some y ->
  nth_error (combine xs ys) n = Some (x, y).
Proof.
  revert ys n. induction xs as [|x0 xs IH]; intros [|y0 ys] [|n]; simpl;
    try discriminate.
  - now intros [= ->] [= ->].
  - apply IH.
Qed.

(** With the default boundary values, a hundred steps and at least two
    classes, the mixture identity holds at every timestep with three
    positive terms, for the per-step and for the cumulative tables. *)
Lemma default_schedule_is_a_mixture (num_embed t : Z) :
  (2 <= num_embed)%Z -> (0 <= t < 100)%Z ->
  exists s,
    default_scheduler num_embed 100 = Ok s /\
    (exists la lb lc ea eb ec,
       py_index (log_at s) t = Ok la /\ py_index (log_bt s) t = Ok lb /\
       py_index (log_ct s) t = Ok lc /\
       torch_exp la = TFin ea /\ torch_exp lb = TFin eb /\
       torch_exp lc = TFin ec /\
       (0 < ea)%R /\ (0 < eb)%R /\ (0 < ec)%R /\
       (ea + eb * IZR (num_embed - 1) + ec = 1)%R) /\
    (exists la lb lc ea eb ec,
       py_index (log_cumprod_at s) t = Ok la /\
       py_index (log_cumprod_bt s) t = Ok lb /\
       py_index (log_cumprod_ct s) t = Ok lc /\
       torch_exp la = TFin ea /\ torch_exp lb = TFin eb /\
       torch_exp lc = TFin ec /\
       (0 < ea)%R /\ (0 < eb)%R /\ (0 < ec)%R /\
       (ea + eb * IZR (num_embed - 1) + ec = 1)%R).
Proof.
  intros HN Ht.
  pose proof default_tables_positive as [Hstep Hcum].
  pose proof (alpha_schedules_length 100 default_a_cumulative_start
                default_a_cumulative_end) as [La La'].
  pose proof (gamma_schedules_length 100 default_c_cumulative_start
                default_c_cumulative_end) as [Lc Lc'].
  unfold default_scheduler, VQDiffusionScheduler__init__.
  destruct (alpha_schedules 100 _ _) as [at_ att].
  destruct (gamma_schedules 100 _ _) as [ct ctt].
  cbn [fst snd] in *.
  eexists. split; [reflexivity|].
  cbn [log_at log_bt log_ct log_cumprod_at log_cumprod_bt log_cumprod_ct].
  assert (Hn : (Z.to_nat t < 100)%nat) by lia.
  change (Z.to_nat 100) with 100%nat in *.
  assert (Hentry : forall xs ys : list npfloat,
             (Z.to_nat t < length xs)%nat -> length xs = length ys ->
             forall l, nth_error l (Z.to_nat t)
                       = nth_error (combine xs ys) (Z.to_nat t) ->
             forallb positive_mixture l = true ->
             exists la lb lc ea eb ec,
               py_index (map torch_log xs) t = Ok la /\
               py_index (map torch_log
                           (beta_schedule (num_embed - 1) xs ys)) t = Ok lb /\
               py_index (map torch_log ys) t = Ok lc /\
               torch_exp la = TFin ea /\ torch_exp lb = TFin eb /\
               torch_exp lc = TFin ec /\
               (0 < ea)%R /\ (0 < eb)%R /\ (0 < ec)%R /\
               (ea + eb * IZR (num_embed - 1) + ec = 1)%R).
  { intros xs ys Hlt Hlen l Hl Hall.
    destruct (nth_error xs (Z.to_nat t)) as [a|] eqn:Ea;
      [|apply nth_error_None in Ea; lia].
    destruct (nth_error ys (Z.to_nat t)) as [c|] eqn:Ec;
      [|apply nth_error_None in Ec; lia].
    rewrite (nth_error_combine xs ys _ a c Ea Ec) in Hl.
    rewrite forallb_forall in Hall.
    pose proof (Hall _ (nth_error_In _ _ Hl)) as Hpos.
    destruct (positive_mixture_sum (num_embed - 1) a c ltac:(lia) Hpos)
      as (ea & eb & ec & Hea & Heb & Hec & Pa & Pb & Pc & Hsum).
    assert (Ia : py_index xs t = Ok a) by (apply py_index_nth; [lia|auto]).
    assert (Ic : py_index ys t = Ok c) by (apply py_index_nth; [lia|auto]).
    exists (torch_log a),
      (torch_log (div (sub (sub (Fin 1%Qc) a) c) (of_Z (num_embed - 1)))),
      (torch_log c), ea, eb, ec.
    repeat split; try assumption.
    - now apply py_index_map.
    - apply py_index_map. unfold beta_schedule.
      exact (py_index_map2
               (fun a c => div (sub (sub (Fin 1%Qc) a) c)
                               (of_Z (num_embed - 1)))
               xs ys t a c Hlen Ia Ic).
    - now apply py_index_map. }
  split.
  - apply (Hentry at_ ct ltac:(lia) ltac:(lia) _ eq_refl Hstep).
  - apply (Hentry att ctt ltac:(lia) ltac:(lia)
             (firstn 100 (combine att ctt))); [|exact Hcum].
    now rewrite nth_error_firstn, (proj2 (Nat.ltb_lt _ _) Hn).
Qed.

(** ** Construction never fails *)

Lemma div_by_zero_not_Fin x : forall q, div x (of_Z 0) <> Fin q.
Proof.
  intros q. unfold of_Z.
  pose proof (sgn_of_Z 0) as Hz. change (0 ?= 0)%Z with Eq in Hz.
  destruct x as [a| | |]; cbn [div]; rewrite ?Hz.
  - destruct (sgn a); discriminate.
  - discriminate.
  - discriminate.
  - discriminate.
Qed.

Lemma torch_log_not_finite x :
  (forall q, x <> Fin q) -> is_finite (torch_log x) = false.
Proof.
  intros H. destruct x as [q| | |]; simpl; auto. now destruct (H q).
Qed.

Lemma Forall_map2 {A B C : Type} (P : C -> Prop) (f : A -> B -> C) xs ys :
  (forall x y, P (f x y)) -> Forall P (map2 f xs ys).
Proof.
  intros H. revert ys. induction xs as [|x xs IH]; intros [|y ys]; simpl;
    constructor; auto.
Qed.

Lemma beta_schedule_zero_classes at_ ct :
  Forall (fun x => is_finite x = false)
         (map torch_log (beta_schedule 0 at_ ct)).
Proof.
  apply Forall_map. unfold beta_schedule. apply Forall_map2.
  intros x y. apply torch_log_not_finite. apply div_by_zero_not_Fin.
Qed.

(** C3, counterexample.  Construction with [num_embed = 1] and the default
    values returns a scheduler and raises nothing. *)
Lemma num_embed_1_is_not_rejected :
  (exists s, default_scheduler 1 100 = Ok s) /\
  ~ (exists e, default_scheduler 1 100 = Raise e).
Proof.
  split.
  - eexists. reflexivity.
  - intros [e He]. discriminate He.
Qed.

(** C3, amended.  Construction validates nothing: for every [num_embed],
    also below two, it returns a scheduler whose mask class is
    [num_embed - 1]; with [num_embed = 1] the division by
    [num_embed - 1 = 0] leaves no finite entry in the beta tables. *)
Theorem construction_never_raises (n num_train_timesteps : Z)
    (a_cumulative_start a_cumulative_end
     c_cumulative_start c_cumulative_end : Qc) :
  exists s,
    VQDiffusionScheduler__init__ n num_train_timesteps
      a_cumulative_start a_cumulative_end
      c_cumulative_start c_cumulative_end = Ok s /\
    num_embed s = n /\
    mask_class s = (n - 1)%Z /\
    (n = 1%Z ->
     Forall (fun x => is_finite x = false) (log_bt s) /\
     Forall (fun x => is_finite x = false) (log_cumprod_bt s)).
Proof.
  unfold VQDiffusionScheduler__init__.
  destruct (alpha_schedules _ _ _) as [at_ att].
  destruct (gamma_schedules _ _ _) as [ct ctt].
  eexists. split; [reflexivity|]. cbn.
  repeat split; subst; apply beta_schedule_zero_classes.
Qed.

(** ** The end of the cumulative schedules *)





(** The entry after the last timestep is not an end value: it is the
    value read for [t - 1 = -1], one for alpha and zero for gamma. *)
Lemma cumulative_schedules_sentinel (T : Z) (a_s a_e c_s c_e : Qc) :
  py_index (snd (alpha_schedules T a_s a_e)) (-1) = Ok (Fin 1%Qc) /\
  py_index (snd (gamma_schedules T c_s c_e)) (-1) = Ok (Fin 0%Qc).
Proof.
  unfold alpha_schedules, gamma_schedules. cbv zeta. cbn [snd tl].
  split; apply py_index_last.
Qed.

(** ** Shapes of tensors *)

Lemma all2_true {A B : Type} (f : A -> B -> bool) xs ys :
  length xs = length ys ->
  (forall x y, In x xs -> In y ys -> f x y = true) ->
  all2 f xs ys = true.
Proof.
  revert ys. induction xs as [|x xs IH]; intros [|y ys]; simpl;
    try discriminate; auto.
  intros [= Hlen] H. rewrite H by auto. simpl. apply IH; auto.
Qed.

Lemma map2_repeat_l {A B C : Type} (f : A -> B -> C) x ys :
  map2 f (repeat x (length ys)) ys = map (f x) ys.
Proof. induction ys as [|y ys IH]; simpl; congruence. Qed.

Lemma map_constant {A B : Type} (f : A -> B) (y : B) xs :
  Forall (fun x => f x = y) xs -> map f xs = repeat y (length xs).
Proof. induction 1; simpl; congruence. Qed.

Lemma Forall_map2_2 {A B C : Type} (P : A -> Prop) (Q : B -> Prop)
    (R : C -> Prop) (f : A -> B -> C) xs ys :
  (forall x y, P x -> Q y -> R (f x y)) ->
  Forall P xs -> Forall Q ys -> Forall R (map2 f xs ys).
Proof.
  intros H HP. revert ys. induction HP as [|x xs Hx HP IH];
    intros ys HQ; destruct HQ as [|y ys Hy HQ]; simpl; constructor; auto.
Qed.

Lemma removelast_length {A : Type} (xs : list A) :
  length (removelast xs) = pred (length xs).
Proof.
  induction xs as [|x [|y xs] IH]; auto.
  change (S (length (removelast (y :: xs))) = S (length xs)).
  rewrite IH. reflexivity.
Qed.

Lemma Forall_removelast {A : Type} (P : A -> Prop) xs :
  Forall P xs -> Forall P (removelast xs).
Proof.
  induction 1 as [|x [|y xs] Hx HP IH]; simpl; auto.
Qed.

Lemma is_mat_repeat {A : Type} (r : list A) rows :
  is_mat rows (length r) (repeat r rows).
Proof.
  split; [apply repeat_length|].
  apply Forall_forall. intros x Hx. now apply repeat_spec in Hx as ->.
Qed.

Lemma is_mat_removelast {A : Type} rows cols (m : list (list A)) :
  is_mat (S rows) cols m -> is_mat rows cols (removelast m).
Proof.
  intros [Hl Hr]. split.
  - rewrite removelast_length, Hl. reflexivity.
  - now apply Forall_removelast.
Qed.

Lemma is_mat_map {A B : Type} (f : A -> B) rows cols (m : list (list A)) :
  is_mat rows cols m -> is_mat rows cols (map (map f) m).
Proof.
  intros [Hl Hr]. split.
  - now rewrite length_map.
  - apply Forall_map. revert Hr. apply Forall_impl.
    intros r Hlen. now rewrite length_map.
Qed.

Lemma is_mat_app {A : Type} r1 r2 cols (m1 m2 : list (list A)) :
  is_mat r1 cols m1 -> is_mat r2 cols m2 -> is_mat (r1 + r2) cols (m1 ++ m2).
Proof.
  intros [Hl1 Hr1] [Hl2 Hr2]. split.
  - rewrite length_app. lia.
  - apply Forall_app. auto.
Qed.

Lemma is_tensor3_map {A B : Type} (f : list (list A) -> list (list B))
    b c p c' p' (t : list (list (list A))) :
  (forall m, is_mat c p m -> is_mat c' p' (f m)) ->
  is_tensor3 b c p t -> is_tensor3 b c' p' (map f t).
Proof.
  intros Hf [Hl Hm]. split.
  - now rewrite length_map.
  - apply Forall_map. revert Hm. apply Forall_impl. exact Hf.
Qed.

Lemma same_shape3_true {A B : Type} b c p (s : list (list (list A)))
    (t : list (list (list B))) :
  is_tensor3 b c p s -> is_tensor3 b c p t -> same_shape3 s t = true.
Proof.
  intros [Hls Hs] [Hlt Ht]. unfold same_shape3.
  apply all2_true; [congruence|].
  intros m m' Hm Hm'.
  rewrite Forall_forall in Hs, Ht.
  destruct (Hs m Hm) as [Hl Hr], (Ht m' Hm') as [Hl' Hr'].
  apply all2_true; [congruence|].
  intros r r' Hr0 Hr0'.
  rewrite Forall_forall in Hr, Hr'. unfold same_len.
  apply Nat.eqb_eq. rewrite (Hr r Hr0), (Hr' r' Hr0'). reflexivity.
Qed.

Lemma is_tensor3_map2 {A B C : Type}
    (f : list (list A) -> list (list B) -> list (list C))
    b c1 c2 c3 p (s : list (list (list A))) (t : list (list (list B))) :
  (forall m m', is_mat c1 p m -> is_mat c2 p m' -> is_mat c3 p (f m m')) ->
  is_tensor3 b c1 p s -> is_tensor3 b c2 p t ->
  is_tensor3 b c3 p (map2 f s t).
Proof.
  intros Hf [Hls Hs] [Hlt Ht]. split.
  - rewrite map2_length. lia.
  - eapply Forall_map2_2; eauto.
Qed.

(** ** The log one-hot encoding *)

Section LogOneHot.

Context {RT : TensorRuntime}.

Lemma column_length {A : Type} (m : list (list A)) (cols j : nat) :
  Forall (fun r => length r = cols) m -> (j < cols)%nat ->
  length (column m j) = length m.
Proof.
  intros Hm Hj. unfold column. induction Hm as [|r m Hr Hm IH]; simpl; auto.
  destruct (nth_error r j) eqn:E.
  - simpl. now rewrite IH.
  - apply nth_error_None in E. lia.
Qed.

Lemma transpose_shape {A : Type} (rows cols : nat) (m : list (list A)) :
  is_mat rows cols m -> is_mat cols rows (transpose cols m).
Proof.
  intros [Hl Hm]. unfold transpose. split.
  - now rewrite length_map, length_seq.
  - apply Forall_map. apply Forall_forall. intros j Hj.
    apply in_seq in Hj. rewrite (column_length m cols j Hm) by lia.
    exact Hl.
Qed.

(** The log one-hot encoding of a state with classes in
    [0, num_classes) has one channel per class. *)
Lemma index_to_log_onehot_shape (b p : nat) (x : long2) (num_classes : Z) :
  is_mat b p x ->
  Forall (Forall (fun v => (0 <= v < num_classes)%Z)) x ->
  exists log_x,
    index_to_log_onehot x num_classes = Ok log_x /\
    is_tensor3 b (Z.to_nat num_classes) p log_x.
Proof.
  intros [Hb Hp] Hrange. unfold index_to_log_onehot, one_hot.
  replace (forallb _ x) with true.
  - cbn [bind]. eexists. split; [reflexivity|].
    unfold map3, permute_0_2_1. rewrite !map_map. split.
    + now rewrite length_map.
    + apply Forall_map. revert Hp. apply Forall_impl. intros r Hr.
      apply is_mat_map. apply transpose_shape. split.
      * now rewrite length_map.
      * apply Forall_map. apply Forall_forall. intros v _.
        now rewrite length_map, arange_length.
  - symmetry. apply forallb_forall. intros r Hr.
    apply forallb_forall. intros v Hv.
    rewrite Forall_forall in Hrange. specialize (Hrange r Hr).
    rewrite Forall_forall in Hrange. specialize (Hrange v Hv).
    apply andb_true_iff. split; [apply Z.leb_le | apply Z.ltb_lt]; lia.
Qed.

End LogOneHot.

(** ** The transition matrix *)

Section TransitionMatrix.

Context {RT : TensorRuntime}.

Variable self : VQDiffusionScheduler F.

(** The scheduler was built by the constructor, which sets the mask class
    to the last class. *)
Hypothesis mask_is_last : mask_class self = (num_embed self - 1)%Z.
Hypothesis some_class : (1 <= num_embed self)%Z.

Local Abbreviation N := (Z.to_nat (num_embed self)).
Local Abbreviation K := (Z.to_nat (num_embed self - 1)).

Lemma N_is_S_K : N = S K.
Proof. lia. Qed.

Lemma expand_dim1_known {A : Type} (m : list (list A)) :
  expand_dim1 m (num_embed self - 1)
  = Ok (map (fun r => repeat r K) m).
Proof.
  unfold expand_dim1.
  destruct (num_embed self - 1 =? -1)%Z eqn:E1;
    [apply Z.eqb_eq in E1; lia|].
  destruct (num_embed self - 1 <? 0)%Z eqn:E2;
    [apply Z.ltb_lt in E2; lia|].
  reflexivity.
Qed.

Lemma mask_shape b p (x_t : long2) :
  is_mat b p x_t ->
  is_tensor3 b K p
    (map (fun r => repeat r K)
         (map (map (fun v => (v =? mask_class self)%Z)) x_t)).
Proof.
  intros [Hl Hr]. split.
  - now rewrite !length_map.
  - rewrite map_map. apply Forall_map. revert Hr. apply Forall_impl.
    intros r Hlen.
    replace p with (length (map (fun v => (v =? mask_class self)%Z) r))
      by now rewrite length_map.
    apply is_mat_repeat.
Qed.

Lemma body_shape b p (a c : F) (log_onehot_x_t : tensor3) :
  is_tensor3 b N p log_onehot_x_t ->
  is_tensor3 b K p
    (map3 (fun v => logaddexp (fadd v a) c)
          (drop_last_channel log_onehot_x_t)).
Proof.
  intros H. unfold map3, drop_last_channel. rewrite map_map.
  eapply is_tensor3_map; [|exact H].
  intros m Hm. apply is_mat_map. apply is_mat_removelast.
  now rewrite <- N_is_S_K.
Qed.

Lemma masked_assign_shape b c p (t : tensor3)
    (mask : list (list (list bool))) (v : F) :
  is_tensor3 b c p t -> is_tensor3 b c p mask ->
  exists r, masked_assign t mask v = Ok r /\ is_tensor3 b c p r.
Proof.
  intros Ht Hm. unfold masked_assign.
  rewrite (same_shape3_true b c p) by assumption.
  eexists. split; [reflexivity|].
  eapply is_tensor3_map2; [|exact Hm|exact Ht].
  intros m m' [Hl Hr] [Hl' Hr']. split.
  - rewrite map2_length. lia.
  - eapply Forall_map2_2; [|exact Hr|exact Hr'].
    intros r r' H H'. cbv beta in *. rewrite map2_length. lia.
Qed.

Lemma masked_assign_all b c p (t : tensor3) (v : F) :
  is_tensor3 b c p t ->
  masked_assign t (repeat (repeat (repeat true p) c) b) v
  = Ok (repeat (repeat (repeat v p) c) b).
Proof.
  intros Ht. unfold masked_assign.
  assert (Hmask : is_tensor3 b c p (repeat (repeat (repeat true p) c) b)).
  { split; [apply repeat_length|].
    apply Forall_forall. intros m Hm. apply repeat_spec in Hm as ->.
    replace p with (length (repeat true p)) at 1 by apply repeat_length.
    apply is_mat_repeat. }
  rewrite (same_shape3_true b c p) by assumption.
  f_equal. destruct Ht as [Hb Hm].
  rewrite <- Hb at 1. rewrite map2_repeat_l.
  rewrite <- Hb. apply map_constant.
  revert Hm. apply Forall_impl. intros m [Hc Hr].
  rewrite <- Hc at 1. rewrite map2_repeat_l.
  rewrite <- Hc. apply map_constant.
  revert Hr. apply Forall_impl. intros r Hp.
  rewrite <- Hp at 1. rewrite map2_repeat_l.
  rewrite <- Hp. apply map_constant.
  apply Forall_forall. reflexivity.
Qed.

(** C5.  On a state in which every pixel is the masked class
    [num_embed - 1], the cumulative evaluation at a timestep [t] of the
    tables returns the tensor whose every entry, for each of the
    [num_embed - 1] source classes and each pixel, is the cumulative
    log-gamma of [t]. *)
Theorem cumulative_on_all_masked (b p : nat) (t : Z) (x_t : long2)
    (log_onehot_x_t : tensor3) (a_t b_t c_t : F) :
  is_mat b p x_t ->
  Forall (Forall (fun v => v = (num_embed self - 1)%Z)) x_t ->
  is_tensor3 b N p log_onehot_x_t ->
  py_index (log_cumprod_at self) t = Ok a_t ->
  py_index (log_cumprod_bt self) t = Ok b_t ->
  py_index (log_cumprod_ct self) t = Ok c_t ->
  log_Q_t_transitioning_to_known_class self t x_t log_onehot_x_t true
  = Ok (repeat (repeat (repeat c_t p) K) b).
Proof.
  intros Hx Hall Hoh Ha Hb Hc.
  unfold log_Q_t_transitioning_to_known_class.
  rewrite Ha, Hb, Hc. cbn [bind negb].
  rewrite expand_dim1_known. cbn [bind].
  assert (Hmask : map (fun r => repeat r K)
                      (map (map (fun v => (v =? mask_class self)%Z)) x_t)
                  = repeat (repeat (repeat true p) K) b).
  { destruct Hx as [Hl Hr]. rewrite map_map. rewrite <- Hl.
    apply map_constant.
    rewrite Forall_forall in Hr, Hall. apply Forall_forall.
    intros r Hin. f_equal. rewrite <- (Hr r Hin).
    apply map_constant. specialize (Hall r Hin).
    revert Hall. apply Forall_impl. intros v ->.
    rewrite mask_is_last. apply Z.eqb_refl. }
  rewrite Hmask.
  rewrite (masked_assign_all b K p) by now apply body_shape.
  reflexivity.
Qed.

Lemma last_channel_known b c p (t : tensor3) :
  is_tensor3 b (S c) p t ->
  exists saved,
    last_channel t = Ok saved /\ is_tensor3 b 1 p saved.
Proof.
  intros [Hb Hm]. revert b Hb.
  induction Hm as [|m t [Hc Hr] Hm IH]; intros b Hb.
  - exists []. split; [reflexivity|]. split; [exact Hb | constructor].
  - destruct b as [|b]; [discriminate|]. injection Hb as Hb.
    destruct (IH b Hb) as (saved & Hs & [Hsb Hsm]).
    destruct (exists_last (l := m)) as (m0 & r & ->);
      [intros ->; discriminate|].
    exists ([r] :: saved). split.
    + unfold last_channel in *. cbn [mapM]. rewrite py_index_last.
      cbn [bind]. rewrite Hs. reflexivity.
    + split; [simpl; congruence|]. constructor; [|exact Hsm].
      split; [reflexivity|]. constructor; [|constructor].
      rewrite Forall_forall in Hr. apply Hr. apply in_or_app. right.
      now left.
Qed.

Lemma rectangular_true {A : Type} rows cols (m : list (list A)) :
  is_mat (S rows) cols m -> rectangular m = true.
Proof.
  intros [Hl Hr]. unfold rectangular. apply forallb_forall.
  intros r Hin. apply Nat.eqb_eq.
  rewrite Forall_forall in Hr. rewrite (Hr r Hin).
  destruct m as [|r0 m]; [discriminate|]. simpl.
  symmetry. apply Hr. now left.
Qed.

Lemma cat_dim1_known b c p (s t : tensor3) :
  is_tensor3 b c p s -> is_tensor3 b 1 p t ->
  cat_dim1 s t = Ok (map2 (@app _) s t) /\
  is_tensor3 b (c + 1) p (map2 (@app _) s t).
Proof.
  intros Hs Ht.
  assert (Hshape : is_tensor3 b (c + 1) p (map2 (@app _) s t)).
  { eapply is_tensor3_map2; [|exact Hs|exact Ht].
    intros m m'. apply is_mat_app. }
  split; [|exact Hshape].
  unfold cat_dim1, same_len.
  destruct Hs as [Hsb _], Ht as [Htb _].
  replace (length s =? length t)%nat with true
    by (symmetry; apply Nat.eqb_eq; congruence).
  cbn [andb].
  replace (forallb (@rectangular _) (map2 (@app _) s t)) with true;
    [reflexivity|].
  symmetry. apply forallb_forall. intros m Hin.
  destruct Hshape as [_ Hm]. rewrite Forall_forall in Hm.
  apply (rectangular_true c p). replace (S c) with (c + 1)%nat by lia.
  now apply Hm.
Qed.

Lemma returns_on_documented_shapes (b p : nat) (t : Z) (x_t : long2)
    (log_onehot_x_t : tensor3) (cumulative : bool) (a_t b_t c_t : F) :
  is_mat b p x_t ->
  is_tensor3 b N p log_onehot_x_t ->
  py_index (if cumulative then log_cumprod_at self else log_at self) t
  = Ok a_t ->
  py_index (if cumulative then log_cumprod_bt self else log_bt self) t
  = Ok b_t ->
  py_index (if cumulative then log_cumprod_ct self else log_ct self) t
  = Ok c_t ->
  exists log_Q_t,
    log_Q_t_transitioning_to_known_class self t x_t log_onehot_x_t cumulative
    = Ok log_Q_t /\
    is_tensor3 b (if cumulative then K else N) p log_Q_t.
Proof.
  intros Hx Hoh Ha Hb Hc.
  unfold log_Q_t_transitioning_to_known_class.
  rewrite Ha, Hb, Hc. cbn [bind].
  destruct (masked_assign_shape b K p
              (map3 (fun v => logaddexp (fadd v a_t) b_t)
                    (drop_last_channel log_onehot_x_t))
              (map (fun r => repeat r K)
                   (map (map (fun v => (v =? mask_class self)%Z)) x_t))
              c_t)
    as (q & Hq & Hqs);
    [now apply body_shape | now apply mask_shape |].
  destruct cumulative; cbn [negb bind].
  - rewrite expand_dim1_known. cbn [bind]. rewrite Hq. cbn [bind].
    exists q. split; [reflexivity | exact Hqs].
  - rewrite N_is_S_K in Hoh.
    destruct (last_channel_known b K p _ Hoh) as (saved & Hsaved & Hss).
    rewrite Hsaved. cbn [bind].
    rewrite expand_dim1_known. cbn [bind]. rewrite Hq. cbn [bind].
    destruct (cat_dim1_known b K p q saved Hqs Hss) as [Hcat Hcs].
    rewrite Hcat. eexists. split; [reflexivity|].
    rewrite N_is_S_K. replace (S K) with (K + 1)%nat by lia. exact Hcs.
Qed.

Lemma all2_length {A B : Type} (f : A -> B -> bool) xs ys :
  all2 f xs ys = true -> length xs = length ys.
Proof.
  revert ys. induction xs as [|x xs IH]; intros [|y ys]; simpl;
    try discriminate; auto.
  intros H. apply andb_true_iff in H. destruct H as [_ H].
  f_equal. now apply IH.
Qed.

Lemma masked_assign_rows (k : nat) (t : tensor3)
    (mask : list (list (list bool))) (v : F) (r : tensor3) :
  masked_assign t mask v = Ok r ->
  Forall (fun m => length m = k) mask ->
  Forall (fun m => length m = k) r /\ length r = length mask.
Proof.
  unfold masked_assign, same_shape3.
  destruct (all2 _ mask t) eqn:E; [|discriminate].
  intros [= <-]. revert t E.
  induction mask as [|mb mask IH]; intros [|tb t]; simpl; try discriminate.
  - intros _ _. split; [constructor | reflexivity].
  - intros E Hm. apply andb_true_iff in E. destruct E as [Eb E].
    inversion Hm as [|? ? Hk Hm']; subst.
    destruct (IH t E Hm') as [Hr Hl]. split; [|now rewrite Hl].
    constructor; [|exact Hr].
    rewrite map2_length, <- (all2_length _ _ _ Eb). apply Nat.min_id.
Qed.

Lemma last_channel_singletons (t saved : tensor3) :
  last_channel t = Ok saved ->
  Forall (fun s => length s = 1%nat) saved /\ length saved = length t.
Proof.
  unfold last_channel. revert saved.
  induction t as [|m t IH]; intros saved; cbn [mapM].
  - intros [= <-]. split; [constructor | reflexivity].
  - destruct (py_index m (-1)) as [r|e]; cbn [bind]; [|discriminate].
    destruct (mapM _ t) as [ss|e]; cbn [bind]; [|discriminate].
    intros [= <-]. destruct (IH ss eq_refl) as [Hs Hl].
    split; [constructor; auto | simpl; congruence].
Qed.

Lemma last_channel_of_cat (q saved : tensor3) :
  length q = length saved ->
  Forall (fun s => length s = 1%nat) saved ->
  last_channel (map2 (@app _) q saved) = Ok saved.
Proof.
  intros Hl Hs. revert q Hl.
  induction Hs as [|s saved Hone Hs IH]; intros [|m q] Hl; try discriminate;
    [reflexivity|].
  destruct s as [|r [|r' s]]; try discriminate.
  unfold last_channel in *. cbn [map2 mapM].
  rewrite py_index_last. cbn [bind].
  rewrite IH by (simpl in Hl; congruence). reflexivity.
Qed.

Lemma rows_of_cat (k : nat) (q saved : tensor3) :
  Forall (fun m => length m = k) q ->
  Forall (fun s => length s = 1%nat) saved ->
  Forall (fun m => length m = S k) (map2 (@app _) q saved).
Proof.
  intros Hq Hs. eapply Forall_map2_2; [|exact Hq|exact Hs].
  intros m s Hm Hone. cbv beta in *. rewrite length_app. lia.
Qed.

(** C6.  Whatever the input, a result of the evaluation has, for each
    batch entry, [num_embed - 1] rows when it is cumulative and
    [num_embed] rows when it is not, and in the latter case its last row
    is the last channel of [log_onehot_x_t], unchanged.  On inputs of the
    documented shapes, at a timestep of the tables, the evaluation does
    return such a result. *)
Theorem rows_of_transition_matrix (t : Z) (x_t : long2)
    (log_onehot_x_t : tensor3) (cumulative : bool) :
  (forall log_Q_t,
     log_Q_t_transitioning_to_known_class self t x_t log_onehot_x_t cumulative
     = Ok log_Q_t ->
     Forall (fun m => length m = if cumulative then K else N) log_Q_t /\
     (cumulative = false ->
      last_channel log_Q_t = last_channel log_onehot_x_t)) /\
  (forall (b p : nat) (a_t b_t c_t : F),
     is_mat b p x_t ->
     is_tensor3 b N p log_onehot_x_t ->
     py_index (if cumulative then log_cumprod_at self else log_at self) t
     = Ok a_t ->
     py_index (if cumulative then log_cumprod_bt self else log_bt self) t
     = Ok b_t ->
     py_index (if cumulative then log_cumprod_ct self else log_ct self) t
     = Ok c_t ->
     exists log_Q_t,
       log_Q_t_transitioning_to_known_class self t x_t log_onehot_x_t
         cumulative = Ok log_Q_t /\
       is_tensor3 b (if cumulative then K else N) p log_Q_t).
Proof.
  split; [|intros; eapply returns_on_documented_shapes; eassumption].
  intros r. unfold log_Q_t_transitioning_to_known_class.
  destruct (py_index _ t) as [a_t|e]; cbn [bind]; [|discriminate].
  destruct (py_index _ t) as [b_t|e]; cbn [bind]; [|discriminate].
  destruct (py_index _ t) as [c_t|e]; cbn [bind]; [|discriminate].
  rewrite expand_dim1_known.
  assert (Hmask : Forall (fun m : list (list bool) => length m = K)
                    (map (fun r => repeat r K)
                         (map (map (fun v => (v =? mask_class self)%Z))
                              x_t))).
  { apply Forall_map. apply Forall_forall. intros m _. apply repeat_length. }
  destruct cumulative; cbn [negb bind].
  - destruct (masked_assign _ _ c_t) as [q|e] eqn:Hq; cbn [bind];
      [|discriminate].
    intros [= <-]. split; [|discriminate].
    now destruct (masked_assign_rows K _ _ _ _ Hq Hmask).
  - destruct (last_channel log_onehot_x_t) as [saved|e] eqn:Hsaved;
      cbn [bind]; [|discriminate].
    destruct (masked_assign _ _ c_t) as [q|e] eqn:Hq; cbn [bind];
      [|discriminate].
    unfold cat_dim1. destruct (same_len q saved) eqn:Hlen; cbn [andb];
      [|discriminate].
    destruct (forallb _ _); [|discriminate].
    intros [= <-].
    destruct (masked_assign_rows K _ _ _ _ Hq Hmask) as [Hrows _].
    destruct (last_channel_singletons _ _ Hsaved) as [Hone _].
    apply Nat.eqb_eq in Hlen. split.
    + rewrite N_is_S_K. now apply rows_of_cat.
    + intros _. now apply last_channel_of_cat.
Qed.

End TransitionMatrix.

(** ** The sampler step *)

Section Step.

Context {RT : TensorRuntime}.

Variable self : VQDiffusionScheduler F.

(** C4.  At [t = 0] the posterior is [log_p_x_0] itself, whatever [x_t]
    is, and [step] applies the Gumbel noise and the arg-max to
    [log_p_x_0] directly. *)
Theorem step_at_origin (log_p_x_0 : tensor3) (x_t : long2)
    (generator : option Generator) (return_dict : bool) (world : Rng) :
  step_posterior self log_p_x_0 0 x_t = Ok log_p_x_0 /\
  step self log_p_x_0 0 x_t generator return_dict world
  = (let '(noised, generator', world') :=
       gumbel_noised log_p_x_0 generator world in
     x_t_min_1 <- argmax_dim1 noised ;;
     Ok (step_output return_dict x_t_min_1, generator', world')).
Proof.
  split; [reflexivity|].
  unfold step, step_posterior. cbn [Z.eqb bind].
  destruct (gumbel_noised log_p_x_0 generator world) as [[noised g'] w'].
  destruct (argmax_dim1 noised) as [x|e]; cbn [bind]; [|reflexivity].
  unfold step_output. now destruct return_dict.
Qed.

Lemma gumbel_noised_with_generator (logits : tensor3) (g : Generator) :
  exists noised g',
    forall w, gumbel_noised logits (Some g) w = (noised, Some g', w).
Proof.
  unfold gumbel_noised, torch_rand_with.
  destruct (torch_rand logits g) as [u g'].
  eexists. eexists. intros w. reflexivity.
Qed.

(** C7, amended.  When a generator is passed, the output of [step] and
    the generator's new state are a function of the scheduler, of
    [log_p_x_0], [t], [x_t] and of the generator's state alone: the state
    of the default generator has no influence and is left as it was. *)
Theorem step_with_generator_is_deterministic (log_p_x_0 : tensor3) (t : Z)
    (x_t : long2) (g : Generator) (return_dict : bool) (w1 w2 : Rng) :
  observed (step self log_p_x_0 t x_t (Some g) return_dict w1)
  = observed (step self log_p_x_0 t x_t (Some g) return_dict w2) /\
  default_after w1 (step self log_p_x_0 t x_t (Some g) return_dict w1) = w1.
Proof.
  unfold step.
  destruct (step_posterior self log_p_x_0 t x_t) as [lp|e]; cbn [bind];
    [|split; reflexivity].
  destruct (gumbel_noised_with_generator lp g) as (noised & g' & Hn).
  rewrite !Hn.
  destruct (argmax_dim1 noised) as [x|e]; cbn [bind]; [|split; reflexivity].
  destruct return_dict; cbn [negb]; split; reflexivity.
Qed.

End Step.

(** ** The step on the exact runtime *)

Module ExactFacts.

Import Exact.

Lemma eps_pos : (0 < eps)%R.
Proof. unfold eps. lra. Qed.

Lemma tlog_pos (r : R) : (0 < r)%R -> tlog (TFin r) = TFin (ln r).
Proof.
  intros Hr. unfold tlog. destruct (Rlt_dec 0 r); [reflexivity | contradiction].
Qed.

Lemma ln_nonpos (x : R) : (0 < x <= 1)%R -> (ln x <= 0)%R.
Proof.
  intros [H0 [H1 | ->]]; [|rewrite ln_1; lra].
  apply Rlt_le. rewrite <- ln_1. now apply ln_increasing.
Qed.

Lemma gumbel_noise_value (u : R) :
  (0 <= u)%R -> (u + eps <= 1)%R ->
  tneg (tlog (tadd (tneg (tlog (tadd (TFin u) (TFin eps)))) (TFin eps)))
  = TFin (gumbel u).
Proof.
  intros H0 H1. pose proof eps_pos as He.
  cbn [tadd]. rewrite tlog_pos by lra. cbn [tneg tadd].
  rewrite tlog_pos; [reflexivity|].
  pose proof (ln_nonpos (u + eps)) as Hl. lra.
Qed.

Lemma gumbel_increasing (u v : R) :
  (0 <= u)%R -> (u < v)%R -> (v + eps <= 1)%R -> (gumbel u < gumbel v)%R.
Proof.
  intros H0 Huv H1. pose proof eps_pos as He. unfold gumbel.
  assert (Hln : (ln (u + eps) < ln (v + eps))%R)
    by (apply ln_increasing; lra).
  pose proof (ln_nonpos (v + eps)) as Hv.
  apply Ropp_lt_contravar. apply ln_increasing; lra.
Qed.

(** One step at [t = 0] over two classes and one pixel with equal
    log-probabilities and no generator: the sample is the class whose
    draw from the default generator is the larger one. *)
Lemma step_two_classes (self : VQDiffusionScheduler tfloat) (x_t : long2)
    (d : Z) :
  let s0 := lcg_next d in
  let s1 := lcg_next s0 in
  let u0 := (IZR s0 / IZR lcg_modulus)%R in
  let u1 := (IZR s1 / IZR lcg_modulus)%R in
  (0 <= u0)%R -> (u0 + eps <= 1)%R -> (0 <= u1)%R -> (u1 + eps <= 1)%R ->
  step (RT := RealRuntime) self [[[TFin 0]; [TFin 0]]] 0 x_t None true
       {| default_generator := d |}
  = Ok (VQDiffusionSchedulerOutput
          [[if Rlt_dec (gumbel u0 + 0) (gumbel u1 + 0) then 1%Z else 0%Z]],
        None, {| default_generator := s1 |}).
Proof.
  intros s0 s1 u0 u1 H0 H0' H1 H1'.
  unfold step, step_posterior. cbn [Z.eqb bind].
  unfold gumbel_noised, torch_rand_with.
  cbn [torch_rand rand_mat rand_row default_generator rand RealRuntime
       lcg_rand].
  fold s0. fold s1. fold u0. fold u1.
  cbn [map3 map map2 fneg flog fadd f1em30 RealRuntime].
  rewrite !gumbel_noise_value by assumption.
  cbn [tadd argmax_dim1 mapM width length transpose seq map column flat_map
       nth_error app argmax_column argmax_from bind fgtb RealRuntime tgtb
       negb].
  destruct (Rlt_dec (gumbel u0 + 0) (gumbel u1 + 0)); reflexivity.
Qed.

Lemma lcg_from_0 :
  lcg_next 0 = 12345%Z /\ lcg_next 12345 = 1406932606%Z.
Proof. split; reflexivity. Qed.

Lemma lcg_from_1 :
  lcg_next 1 = 1103527590%Z /\ lcg_next 1103527590 = 377401575%Z.
Proof. split; reflexivity. Qed.

End ExactFacts.

(** C7, counterexample.  Without a generator ([generator = None]) the
    sample depends on the state of the default generator: with two classes
    of equal log-probability at [t = 0], the default generator in state 0
    yields class 1 and in state 1 yields class 0, all explicit inputs
    being equal. *)
Lemma step_without_generator_reads_default_generator :
  exists (self : VQDiffusionScheduler tfloat) (r1 r2 : StepOutput),
    default_scheduler 3 100 = Ok self /\
    observed (step (RT := Exact.RealRuntime) self [[[TFin 0]; [TFin 0]]] 0
                   [[2%Z]] None true (@Build_Rng Exact.RealRuntime 0%Z))
    = Ok (r1, None) /\
    observed (step (RT := Exact.RealRuntime) self [[[TFin 0]; [TFin 0]]] 0
                   [[2%Z]] None true (@Build_Rng Exact.RealRuntime 1%Z))
    = Ok (r2, None) /\
    r1 <> r2.
Proof.
  destruct (default_scheduler_built 3 100) as (self & Hself).
  exists self, (VQDiffusionSchedulerOutput [[1%Z]]),
    (VQDiffusionSchedulerOutput [[0%Z]]).
  split; [exact Hself|].
  pose proof ExactFacts.lcg_from_0 as [E0 E0'].
  pose proof ExactFacts.lcg_from_1 as [E1 E1'].
  pose proof (ExactFacts.step_two_classes self [[2%Z]] 0) as H0.
  pose proof (ExactFacts.step_two_classes self [[2%Z]] 1) as H1.
  cbv zeta in H0, H1.
  rewrite E0, E0' in H0. rewrite E1, E1' in H1.
  unfold Exact.lcg_modulus, Exact.eps in H0, H1.
  rewrite H0 by lra. rewrite H1 by lra.
  cbn [observed bind].
  assert (Hlt : (Exact.gumbel (12345 / 2147483648)
                 < Exact.gumbel (1406932606 / 2147483648))%R).
  { apply ExactFacts.gumbel_increasing; unfold Exact.eps; lra. }
  assert (Hgt : (Exact.gumbel (377401575 / 2147483648)
                 < Exact.gumbel (1103527590 / 2147483648))%R).
  { apply ExactFacts.gumbel_increasing; unfold Exact.eps; lra. }
  destruct (Rlt_dec _ _) as [_|Hn]; [|exfalso; apply Hn; lra].
  destruct (Rlt_dec _ _) as [Hp|_]; [exfalso; lra|].
  repeat split. discriminate.
Qed.

(** ** The transition matrix on a built scheduler *)

Lemma cumulative_on_all_masked_witness :
  exists (self : VQDiffusionScheduler tfloat) (c_t : tfloat)
         (log_onehot_x_t : tensor3),
    default_scheduler 3 2 = Ok self /\
    py_index (log_cumprod_ct self) 1 = Ok c_t /\
    index_to_log_onehot (RT := Exact.RealRuntime) [[2; 2]]%Z 3
    = Ok log_onehot_x_t /\
    log_Q_t_transitioning_to_known_class (RT := Exact.RealRuntime) self 1
      [[2; 2]]%Z log_onehot_x_t true
    = Ok [[[c_t; c_t]; [c_t; c_t]]].
Proof.
  destruct (index_to_log_onehot_shape (RT := Exact.RealRuntime) 1 2
              [[2; 2]]%Z 3)
    as (log_onehot_x_t & Hoh & Hshape).
  { split; [reflexivity | repeat constructor]. }
  { repeat constructor; lia. }
  eexists. eexists. exists log_onehot_x_t.
  split; [reflexivity|]. split; [reflexivity|]. split; [exact Hoh|].
  refine (cumulative_on_all_masked (RT := Exact.RealRuntime) _ _ _
            1 2 1 [[2; 2]]%Z log_onehot_x_t _ _ _ _ _ _ _ _ _).
  - reflexivity.
  - cbn. lia.
  - split; [reflexivity | repeat constructor].
  - repeat constructor.
  - exact Hshape.
  - reflexivity.
  - reflexivity.
  - reflexivity.
Defined.

Lemma rows_of_transition_matrix_witness :
  exists self : VQDiffusionScheduler tfloat,
    default_scheduler 3 2 = Ok self /\
    exists log_Q_t : tensor3,
      log_Q_t_transitioning_to_known_class (RT := Exact.RealRuntime) self 1
        [[0; 2]]%Z
        [[[TFin 0; TFin 1]; [TFin 2; TFin 3]; [TFin 4; TFin 5]]] false
      = Ok log_Q_t /\
      is_tensor3 1 3 2 log_Q_t /\
      last_channel (RT := Exact.RealRuntime) log_Q_t
      = Ok [[[TFin 4; TFin 5]]].
Proof.
  eexists. split; [reflexivity|].
  match goal with
  | |- exists q, log_Q_t_transitioning_to_known_class ?s _ _ _ _ = _ /\ _ =>
      destruct (rows_of_transition_matrix (RT := Exact.RealRuntime)
                  s ltac:(cbn; lia) 1 [[0; 2]]%Z
                  [[[TFin 0; TFin 1]; [TFin 2; TFin 3]; [TFin 4; TFin 5]]]
                  false)
        as [Hany Hshaped]
  end.
  destruct (Hshaped 1%nat 2%nat _ _ _
              ltac:(split; [reflexivity | repeat constructor])
              ltac:(split; [reflexivity | repeat constructor])
              eq_refl eq_refl eq_refl)
    as (log_Q_t & Hq & Hshape).
  exists log_Q_t. split; [exact Hq|]. split; [exact Hshape|].
  destruct (Hany log_Q_t Hq) as [_ Hlast].
  rewrite (Hlast eq_refl). reflexivity.
Defined.

(** ** Classifier-free guidance in the Wuerstchen prior pipeline *)

Module WuerstchenFacts.

Import Wuerstchen.

Lemma lerp_scalar_one (s e : Qc) : lerp_scalar s e 1 = e.
Proof. unfold lerp_scalar. ring. Qed.

Lemma map2_lerp_one (start end_ : tensor) :
  same_shape2 start end_ = true ->
  map2 (map2 (fun s e => lerp_scalar s e 1)) start end_ = end_.
Proof.
  unfold same_shape2. revert end_.
  induction start as [|r start IH]; intros [|r' end_]; simpl;
    try discriminate; auto.
  intros H. apply andb_true_iff in H. destruct H as [Hr H].
  rewrite IH by exact H. f_equal.
  apply Nat.eqb_eq in Hr. clear - Hr. revert r' Hr.
  induction r as [|x r IHr]; intros [|y r']; simpl; try discriminate; auto.
  intros [= Hr]. rewrite lerp_scalar_one. f_equal. now apply IHr.
Qed.

Lemma do_classifier_free_guidance_spec (guidance_scale : Qc) :
  do_classifier_free_guidance guidance_scale = true <-> (1 < guidance_scale)%Qc.
Proof.
  unfold do_classifier_free_guidance.
  pose proof (Qcgt_alt guidance_scale 1) as H. cbv beta in H.
  destruct (guidance_scale ?= 1)%Qc; split; intros H'; try discriminate;
    try reflexivity; try (apply H in H'; discriminate).
  apply H. reflexivity.
Qed.

Section Guidance.

Variable Embeds : Type.
Variable Generator : Type.
Variable prior : tensor -> list Qc -> Embeds -> tensor.
Variable c_in : Z.
Variable _encode_prompt :
  list (list nat) -> Z -> bool -> option Prompt -> result Embeds.
Variable scheduler_timesteps : list (Qc * Z) -> list Qc.
Variable scheduler_step :
  tensor -> list Qc -> tensor -> option Generator -> tensor * option Generator.
Variable randn_tensor :
  Z -> Z -> option Generator -> tensor * option Generator.

(** C8.  When guidance is applied, the prediction handed to the scheduler
    is [uncond + guidance_scale * (cond - uncond)], where [cond] is the
    first half of the network's output on the doubled batch and [uncond]
    the second half; and an interpolation with weight one returns its
    conditional operand. *)
Theorem guidance_is_lerp (guidance_scale : Qc)
    (text_encoder_hidden_states : Embeds) (latents : tensor)
    (ratio : list Qc) (cond uncond : tensor) :
  do_classifier_free_guidance guidance_scale = true ->
  chunk2 (prior (cat2 latents) (cat2 ratio) text_encoder_hidden_states)
  = Ok (cond, uncond) ->
  same_shape2 uncond cond = true ->
  predict prior guidance_scale text_encoder_hidden_states latents ratio
  = Ok (map2 (map2 (fun u c => (u + guidance_scale * (c - u))%Qc))
             uncond cond) /\
  lerp uncond cond 1 = Ok cond.
Proof.
  intros Hcfg Hchunk Hshape. split.
  - unfold predict. rewrite Hcfg, Hchunk. cbn [bind].
    unfold lerp. rewrite Hshape. reflexivity.
  - unfold lerp. rewrite Hshape.
    rewrite map2_lerp_one by exact Hshape. reflexivity.
Qed.

Lemma guidance_off (guidance_scale : Qc) :
  (guidance_scale <= 1)%Qc ->
  do_classifier_free_guidance guidance_scale = false.
Proof.
  intros Hle.
  destruct (do_classifier_free_guidance guidance_scale) eqn:E; auto.
  apply do_classifier_free_guidance_spec in E.
  exfalso. eapply Qclt_not_le; eauto.
Qed.

Lemma unguided_predict (guidance_scale : Qc) (hidden : Embeds)
    (latents : tensor) (ratio : list Qc) :
  (guidance_scale <= 1)%Qc ->
  predict prior guidance_scale hidden latents ratio
  = Ok (prior latents ratio hidden).
Proof.
  intros Hle. unfold predict. now rewrite (guidance_off _ Hle).
Qed.

Lemma unguided_loop (guidance_scale : Qc) (hidden : Embeds)
    (ts : list Qc) (state : tensor * option Generator) :
  (guidance_scale <= 1)%Qc ->
  sampling_loop prior scheduler_step guidance_scale hidden ts state
  = Ok (fold_left (unguided_iteration prior scheduler_step hidden) ts state).
Proof.
  intros Hle. revert state.
  induction ts as [|t ts IH]; intros state; [reflexivity|].
  cbn [sampling_loop fold_left]. unfold iteration at 1.
  destruct state as [latents generator].
  rewrite unguided_predict by exact Hle. cbn [bind]. now rewrite IH.
Qed.

(** C10.  Guidance is switched on exactly when [guidance_scale > 1.0].
    For [guidance_scale <= 1.0] every iteration calls the network on the
    batch as it is and hands its prediction to the scheduler unchanged,
    and the whole call encodes the prompt without the unconditional half;
    for [guidance_scale > 1.0] the network is called on the doubled batch
    and its output is split and interpolated. *)
Theorem guidance_only_above_one (guidance_scale : Qc) :
  (do_classifier_free_guidance guidance_scale = true
   <-> (1 < guidance_scale)%Qc) /\
  ((guidance_scale <= 1)%Qc ->
   (forall hidden latents ratio,
      predict prior guidance_scale hidden latents ratio
      = Ok (prior latents ratio hidden)) /\
   (forall hidden ts state,
      sampling_loop prior scheduler_step guidance_scale hidden ts state
      = Ok (fold_left (unguided_iteration prior scheduler_step hidden)
                      ts state)) /\
   (forall prompt height width num_inference_steps negative_prompt
           num_images_per_prompt generator latents,
      WuerstchenPriorPipeline__call__ prior c_in _encode_prompt
        scheduler_timesteps scheduler_step randn_tensor prompt height width
        num_inference_steps guidance_scale negative_prompt
        num_images_per_prompt generator latents
      = unguided_call prior c_in _encode_prompt scheduler_timesteps
          scheduler_step randn_tensor prompt height width
          num_inference_steps negative_prompt num_images_per_prompt
          generator latents)) /\
  ((1 < guidance_scale)%Qc ->
   forall hidden latents ratio,
     predict prior guidance_scale hidden latents ratio
     = ('(cond, uncond) <-
          chunk2 (prior (cat2 latents) (cat2 ratio) hidden) ;;
        lerp uncond cond guidance_scale)).
Proof.
  split; [apply do_classifier_free_guidance_spec|]. split.
  - intros Hle. split; [|split].
    + intros. now apply unguided_predict.
    + intros. now apply unguided_loop.
    + intros. unfold WuerstchenPriorPipeline__call__, unguided_call.
      rewrite (guidance_off _ Hle).
      destruct prompt as [str|l|]; cbn [bind]; [| |reflexivity].
      * destruct (_encode_prompt _ _ _ _) as [hidden|e]; cbn [bind];
          [|reflexivity].
        destruct (prepare_latents _ _ _ _ _) as [state|e]; cbn [bind];
          [|reflexivity].
        rewrite unguided_loop by exact Hle. reflexivity.
      * destruct (_encode_prompt _ _ _ _) as [hidden|e]; cbn [bind];
          [|reflexivity].
        destruct (prepare_latents _ _ _ _ _) as [state|e]; cbn [bind];
          [|reflexivity].
        rewrite unguided_loop by exact Hle. reflexivity.
  - intros Hgt hidden latents ratio.
    apply do_classifier_free_guidance_spec in Hgt.
    unfold predict. now rewrite Hgt.
Qed.

End Guidance.

End WuerstchenFacts.

Lemma guidance_is_lerp_witness :
  Wuerstchen.predict Wuerstchen.echo_prior (Q2Qc 2) tt
    [[Q2Qc 3; Q2Qc 4]] [Q2Qc 1]
  = Ok (map2 (map2 (fun u c => (u + Q2Qc 2 * (c - u))%Qc))
             [[Q2Qc 3; Q2Qc 4]] [[Q2Qc 3; Q2Qc 4]]) /\
  Wuerstchen.lerp [[Q2Qc 3; Q2Qc 4]] [[Q2Qc 3; Q2Qc 4]] 1
  = Ok [[Q2Qc 3; Q2Qc 4]].
Proof.
  apply (WuerstchenFacts.guidance_is_lerp unit Wuerstchen.echo_prior
           (Q2Qc 2) tt [[Q2Qc 3; Q2Qc 4]] [Q2Qc 1]
           [[Q2Qc 3; Q2Qc 4]] [[Q2Qc 3; Q2Qc 4]]); reflexivity.
Defined.

Lemma guidance_only_above_one_witness :
  Wuerstchen.predict Wuerstchen.echo_prior 1 tt [[Q2Qc 3]] [Q2Qc 1]
  = Ok [[Q2Qc 3]] /\
  Wuerstchen.sampling_loop Wuerstchen.echo_prior
    Wuerstchen.echo_scheduler_step 1 tt [Q2Qc 1; 0%Qc] ([[Q2Qc 3]], None)
  = Ok ([[Q2Qc 3]], None).
Proof.
  destruct (WuerstchenFacts.guidance_only_above_one unit unit
              Wuerstchen.echo_prior 1
              (fun _ _ _ _ => Ok tt) (fun _ => [Q2Qc 1; 0%Qc])
              Wuerstchen.echo_scheduler_step
              (fun _ _ g => ([], g)) 1)
    as (_ & Hle & _).
  destruct (Hle ltac:(unfold Qcle, Qle; simpl; lia)) as (Hp & Hl & _).
  split; [apply Hp | apply Hl].
Defined.

(** * Further properties of the scheduler *)

(** ** Reading a table *)

Lemma py_index_in_range {A : Type} (xs : list A) (i : Z) :
  (- Z.of_nat (length xs) <= i < Z.of_nat (length xs))%Z ->
  exists a, py_index xs i = Ok a.
Proof.
  intros Hi. unfold py_index.
  set (n := Z.of_nat (length xs)) in *.
  set (j := if (i <? 0)%Z then (i + n)%Z else i).
  assert (Hj : (0 <= j < n)%Z).
  { unfold j. destruct (Z.ltb_spec i 0); lia. }
  replace ((0 <=? j)%Z && (j <? n)%Z) with true by in_range.
  destruct (nth_error xs (Z.to_nat j)) as [a|] eqn:E.
  - exists a. reflexivity.
  - apply nth_error_None in E. lia.
Qed.

Lemma py_index_out_of_range {A : Type} (xs : list A) (i : Z) :
  ~ (- Z.of_nat (length xs) <= i < Z.of_nat (length xs))%Z ->
  py_index xs i = Raise IndexError.
Proof.
  intros Hi. unfold py_index.
  set (n := Z.of_nat (length xs)) in *.
  set (j := if (i <? 0)%Z then (i + n)%Z else i).
  assert (Hj : ~ (0 <= j < n)%Z).
  { unfold j. destruct (Z.ltb_spec i 0); lia. }
  destruct (Z.leb_spec 0 j); destruct (Z.ltb_spec j n); cbn [andb];
    try reflexivity.
  lia.
Qed.

Lemma In_rev_arange (n t : Z) : In t (rev (arange n)) <-> (0 <= t < n)%Z.
Proof.
  rewrite <- in_rev. unfold arange. rewrite in_map_iff. split.
  - intros (k & <- & Hk). apply in_seq in Hk. lia.
  - intros Ht. exists (Z.to_nat t). split; [lia|]. apply in_seq. lia.
Qed.

Lemma init_well_sized (n T : Z) (a_s a_e c_s c_e : Qc)
    (s : VQDiffusionScheduler tfloat) :
  VQDiffusionScheduler__init__ n T a_s a_e c_s c_e = Ok s ->
  well_sized s (Z.to_nat T) /\ timesteps s = rev (arange T) /\
  num_embed s = n /\ mask_class s = (n - 1)%Z.
Proof.
  unfold VQDiffusionScheduler__init__.
  pose proof (alpha_schedules_length T a_s a_e) as [La La'].
  pose proof (gamma_schedules_length T c_s c_e) as [Lc Lc'].
  destruct (alpha_schedules _ _ _) as [at_ att].
  destruct (gamma_schedules _ _ _) as [ct ctt].
  cbn [fst snd] in *.
  intros [= <-]. unfold well_sized.
  cbn [log_at log_bt log_ct log_cumprod_at log_cumprod_bt log_cumprod_ct
       timesteps num_embed mask_class].
  rewrite !length_map, !beta_schedule_length by congruence.
  repeat split; assumption.
Qed.

Lemma init_built (n T : Z) (a_s a_e c_s c_e : Qc) :
  exists s, VQDiffusionScheduler__init__ n T a_s a_e c_s c_e = Ok s.
Proof.
  unfold VQDiffusionScheduler__init__.
  destruct (alpha_schedules _ _ _) as [at_ att].
  destruct (gamma_schedules _ _ _) as [ct ctt].
  eexists. reflexivity.
Qed.

(** In a scheduler of [T] timesteps every [t] of [0 .. T-1] reads all six
    tables, and [t - 1] reads the cumulative ones. *)
Lemma well_sized_reads {F : Type} (s : VQDiffusionScheduler F) (T : nat)
    (t : Z) :
  well_sized s T -> (0 <= t < Z.of_nat T)%Z ->
  (exists a b c,
     py_index (log_at s) t = Ok a /\ py_index (log_bt s) t = Ok b /\
     py_index (log_ct s) t = Ok c) /\
  (exists a b c,
     py_index (log_cumprod_at s) t = Ok a /\
     py_index (log_cumprod_bt s) t = Ok b /\
     py_index (log_cumprod_ct s) t = Ok c) /\
  (exists a b c,
     py_index (log_cumprod_at s) (t - 1) = Ok a /\
     py_index (log_cumprod_bt s) (t - 1) = Ok b /\
     py_index (log_cumprod_ct s) (t - 1) = Ok c).
Proof.
  intros (H1 & H2 & H3 & H4 & H5 & H6) Ht.
  repeat split.
  - destruct (py_index_in_range (log_at s) t) as [a Ha]; [lia|].
    destruct (py_index_in_range (log_bt s) t) as [b Hb]; [lia|].
    destruct (py_index_in_range (log_ct s) t) as [c Hc]; [lia|].
    exists a, b, c. auto.
  - destruct (py_index_in_range (log_cumprod_at s) t) as [a Ha]; [lia|].
    destruct (py_index_in_range (log_cumprod_bt s) t) as [b Hb]; [lia|].
    destruct (py_index_in_range (log_cumprod_ct s) t) as [c Hc]; [lia|].
    exists a, b, c. auto.
  - destruct (py_index_in_range (log_cumprod_at s) (t - 1)) as [a Ha]; [lia|].
    destruct (py_index_in_range (log_cumprod_bt s) (t - 1)) as [b Hb]; [lia|].
    destruct (py_index_in_range (log_cumprod_ct s) (t - 1)) as [c Hc]; [lia|].
    exists a, b, c. auto.
Qed.

(** X1.  Construction never fails, and the scheduler it returns for
    [num_train_timesteps = T] holds [T] entries in each per-step table and
    [T + 1] in each cumulative one; its timesteps are exactly the values
    [0 .. T-1], each of which is a valid index of all six tables, with
    [t - 1] a valid index of the cumulative tables (for [t = 0] this
    reads the entry appended at the end). *)
Theorem constructed_tables_cover_timesteps (n T : Z)
    (a_s a_e c_s c_e : Qc) :
  exists s,
    VQDiffusionScheduler__init__ n T a_s a_e c_s c_e = Ok s /\
    well_sized s (Z.to_nat T) /\
    length (timesteps s) = Z.to_nat T /\
    (forall t, In t (timesteps s) <-> (0 <= t < T)%Z) /\
    (forall t, (0 <= t < T)%Z ->
       (exists a b c,
          py_index (log_at s) t = Ok a /\ py_index (log_bt s) t = Ok b /\
          py_index (log_ct s) t = Ok c) /\
       (exists a b c,
          py_index (log_cumprod_at s) t = Ok a /\
          py_index (log_cumprod_bt s) t = Ok b /\
          py_index (log_cumprod_ct s) t = Ok c) /\
       (exists a b c,
          py_index (log_cumprod_at s) (t - 1) = Ok a /\
          py_index (log_cumprod_bt s) (t - 1) = Ok b /\
          py_index (log_cumprod_ct s) (t - 1) = Ok c)).
Proof.
  destruct (init_built n T a_s a_e c_s c_e) as [s Hs].
  exists s. split; [exact Hs|].
  destruct (init_well_sized _ _ _ _ _ _ _ Hs) as (Hw & Ht & _ & _).
  split; [exact Hw|]. split; [|split].
  - rewrite Ht, length_rev. apply arange_length.
  - intros t. rewrite Ht. apply In_rev_arange.
  - intros t Hin.
    apply well_sized_reads with (T := Z.to_nat T); [exact Hw|lia].
Qed.

(** ** The cumulative tables are running products *)

Lemma mul_div_cancel (p q : Qc) :
  p <> 0%Qc -> mul (Fin p) (div (Fin q) (Fin p)) = Fin q.
Proof.
  intros Hp. rewrite div_Fin by exact Hp. cbn [mul]. f_equal.
  apply Qcmult_div_r. exact Hp.
Qed.

Lemma nonzero_fin_inv (x : npfloat) :
  nonzero_fin x = true -> exists q, x = Fin q /\ q <> 0%Qc.
Proof.
  destruct x as [q| | |]; cbn; try discriminate.
  intros H. exists q. split; [reflexivity|].
  intros ->. revert H.
  replace (sgn 0%Qc) with Eq by (symmetry; apply sgn_Eq; reflexivity).
  discriminate.
Qed.

(** The running products of the successive ratios of a sequence of finite
    values other than zero give the sequence back. *)
Lemma cumprod_of_ratios (r : list npfloat) (p : Qc) :
  p <> 0%Qc -> forallb nonzero_fin r = true ->
  cumprod_from (Fin p) (map2 div r (Fin p :: removelast r)) = r.
Proof.
  revert p. induction r as [|x r IH]; intros p Hp Hr; [reflexivity|].
  cbn [forallb] in Hr. apply andb_true_iff in Hr as [Hx Hr].
  destruct (nonzero_fin_inv x Hx) as (q & -> & Hq).
  destruct r as [|y r'].
  - cbn [removelast map2 cumprod_from]. rewrite mul_div_cancel by exact Hp.
    reflexivity.
  - change (removelast (Fin q :: y :: r'))
      with (Fin q :: removelast (y :: r')).
    cbn [map2 cumprod_from]. rewrite mul_div_cancel by exact Hp.
    f_equal. apply IH; assumption.
Qed.

Lemma ratios_of_shifted (x : npfloat) (r : list npfloat) :
  map2 div r (removelast (x :: r)) = map2 div r (x :: removelast r).
Proof.
  destruct r as [|y r']; [reflexivity|].
  reflexivity.
Qed.

Lemma complement_involutive (x : npfloat) : complement (complement x) = x.
Proof.
  destruct x as [q| | |]; cbn; try reflexivity.
  f_equal. ring.
Qed.

(** X2.  When no cumulative alpha is zero or infinite, the cumulative
    alphas of [alpha_schedules] (without the entry appended at the end)
    are the running products of the per-step alphas. *)
Theorem cumulative_alpha_is_running_product (T : Z) (a_s a_e : Qc) :
  forallb nonzero_fin (removelast (snd (alpha_schedules T a_s a_e))) = true ->
  cumprod (fst (alpha_schedules T a_s a_e))
  = removelast (snd (alpha_schedules T a_s a_e)).
Proof.
  unfold alpha_schedules. cbv zeta. cbn [fst snd tl].
  rewrite removelast_last. intros H.
  rewrite ratios_of_shifted. unfold cumprod.
  apply cumprod_of_ratios; [discriminate | exact H].
Qed.

Lemma cumulative_alpha_is_running_product_witness :
  cumprod (fst (alpha_schedules 100 default_a_cumulative_start
                  default_a_cumulative_end))
  = removelast (snd (alpha_schedules 100 default_a_cumulative_start
                       default_a_cumulative_end)).
Proof.
  apply (cumulative_alpha_is_running_product 100).
  vm_compute. reflexivity.
Defined.

(** X3.  When no cumulative gamma is one or infinite, the complements
    [1 - gamma] of the cumulative gammas of [gamma_schedules] (without the
    entry appended at the end) are the running products of the complements
    of the per-step gammas. *)
Theorem cumulative_gamma_is_running_product (T : Z) (c_s c_e : Qc) :
  forallb nonzero_fin
    (map complement (removelast (snd (gamma_schedules T c_s c_e)))) = true ->
  cumprod (map complement (fst (gamma_schedules T c_s c_e)))
  = map complement (removelast (snd (gamma_schedules T c_s c_e))).
Proof.
  unfold gamma_schedules. cbv zeta. cbn [fst snd tl map].
  rewrite removelast_last. intros H.
  rewrite map_map.
  rewrite (map_ext _ (fun x => x)) by apply complement_involutive.
  rewrite map_id. rewrite ratios_of_shifted. unfold cumprod.
  change (sub (Fin 1%Qc) (Fin 0%Qc)) with (Fin (1 + - 0)%Qc).
  replace (1 + - 0)%Qc with 1%Qc by ring.
  apply cumprod_of_ratios; [discriminate | exact H].
Qed.

Lemma cumulative_gamma_is_running_product_witness :
  cumprod (map complement
             (fst (gamma_schedules 100 default_c_cumulative_start
                     default_c_cumulative_end)))
  = map complement
      (removelast (snd (gamma_schedules 100 default_c_cumulative_start
                          default_c_cumulative_end))).
Proof.
  apply (cumulative_gamma_is_running_product 100).
  vm_compute. reflexivity.
Defined.

(** ** [set_timesteps] *)

Lemma py_index_rev_arange (n i : Z) :
  (0 <= i < n)%Z -> py_index (rev (arange n)) i = Ok (n - 1 - i)%Z.
Proof.
  intros Hi. apply py_index_nth; [lia|].
  rewrite nth_error_rev, arange_length.
  replace (Z.to_nat i <? Z.to_nat n)%nat with true
    by (symmetry; apply Nat.ltb_lt; lia).
  rewrite nth_error_arange by lia. f_equal. lia.
Qed.

Lemma set_timesteps_well_sized {F : Type} (self : VQDiffusionScheduler F)
    (n : Z) (T : nat) :
  well_sized self T -> well_sized (set_timesteps self n) T.
Proof. intros H. exact H. Qed.

(** X4.  [set_timesteps] with [n] inference steps leaves a schedule of
    [n] timesteps that counts down from [n - 1] to [0] (none when
    [n <= 0]): the entry at position [i] is [n - 1 - i].  The request is
    recorded and never compared with the number of training timesteps, so
    the tables keep their sizes whatever [n] is. *)
Theorem set_timesteps_counts_down {F : Type} (self : VQDiffusionScheduler F)
    (n : Z) :
  length (timesteps (set_timesteps self n)) = Z.to_nat n /\
  (forall i, (0 <= i < n)%Z ->
     py_index (timesteps (set_timesteps self n)) i = Ok (n - 1 - i)%Z) /\
  (forall t, In t (timesteps (set_timesteps self n)) <-> (0 <= t < n)%Z) /\
  num_inference_steps (set_timesteps self n) = Some n /\
  (forall T, well_sized self T -> well_sized (set_timesteps self n) T).
Proof.
  cbn [set_timesteps timesteps num_inference_steps].
  split; [rewrite length_rev; apply arange_length|].
  split; [intros i Hi; apply py_index_rev_arange; exact Hi|].
  split; [intros t; apply In_rev_arange|].
  split; [reflexivity|].
  intros T H. exact H.
Qed.

(** ** Entries of tensors *)

Lemma entry2_map {A B : Type} (f : A -> B) (m : list (list A)) (i j : nat) :
  entry2 (map (map f) m) i j = option_map f (entry2 m i j).
Proof.
  unfold entry2. rewrite nth_error_map.
  destruct (nth_error m i) as [r|]; [|reflexivity].
  cbn [option_map]. apply nth_error_map.
Qed.

Lemma entry3_map3 {A B : Type} (f : A -> B) (t : list (list (list A)))
    (i c j : nat) :
  entry3 (map3 f t) i c j = option_map f (entry3 t i c j).
Proof.
  unfold entry3, map3. rewrite nth_error_map.
  destruct (nth_error t i) as [m|]; [|reflexivity].
  cbn [option_map]. apply entry2_map.
Qed.

(** The column [c] of rows that all hold an entry at [c]. *)
Lemma column_map {A B : Type} (g : A -> list B) (h : A -> B) (xs : list A)
    (c : nat) :
  (forall x, In x xs -> nth_error (g x) c = Some (h x)) ->
  column (map g xs) c = map h xs.
Proof.
  induction xs as [|x xs IH]; intros H; [reflexivity|].
  cbn [map column flat_map]. rewrite (H x) by (left; reflexivity).
  cbn [app]. f_equal. apply IH. intros y Hy. apply H. right. exact Hy.
Qed.

Lemma map_seq_nth_error {A B : Type} (f : nat -> B) (g : A -> B)
    (xs : list A) :
  (forall j x, nth_error xs j = Some x -> f j = g x) ->
  map f (seq 0 (length xs)) = map g xs.
Proof.
  revert f. induction xs as [|x xs IH]; intros f H; [reflexivity|].
  cbn [length seq map]. rewrite (H 0%nat x) by reflexivity. f_equal.
  rewrite <- seq_shift, map_map. apply IH.
  intros j y Hj. apply H. exact Hj.
Qed.

Lemma mapM_map_Ok {A B : Type} (f : A -> result B) (g : B -> A)
    (ys : list B) :
  (forall y, In y ys -> f (g y) = Ok y) -> mapM f (map g ys) = Ok ys.
Proof.
  induction ys as [|y ys IH]; intros H; [reflexivity|].
  cbn [map mapM]. rewrite (H y) by (left; reflexivity). cbn [bind].
  rewrite IH by (intros z Hz; apply H; right; exact Hz). reflexivity.
Qed.

Lemma mapM_id_Ok {A B : Type} (f : A -> result B) (h : A -> B)
    (xs : list A) :
  (forall x, In x xs -> f x = Ok (h x)) -> mapM f xs = Ok (map h xs).
Proof.
  induction xs as [|x xs IH]; intros H; [reflexivity|].
  cbn [map mapM]. rewrite (H x) by (left; reflexivity). cbn [bind].
  rewrite IH by (intros z Hz; apply H; right; exact Hz). reflexivity.
Qed.

Lemma forallb_Forall2 {A : Type} (f : A -> bool) (P : A -> Prop)
    (x : list (list A)) :
  (forall v, f v = true <-> P v) ->
  forallb (forallb f) x = true <-> Forall (Forall P) x.
Proof.
  intros H. rewrite forallb_forall, Forall_forall.
  split; intros G r Hr.
  - apply Forall_forall. intros v Hv. apply H.
    specialize (G r Hr). rewrite forallb_forall in G. apply G. exact Hv.
  - apply forallb_forall. intros v Hv. apply H.
    specialize (G r Hr). rewrite Forall_forall in G. apply G. exact Hv.
Qed.

Lemma class_in_range (N v : Z) :
  ((0 <=? v) && (v <? N))%Z%bool = true <-> (0 <= v < N)%Z.
Proof. rewrite andb_true_iff, Z.leb_le, Z.ltb_lt. reflexivity. Qed.

Section LogOneHotValues.

Context {RT : TensorRuntime}.

(** The log of the clamped one-hot value for class [c] of a pixel of
    class [v]. *)
Local Abbreviation log_hot v c :=
  (flog (fmax (of_int (if (v =? Z.of_nat c)%Z then 1%Z else 0%Z)) f1em30)).

Lemma one_hot_accepts (x : long2) (N : Z) :
  Forall (Forall (fun v => (0 <= v < N)%Z)) x ->
  one_hot x N
  = Ok (map (map (fun v => map (fun c => if (v =? c)%Z then 1%Z else 0%Z)
                               (arange N))) x).
Proof.
  intros H. unfold one_hot.
  replace (forallb _ x) with true; [reflexivity|].
  symmetry. apply (forallb_Forall2 _ (fun v => (0 <= v < N)%Z)); [|exact H].
  intros v. apply class_in_range.
Qed.


(** The tensor that [index_to_log_onehot] returns, written out: one
    matrix per batch entry, one row per class. *)
Lemma index_to_log_onehot_closed (x : long2) (N : Z) :
  Forall (Forall (fun v => (0 <= v < N)%Z)) x ->
  index_to_log_onehot x N
  = Ok (map (fun xr =>
               map (fun c => map (fun v => log_hot v c) xr)
                   (seq 0 (Z.to_nat N))) x).
Proof.
  intros H. unfold index_to_log_onehot. rewrite one_hot_accepts by exact H.
  cbn [bind]. f_equal. unfold map3, permute_0_2_1. rewrite !map_map.
  apply map_ext. intros xr. unfold transpose. rewrite map_map.
  apply map_ext_in. intros c Hc. apply in_seq in Hc.
  rewrite (column_map _ (fun v => if (v =? Z.of_nat c)%Z then 1%Z else 0%Z)).
  - rewrite map_map. reflexivity.
  - intros v _. unfold arange. rewrite !nth_error_map.
    rewrite nth_error_seq.
    replace (c <? Z.to_nat N)%nat with true
      by (symmetry; apply Nat.ltb_lt; lia).
    reflexivity.
Qed.

Lemma log_onehot_entry (x : long2) (N : Z) (i c j : nat) (v : Z) :
  entry2 x i j = Some v -> (c < Z.to_nat N)%nat ->
  entry3 (map (fun xr =>
                 map (fun c => map (fun v => log_hot v c) xr)
                     (seq 0 (Z.to_nat N))) x) i c j
  = Some (log_hot v c).
Proof.
  unfold entry3, entry2. intros Hv Hc. rewrite nth_error_map.
  destruct (nth_error x i) as [xr|]; [|discriminate].
  cbn [option_map]. rewrite nth_error_map, nth_error_seq.
  replace (c <? Z.to_nat N)%nat with true
    by (symmetry; apply Nat.ltb_lt; lia).
  cbn [option_map Nat.add]. rewrite nth_error_map, Hv. reflexivity.
Qed.


(** *** Decoding by [argmax] *)

Variable hot cold : F.
Hypothesis hot_is : hot = flog (fmax (of_int 1) f1em30).
Hypothesis cold_is : cold = flog (fmax (of_int 0) f1em30).
Hypothesis hot_over_cold : fgtb hot cold = true.
Hypothesis cold_not_over_cold : fgtb cold cold = false.
Hypothesis cold_not_over_hot : fgtb cold hot = false.

Lemma log_hot_cases (v : Z) (c : nat) :
  log_hot v c = if (v =? Z.of_nat c)%Z then hot else cold.
Proof. destruct (v =? Z.of_nat c)%Z; congruence. Qed.

Lemma argmax_from_after_hot (v : Z) (len k : nat) (best : Z) :
  (v < Z.of_nat k)%Z ->
  argmax_from best hot (Z.of_nat k)
    (map (fun c => log_hot v c) (seq k len)) = best.
Proof.
  revert k. induction len as [|len IH]; intros k Hk; [reflexivity|].
  cbn [seq map argmax_from]. rewrite log_hot_cases.
  replace (v =? Z.of_nat k)%Z with false by (symmetry; apply Z.eqb_neq; lia).
  rewrite cold_not_over_hot.
  replace (Z.of_nat k + 1)%Z with (Z.of_nat (S k)) by lia.
  apply IH. lia.
Qed.

Lemma argmax_from_before_hot (v : Z) (len k : nat) (best : Z) :
  (Z.of_nat k <= v < Z.of_nat k + Z.of_nat len)%Z ->
  argmax_from best cold (Z.of_nat k)
    (map (fun c => log_hot v c) (seq k len)) = v.
Proof.
  revert k best. induction len as [|len IH]; intros k best Hk; [lia|].
  cbn [seq map argmax_from]. rewrite log_hot_cases.
  replace (Z.of_nat k + 1)%Z with (Z.of_nat (S k)) by lia.
  destruct (Z.eqb_spec v (Z.of_nat k)) as [E|E].
  - rewrite hot_over_cold. rewrite argmax_from_after_hot by lia.
    symmetry. exact E.
  - rewrite cold_not_over_cold. apply IH. lia.
Qed.

Lemma argmax_column_log_hot (v N : Z) :
  (0 <= v < N)%Z ->
  argmax_column (map (fun c => log_hot v c) (seq 0 (Z.to_nat N))) = Ok v.
Proof.
  intros Hv. destruct (Z.to_nat N) as [|n] eqn:E; [lia|].
  cbn [seq map argmax_column]. f_equal. rewrite log_hot_cases.
  destruct (Z.eqb_spec v (Z.of_nat 0)) as [E0|E0].
  - change 1%Z with (Z.of_nat 1). rewrite argmax_from_after_hot by lia.
    symmetry. exact E0.
  - change 1%Z with (Z.of_nat 1). apply argmax_from_before_hot. lia.
Qed.

Lemma argmax_of_log_onehot (x : long2) (N : Z) :
  (1 <= N)%Z -> Forall (Forall (fun v => (0 <= v < N)%Z)) x ->
  argmax_dim1 (map (fun xr =>
                      map (fun c => map (fun v => log_hot v c) xr)
                          (seq 0 (Z.to_nat N))) x) = Ok x.
Proof.
  intros HN H. unfold argmax_dim1.
  apply mapM_map_Ok. intros xr Hxr.
  rewrite Forall_forall in H. specialize (H xr Hxr).
  remember (map (fun c => map (fun v => log_hot v c) xr)
                (seq 0 (Z.to_nat N))) as m eqn:Em.
  assert (Hw : width m = length xr /\ m <> []).
  { rewrite Em. destruct (Z.to_nat N) eqn:E; [lia|].
    cbn [seq map width]. split; [apply length_map | discriminate]. }
  destruct Hw as [Hw Hne].
  destruct m as [|r0 rest]; [congruence|].
  rewrite Hw, Em. unfold transpose.
  rewrite (map_seq_nth_error _
             (fun v => map (fun c => log_hot v c) (seq 0 (Z.to_nat N)))).
  - apply mapM_map_Ok. intros v Hv. apply argmax_column_log_hot.
    rewrite Forall_forall in H. apply H. exact Hv.
  - intros j v Hj. apply column_map. intros c _.
    rewrite nth_error_map, Hj. reflexivity.
Qed.

End LogOneHotValues.

(** ** Log one-hot vectors over the exact runtime *)

Module ExactOneHot.

Import Exact.

Lemma eps_lt_1 : (eps < 1)%R.
Proof.
  unfold eps. rewrite <- Rinv_1. apply Rinv_lt_contravar.
  - rewrite Rmult_1_l. apply pow_lt. lra.
  - apply Rlt_pow_R1; [lra | lia].
Qed.

Lemma ln_eps_neg : (ln eps < 0)%R.
Proof.
  rewrite <- ln_1. apply ln_increasing; [apply ExactFacts.eps_pos|].
  apply eps_lt_1.
Qed.

Lemma hot_value : tlog (tmax (TFin 1) (TFin eps)) = TFin 0.
Proof.
  cbn [tmax]. destruct (Rlt_dec 1 eps) as [H|H].
  - pose proof eps_lt_1. lra.
  - rewrite ExactFacts.tlog_pos by lra. rewrite ln_1. reflexivity.
Qed.

Lemma cold_value : tlog (tmax (TFin 0) (TFin eps)) = TFin (ln eps).
Proof.
  pose proof ExactFacts.eps_pos as He.
  cbn [tmax]. destruct (Rlt_dec 0 eps) as [H|H]; [|lra].
  apply ExactFacts.tlog_pos. exact He.
Qed.

Lemma log_hot_value (v : Z) (c : nat) :
  @flog RealRuntime
    (fmax (of_int (if (v =? Z.of_nat c)%Z then 1%Z else 0%Z)) f1em30)
  = if (v =? Z.of_nat c)%Z then TFin 0 else TFin (ln eps).
Proof.
  destruct (v =? Z.of_nat c)%Z; cbn [flog fmax of_int f1em30 RealRuntime].
  - apply hot_value.
  - apply cold_value.
Qed.

(** X6.  Over exact reals, the entry for class [c] of a pixel of class
    [v] in the tensor returned by [index_to_log_onehot] is [log 1 = 0] when
    [c = v] and [log 1e-30] otherwise: the clamp keeps every entry
    finite, and the class dimension comes before the pixel dimension. *)
Theorem log_onehot_entries (x : long2) (num_classes : Z) :
  Forall (Forall (fun v => (0 <= v < num_classes)%Z)) x ->
  exists log_x,
    index_to_log_onehot (RT := RealRuntime) x num_classes = Ok log_x /\
    forall (i c j : nat) (v : Z),
      entry2 x i j = Some v -> (c < Z.to_nat num_classes)%nat ->
      entry3 log_x i c j
      = Some (if (v =? Z.of_nat c)%Z then TFin 0 else TFin (ln eps)).
Proof.
  intros H. eexists. split.
  - apply index_to_log_onehot_closed. exact H.
  - intros i c j v Hv Hc.
    rewrite (log_onehot_entry (RT := RealRuntime) x num_classes i c j v Hv Hc).
    f_equal. apply log_hot_value.
Qed.

Lemma log_onehot_entries_witness :
  exists log_x,
    index_to_log_onehot (RT := RealRuntime) [[0; 2]]%Z 3 = Ok log_x /\
    forall (i c j : nat) (v : Z),
      entry2 [[0; 2]]%Z i j = Some v -> (c < Z.to_nat 3)%nat ->
      entry3 log_x i c j
      = Some (if (v =? Z.of_nat c)%Z then TFin 0 else TFin (ln eps)).
Proof.
  apply (log_onehot_entries [[0; 2]]%Z 3).
  repeat (constructor; try lia).
Defined.

(** X7.  Over exact reals, [argmax] along the class dimension recovers
    the classes from which [index_to_log_onehot] built the tensor, for
    every number of classes of at least one. *)
Theorem argmax_decodes_log_onehot (x : long2) (num_classes : Z) :
  (1 <= num_classes)%Z ->
  Forall (Forall (fun v => (0 <= v < num_classes)%Z)) x ->
  exists log_x,
    index_to_log_onehot (RT := RealRuntime) x num_classes = Ok log_x /\
    argmax_dim1 (RT := RealRuntime) log_x = Ok x.
Proof.
  intros HN H. eexists. split.
  - apply index_to_log_onehot_closed. exact H.
  - apply (argmax_of_log_onehot (RT := RealRuntime)
             (TFin 0) (TFin (ln eps))).
    + symmetry. apply hot_value.
    + symmetry. apply cold_value.
    + cbn [fgtb RealRuntime tgtb].
      destruct (Rlt_dec (ln eps) 0) as [G|G]; [reflexivity|].
      pose proof ln_eps_neg. lra.
    + cbn [fgtb RealRuntime tgtb].
      destruct (Rlt_dec (ln eps) (ln eps)) as [G|G]; [lra|reflexivity].
    + cbn [fgtb RealRuntime tgtb].
      destruct (Rlt_dec 0 (ln eps)) as [G|G]; [|reflexivity].
      pose proof ln_eps_neg. lra.
    + exact HN.
    + exact H.
Qed.

Lemma argmax_decodes_log_onehot_witness :
  exists log_x,
    index_to_log_onehot (RT := RealRuntime) [[0; 2]; [1; 1]]%Z 3
    = Ok log_x /\
    argmax_dim1 (RT := RealRuntime) log_x = Ok [[0; 2]; [1; 1]]%Z.
Proof.
  apply (argmax_decodes_log_onehot [[0; 2]; [1; 1]]%Z 3).
  - lia.
  - repeat (constructor; try lia).
Defined.

End ExactOneHot.

(** ** Shapes through [q_posterior] and [step] *)

Lemma is_mat_map2 {A B C : Type} (f : A -> B -> C) (c p : nat)
    (m : list (list A)) (m' : list (list B)) :
  is_mat c p m -> is_mat c p m' -> is_mat c p (map2 (map2 f) m m').
Proof.
  intros [Hl Hr] [Hl' Hr']. split.
  - rewrite map2_length. lia.
  - apply (Forall_map2_2 (fun r => length r = p) (fun r => length r = p));
      [|assumption|assumption].
    intros x y Hx Hy. rewrite map2_length. lia.
Qed.

Lemma width_is_mat {A : Type} (c p : nat) (m : list (list A)) :
  is_mat (S c) p m -> width m = p.
Proof.
  intros [Hl Hr]. destruct m as [|r m]; [discriminate|].
  cbn [width]. inversion Hr; assumption.
Qed.

Section PosteriorShapes.

Context {RT : TensorRuntime}.

Lemma zip3_shape (f : F -> F -> F) (b c p : nat) (s t : tensor3) :
  is_tensor3 b c p s -> is_tensor3 b c p t ->
  exists r, zip3 f s t = Ok r /\ is_tensor3 b c p r.
Proof.
  intros Hs Ht. unfold zip3. rewrite (same_shape3_true b c p s t Hs Ht).
  eexists. split; [reflexivity|].
  apply (is_tensor3_map2 _ b c c c p); [|assumption|assumption].
  intros m m'. apply is_mat_map2.
Qed.

Lemma logsumexp_dim1_shape (b c p : nat) (q : tensor3) :
  is_tensor3 b (S c) p q -> is_tensor3 b 1 p (logsumexp_dim1 q).
Proof.
  intros [Hl Hm]. unfold logsumexp_dim1. split.
  - now rewrite length_map.
  - apply Forall_map. revert Hm. apply Forall_impl. intros m Hm.
    rewrite (width_is_mat c p m Hm).
    split; [reflexivity|]. constructor; [|constructor].
    rewrite length_map.
    destruct (transpose_shape (S c) p m Hm) as [Ht _]. exact Ht.
Qed.

Lemma broadcast_dim1_shape (f : F -> F -> F) (b c p : nat) (q s : tensor3) :
  is_tensor3 b c p q -> is_tensor3 b 1 p s ->
  exists r, broadcast_dim1 f q s = Ok r /\ is_tensor3 b c p r.
Proof.
  intros Hq Hs. unfold broadcast_dim1.
  replace (all2 _ q s) with true.
  - eexists. split; [reflexivity|].
    apply (is_tensor3_map2 _ b c 1 c p); [|assumption|assumption].
    intros m k [Hl Hr] [Hl' Hr']. split.
    + now rewrite length_map.
    + apply Forall_map. revert Hr. apply Forall_impl. intros row Hrow.
      destruct k as [|r [|r' k]]; try discriminate.
      cbn [hd]. rewrite map2_length. inversion Hr'; subst. lia.
  - symmetry. destruct Hq as [Hlq Hq], Hs as [Hls Hs].
    apply all2_true; [congruence|]. intros m k Hm Hk.
    rewrite Forall_forall in Hq, Hs.
    destruct (Hq m Hm) as [Hl Hr], (Hs k Hk) as [Hl' Hr'].
    destruct k as [|r [|r' k]]; try discriminate.
    apply forallb_forall. intros row Hrow. unfold same_len.
    apply Nat.eqb_eq. rewrite Forall_forall in Hr.
    rewrite (Hr row Hrow). inversion Hr'; subst. reflexivity.
Qed.

Lemma apply_cumulative_transitions_shape (self : VQDiffusionScheduler F)
    (b c p : nat) (q : tensor3) (t : Z) (a_t b_t c_t : F) :
  is_tensor3 b (S c) p q ->
  py_index (log_cumprod_at self) t = Ok a_t ->
  py_index (log_cumprod_bt self) t = Ok b_t ->
  py_index (log_cumprod_ct self) t = Ok c_t ->
  apply_cumulative_transitions self q t
  = Ok (map2 (fun m m' => m' ++ [repeat c_t (width m)]) q
             (map3 (fun v => logaddexp (fadd v a_t) b_t) q)) /\
  is_tensor3 b (S (S c)) p
    (map2 (fun m m' => m' ++ [repeat c_t (width m)]) q
          (map3 (fun v => logaddexp (fadd v a_t) b_t) q)).
Proof.
  intros Hq Ha Hb Hc. unfold apply_cumulative_transitions.
  rewrite Ha, Hb, Hc. cbn [bind]. split; [reflexivity|].
  apply (is_tensor3_map2 _ b (S c) (S c) (S (S c)) p).
  - intros m m' Hm Hm'. rewrite (width_is_mat c p m Hm).
    replace (S (S c)) with (S c + 1)%nat by lia.
    apply is_mat_app; [exact Hm'|].
    split; [reflexivity|]. constructor; [|constructor].
    apply repeat_length.
  - exact Hq.
  - unfold map3. apply (is_tensor3_map _ b (S c) p); [|exact Hq].
    intros m. apply is_mat_map.
Qed.

(** [q_posterior] goes through on the documented shapes. *)
Lemma q_posterior_on_documented_shapes (self : VQDiffusionScheduler F)
    (T b p : nat)
    (log_p_x_0 : tensor3) (x_t : long2) (t : Z) :
  (2 <= num_embed self)%Z ->
  well_sized self T ->
  (0 <= t < Z.of_nat T)%Z ->
  is_mat b p x_t ->
  Forall (Forall (fun v => (0 <= v < num_embed self)%Z)) x_t ->
  is_tensor3 b (Z.to_nat (num_embed self - 1)) p log_p_x_0 ->
  exists log_p_x_t_min_1,
    q_posterior self log_p_x_0 x_t t = Ok log_p_x_t_min_1 /\
    is_tensor3 b (Z.to_nat (num_embed self)) p log_p_x_t_min_1.
Proof.
  intros HN Hw Ht Hx Hrange Hp0.
  destruct (well_sized_reads self T t Hw Ht)
    as ((a & b0 & c & Ha & Hb & Hc) &
        (ca & cb & cc & Hca & Hcb & Hcc) &
        (pa & pb & pc & Hpa & Hpb & Hpc)).
  assert (HN1 : (1 <= num_embed self)%Z) by lia.
  destruct (index_to_log_onehot_shape b p x_t (num_embed self) Hx Hrange)
    as (log_onehot & Hoh & Hohs).
  destruct (returns_on_documented_shapes self HN1 b p t x_t log_onehot
              true ca cb cc Hx Hohs Hca Hcb Hcc)
    as (qc & Hqc & Hqcs).
  destruct (returns_on_documented_shapes self HN1 b p t x_t log_onehot
              false a b0 c Hx Hohs Ha Hb Hc)
    as (qs & Hqs & Hqss).
  cbv beta iota in Hqcs, Hqss.
  destruct (Z.to_nat (num_embed self - 1)) as [|k] eqn:EK; [lia|].
  assert (EN : Z.to_nat (num_embed self) = S (S k)) by lia.
  rewrite EN in *.
  destruct (zip3_shape fsub b (S k) p log_p_x_0 qc Hp0 Hqcs)
    as (q1 & Hq1 & Hq1s).
  pose proof (logsumexp_dim1_shape b k p q1 Hq1s) as Hlse.
  destruct (broadcast_dim1_shape fsub b (S k) p q1 (logsumexp_dim1 q1)
              Hq1s Hlse) as (q2 & Hq2 & Hq2s).
  destruct (apply_cumulative_transitions_shape self b k p q2 (t - 1)
              pa pb pc Hq2s Hpa Hpb Hpc) as [Hq3 Hq3s].
  destruct (zip3_shape fadd b (S (S k)) p _ qs Hq3s Hqss)
    as (q4 & Hq4 & Hq4s).
  destruct (broadcast_dim1_shape fadd b (S (S k)) p q4 (logsumexp_dim1 q1)
              Hq4s Hlse) as (q5 & Hq5 & Hq5s).
  exists q5. split; [|exact Hq5s].
  unfold q_posterior. rewrite Hoh. cbn [bind]. rewrite Hqc. cbn [bind].
  rewrite Hqs. cbn [bind]. rewrite Hq1. cbn [bind]. rewrite Hq2.
  cbn [bind]. rewrite Hq3. cbn [bind]. rewrite Hq4. cbn [bind].
  rewrite Hq5. reflexivity.
Qed.

(** X8.  On the documented shapes ([x_t] of shape (b, p) with classes in
    [0, num_embed), [log_p_x_0] of shape (b, num_embed - 1, p)), for a
    scheduler of at least two classes whose tables have the sizes of [T]
    timesteps, [q_posterior] returns for every timestep [0 <= t < T] a
    tensor of shape (b, num_embed, p): no lookup and no broadcast
    fails. *)
Theorem q_posterior_shape (self : VQDiffusionScheduler F) (T b p : nat)
    (log_p_x_0 : tensor3) (x_t : long2) (t : Z) :
  (2 <= num_embed self)%Z ->
  well_sized self T ->
  (0 <= t < Z.of_nat T)%Z ->
  is_mat b p x_t ->
  Forall (Forall (fun v => (0 <= v < num_embed self)%Z)) x_t ->
  is_tensor3 b (Z.to_nat (num_embed self - 1)) p log_p_x_0 ->
  exists log_p_x_t_min_1,
    q_posterior self log_p_x_0 x_t t = Ok log_p_x_t_min_1 /\
    is_tensor3 b (Z.to_nat (num_embed self)) p log_p_x_t_min_1.
Proof.
  apply q_posterior_on_documented_shapes.
Qed.

End PosteriorShapes.

(** ** The sample that [step] returns *)

Section StepSample.

Context {RT : TensorRuntime}.

Lemma rand_row_length {A : Type} (shape : list A) (g : Generator) :
  length (fst (rand_row shape g)) = length shape.
Proof.
  revert g. induction shape as [|x shape IH]; intros g; [reflexivity|].
  cbn [rand_row]. destruct (rand g) as [u g1].
  specialize (IH g1). destruct (rand_row shape g1) as [us g2].
  cbn [fst length] in *. now rewrite IH.
Qed.

Lemma rand_mat_shape {A : Type} (p : nat) (shape : list (list A))
    (g : Generator) :
  length (fst (rand_mat shape g)) = length shape /\
  (Forall (fun r => length r = p) shape ->
   Forall (fun r => length r = p) (fst (rand_mat shape g))).
Proof.
  revert g. induction shape as [|r shape IH]; intros g.
  - split; [reflexivity|]. intros _. constructor.
  - cbn [rand_mat]. pose proof (rand_row_length r g) as Hr.
    destruct (rand_row r g) as [us g1].
    destruct (IH g1) as [IHl IHf].
    destruct (rand_mat shape g1) as [uss g2].
    cbn [fst] in *. split.
    + cbn [length]. now rewrite IHl.
    + intros H. inversion H; subst. constructor; [congruence|auto].
Qed.

Lemma torch_rand_shape {A : Type} (b c p : nat)
    (shape : list (list (list A))) (g : Generator) :
  is_tensor3 b c p shape -> is_tensor3 b c p (fst (torch_rand shape g)).
Proof.
  revert b g. induction shape as [|m shape IH]; intros b g [Hl Hm].
  - split; [exact Hl | constructor].
  - cbn [torch_rand]. pose proof (rand_mat_shape p m g) as [Hml Hmf].
    destruct (rand_mat m g) as [us g1].
    inversion Hm as [|m0 shape0 Hm0 Hrest]; subst.
    destruct (IH (length shape) g1) as [IHl IHf];
      [split; [reflexivity | exact Hrest]|].
    destruct (torch_rand shape g1) as [uss g2].
    cbn [fst] in *. split.
    + cbn [length]. now rewrite IHl.
    + constructor; [|exact IHf].
      destruct Hm0 as [Hc Hp]. split; [congruence | auto].
Qed.

Lemma gumbel_noised_shape (b c p : nat) (logits : tensor3)
    (generator : option Generator) (world : Rng) :
  is_tensor3 b c p logits ->
  is_tensor3 b c p (fst (fst (gumbel_noised logits generator world))).
Proof.
  intros H. unfold gumbel_noised, torch_rand_with.
  destruct generator as [g|].
  - pose proof (torch_rand_shape b c p logits g H) as Hu.
    destruct (torch_rand logits g) as [u g']. cbn [fst] in *.
    apply (is_tensor3_map2 _ b c c c p); [| |exact H].
    + intros m m'. apply is_mat_map2.
    + unfold map3. apply (is_tensor3_map _ b c p); [|exact Hu].
      intros m. apply is_mat_map.
  - pose proof (torch_rand_shape b c p logits (default_generator world) H)
      as Hu.
    destruct (torch_rand logits (default_generator world)) as [u g'].
    cbn [fst] in *.
    apply (is_tensor3_map2 _ b c c c p); [| |exact H].
    + intros m m'. apply is_mat_map2.
    + unfold map3. apply (is_tensor3_map _ b c p); [|exact Hu].
      intros m. apply is_mat_map.
Qed.

Lemma argmax_from_range (xs : list F) (best : Z) (vbest : F) (i lo : Z) :
  (lo <= best < i)%Z ->
  (lo <= argmax_from best vbest i xs < i + Z.of_nat (length xs))%Z.
Proof.
  revert best vbest i. induction xs as [|x xs IH]; intros best vbest i H.
  - cbn [argmax_from length]. lia.
  - cbn [argmax_from length]. destruct (fgtb x vbest).
    + specialize (IH i x (i + 1)%Z). lia.
    + specialize (IH best vbest (i + 1)%Z). lia.
Qed.

Lemma argmax_column_chosen (col : list F) :
  col <> [] -> argmax_column col = Ok (chosen col).
Proof. destruct col; [congruence | reflexivity]. Qed.

Lemma chosen_range (col : list F) :
  col <> [] -> (0 <= chosen col < Z.of_nat (length col))%Z.
Proof.
  destruct col as [|x xs]; [congruence|]. intros _. cbn [chosen length].
  pose proof (argmax_from_range xs 0 x 1 0). lia.
Qed.

Lemma argmax_dim1_shape (b c p : nat) (t : tensor3) :
  is_tensor3 b (S c) p t ->
  exists x,
    argmax_dim1 t = Ok x /\ is_mat b p x /\
    Forall (Forall (fun v => (0 <= v < Z.of_nat (S c))%Z)) x.
Proof.
  intros [Hl Hm].
  exists (map (fun m => map chosen (transpose (width m) m)) t).
  rewrite Forall_forall in Hm.
  assert (Hcols : forall m, In m t ->
            Forall (fun col => length col = S c) (transpose (width m) m) /\
            length (transpose (width m) m) = p).
  { intros m Hin. specialize (Hm m Hin).
    rewrite (width_is_mat c p m Hm).
    destruct (transpose_shape (S c) p m Hm) as [H1 H2]. auto. }
  split; [|split].
  - unfold argmax_dim1. apply mapM_id_Ok. intros m Hin.
    destruct (Hcols m Hin) as [Hc _].
    pose proof (Hm m Hin) as [Hlm _].
    destruct m as [|r m']; [discriminate|].
    apply mapM_id_Ok. intros col Hcol.
    apply argmax_column_chosen. rewrite Forall_forall in Hc.
    specialize (Hc col Hcol). destruct col; [discriminate | congruence].
  - split; [now rewrite length_map|].
    apply Forall_map. apply Forall_forall. intros m Hin.
    rewrite length_map. apply Hcols. exact Hin.
  - apply Forall_map. apply Forall_forall. intros m Hin.
    apply Forall_map. destruct (Hcols m Hin) as [Hc _].
    revert Hc. apply Forall_impl. intros col Hcol.
    rewrite <- Hcol. apply chosen_range.
    destruct col; [discriminate | congruence].
Qed.

Lemma step_of_posterior (self : VQDiffusionScheduler F) (b c p : nat)
    (log_p_x_0 post : tensor3) (t : Z) (x_t : long2)
    (generator : option Generator) (return_dict : bool) (world : Rng) :
  step_posterior self log_p_x_0 t x_t = Ok post ->
  is_tensor3 b (S c) p post ->
  exists x g' w',
    step self log_p_x_0 t x_t generator return_dict world
    = Ok (step_output return_dict x, g', w') /\
    is_mat b p x /\
    Forall (Forall (fun v => (0 <= v < Z.of_nat (S c))%Z)) x.
Proof.
  intros Hpost Hs. unfold step. rewrite Hpost. cbn [bind].
  pose proof (gumbel_noised_shape b (S c) p post generator world Hs) as Hn.
  destruct (gumbel_noised post generator world) as [[noised g'] w'].
  cbn [fst] in Hn.
  destruct (argmax_dim1_shape b c p noised Hn) as (x & Hx & Hmat & Hr).
  exists x, g', w'. rewrite Hx. cbn [bind]. unfold step_output.
  split; [|split; assumption].
  destruct return_dict; reflexivity.
Qed.

(** X9.  On the documented shapes, for a scheduler of at least two
    classes whose tables have the sizes of [T] timesteps and a timestep
    [0 <= t < T], [step] returns a sample of the shape of [x_t] whose
    classes lie in [0, num_embed); at [t = 0] they lie in
    [0, num_embed - 1), so the final sample never holds the mask
    class. *)
Theorem step_sample_in_range (self : VQDiffusionScheduler F) (T b p : nat)
    (log_p_x_0 : tensor3) (t : Z) (x_t : long2)
    (generator : option Generator) (return_dict : bool) (world : Rng) :
  (2 <= num_embed self)%Z ->
  well_sized self T ->
  (0 <= t < Z.of_nat T)%Z ->
  is_mat b p x_t ->
  Forall (Forall (fun v => (0 <= v < num_embed self)%Z)) x_t ->
  is_tensor3 b (Z.to_nat (num_embed self - 1)) p log_p_x_0 ->
  exists x_t_min_1 generator' world',
    step self log_p_x_0 t x_t generator return_dict world
    = Ok (step_output return_dict x_t_min_1, generator', world') /\
    is_mat b p x_t_min_1 /\
    Forall (Forall (fun v =>
                      (0 <= v < (if (t =? 0)%Z then num_embed self - 1
                                 else num_embed self))%Z)) x_t_min_1.
Proof.
  intros HN Hw Ht Hx Hrange Hp0.
  destruct (Z.eqb_spec t 0) as [E|E].
  - destruct (Z.to_nat (num_embed self - 1)) as [|k] eqn:EK; [lia|].
    destruct (step_of_posterior self b k p log_p_x_0 log_p_x_0 t x_t
                generator return_dict world) as (x & g' & w' & Hs & Hm & Hr).
    { unfold step_posterior. subst t. reflexivity. }
    { exact Hp0. }
    exists x, g', w'. split; [exact Hs|]. split; [exact Hm|].
    replace (num_embed self - 1)%Z with (Z.of_nat (S k)) by lia. exact Hr.
  - destruct (q_posterior_on_documented_shapes self T b p log_p_x_0 x_t t
                HN Hw Ht Hx
                Hrange Hp0) as (post & Hpost & Hps).
    destruct (Z.to_nat (num_embed self)) as [|k] eqn:EK; [lia|].
    destruct (step_of_posterior self b k p log_p_x_0 post t x_t
                generator return_dict world) as (x & g' & w' & Hs & Hm & Hr).
    { unfold step_posterior.
      replace (t =? 0)%Z with false by (symmetry; apply Z.eqb_neq; exact E).
      exact Hpost. }
    { exact Hps. }
    exists x, g', w'. split; [exact Hs|]. split; [exact Hm|].
    replace (num_embed self) with (Z.of_nat (S k)) by lia. exact Hr.
Qed.

(** [step] at a timestep other than zero starts by encoding [x_t]. *)
Lemma step_posterior_encodes (self : VQDiffusionScheduler F)
    (log_p_x_0 : tensor3) (t : Z) (x_t : long2) :
  t <> 0%Z ->
  step_posterior self log_p_x_0 t x_t
  = (log_onehot_x_t <- index_to_log_onehot x_t (num_embed self) ;;
     log_q_x_t_given_x_0 <-
       log_Q_t_transitioning_to_known_class self t x_t log_onehot_x_t true ;;
     log_q_t_given_x_t_min_1 <-
       log_Q_t_transitioning_to_known_class self t x_t log_onehot_x_t false ;;
     q <- zip3 fsub log_p_x_0 log_q_x_t_given_x_0 ;;
     q' <- broadcast_dim1 fsub q (logsumexp_dim1 q) ;;
     q'' <- apply_cumulative_transitions self q' (t - 1) ;;
     s <- zip3 fadd q'' log_q_t_given_x_t_min_1 ;;
     broadcast_dim1 fadd s (logsumexp_dim1 q)).
Proof.
  intros Ht. unfold step_posterior, q_posterior.
  replace (t =? 0)%Z with false by (symmetry; apply Z.eqb_neq; exact Ht).
  destruct (index_to_log_onehot x_t (num_embed self)); [|reflexivity].
  cbn [bind].
  destruct (log_Q_t_transitioning_to_known_class self t x_t a true);
    [|reflexivity].
  cbn [bind].
  destruct (log_Q_t_transitioning_to_known_class self t x_t a false);
    [|reflexivity].
  cbn [bind]. destruct (zip3 fsub log_p_x_0 a0); [|reflexivity].
  cbn [bind].
  destruct (broadcast_dim1 fsub a2 (logsumexp_dim1 a2)); [|reflexivity].
  cbn [bind].
  destruct (apply_cumulative_transitions self a3 (t - 1)); [|reflexivity].
  cbn [bind]. destruct (zip3 fadd a4 a1); [|reflexivity]. cbn [bind].
  destruct (broadcast_dim1 fadd a5 (logsumexp_dim1 a2)); reflexivity.
Qed.


(** Past the end of the per-step tables [step] fails on a lookup. *)
Lemma step_beyond_tables (self : VQDiffusionScheduler F) (T b p : nat)
    (log_p_x_0 : tensor3) (t : Z) (x_t : long2)
    (generator : option Generator) (return_dict : bool) (world : Rng) :
  (1 <= num_embed self)%Z ->
  well_sized self T ->
  (Z.of_nat T <= t)%Z -> t <> 0%Z ->
  is_mat b p x_t ->
  Forall (Forall (fun v => (0 <= v < num_embed self)%Z)) x_t ->
  step self log_p_x_0 t x_t generator return_dict world = Raise IndexError.
Proof.
  intros HN Hw Ht Ht0 Hx Hrange. unfold step.
  rewrite (step_posterior_encodes self log_p_x_0 t x_t Ht0).
  destruct (index_to_log_onehot_shape b p x_t (num_embed self) Hx Hrange)
    as (log_onehot & Hoh & Hohs).
  rewrite Hoh. cbn [bind].
  destruct Hw as (H1 & H2 & H3 & H4 & H5 & H6).
  assert (Hper : log_Q_t_transitioning_to_known_class self t x_t log_onehot
                   false = Raise IndexError).
  { unfold log_Q_t_transitioning_to_known_class.
    rewrite (py_index_out_of_range (log_at self) t) by lia. reflexivity. }
  destruct (Z.eq_dec t (Z.of_nat T)) as [E|E].
  - destruct (py_index_in_range (log_cumprod_at self) t) as [a Ha]; [lia|].
    destruct (py_index_in_range (log_cumprod_bt self) t) as [b0 Hb]; [lia|].
    destruct (py_index_in_range (log_cumprod_ct self) t) as [c Hc]; [lia|].
    destruct (returns_on_documented_shapes self HN b p t x_t log_onehot
                true a b0 c Hx Hohs Ha Hb Hc) as (qc & Hqc & _).
    rewrite Hqc. cbn [bind]. rewrite Hper. reflexivity.
  - unfold log_Q_t_transitioning_to_known_class at 1.
    rewrite (py_index_out_of_range (log_cumprod_at self) t) by lia.
    reflexivity.
Qed.

End StepSample.

(** ** The scheduler over the exact runtime *)

Module ExactScheduler.

Import Exact.

Lemma q_posterior_shape_witness :
  exists self : VQDiffusionScheduler tfloat,
    default_scheduler 3 2 = Ok self /\
    exists log_p_x_t_min_1 : tensor3,
      q_posterior (RT := RealRuntime) self [[[TFin 0]; [TFin 0]]] [[2%Z]] 1
      = Ok log_p_x_t_min_1 /\
      is_tensor3 1 3 1 log_p_x_t_min_1.
Proof.
  eexists. split; [reflexivity|].
  match goal with
  | |- exists r, q_posterior ?s _ _ _ = _ /\ _ =>
      exact (q_posterior_shape (RT := RealRuntime) s 2 1 1
               [[[TFin 0]; [TFin 0]]] [[2%Z]] 1
               ltac:(cbn; lia)
               ltac:(unfold well_sized; cbn; repeat split; reflexivity)
               ltac:(lia)
               ltac:(split; [reflexivity | repeat constructor])
               ltac:(repeat (constructor; try (cbn; lia)))
               ltac:(split; [reflexivity | repeat constructor]))
  end.
Defined.

Lemma step_sample_in_range_witness :
  exists self : VQDiffusionScheduler tfloat,
    default_scheduler 3 2 = Ok self /\
    exists (x_t_min_1 : long2) (generator' : option Z)
           (world' : @Rng RealRuntime),
      step (RT := RealRuntime) self [[[TFin 0]; [TFin 0]]] 1 [[2%Z]]
           (Some 0%Z) true (@Build_Rng RealRuntime 0%Z)
      = Ok (step_output true x_t_min_1, generator', world') /\
      is_mat 1 1 x_t_min_1 /\
      Forall (Forall (fun v => (0 <= v < 3)%Z)) x_t_min_1.
Proof.
  eexists. split; [reflexivity|].
  match goal with
  | |- exists x g w, step ?s _ _ _ _ _ _ = _ /\ _ =>
      exact (step_sample_in_range (RT := RealRuntime) s 2 1 1
               [[[TFin 0]; [TFin 0]]] 1 [[2%Z]] (Some 0%Z) true
               (@Build_Rng RealRuntime 0%Z)
               ltac:(cbn; lia)
               ltac:(unfold well_sized; cbn; repeat split; reflexivity)
               ltac:(lia)
               ltac:(split; [reflexivity | repeat constructor])
               ltac:(repeat (constructor; try (cbn; lia)))
               ltac:(split; [reflexivity | repeat constructor]))
  end.
Defined.

(** X11.  [set_timesteps] accepts more inference steps than the scheduler
    has training timesteps, and the schedule it leaves then starts at a
    timestep past the end of the tables: the first call of [step] raises
    [IndexError]. *)
Theorem oversized_schedule_fails_at_first_step (N T : Z)
    (a_s a_e c_s c_e : Qc) (n : Z) (b p : nat) (log_p_x_0 : tensor3)
    (x_t : long2) (generator : option Z) (return_dict : bool)
    (world : @Rng RealRuntime) :
  (1 <= N)%Z -> (T < n)%Z -> (2 <= n)%Z ->
  is_mat b p x_t ->
  Forall (Forall (fun v => (0 <= v < N)%Z)) x_t ->
  exists s,
    VQDiffusionScheduler__init__ N T a_s a_e c_s c_e = Ok s /\
    py_index (timesteps (set_timesteps s n)) 0 = Ok (n - 1)%Z /\
    step (RT := RealRuntime) (set_timesteps s n) log_p_x_0 (n - 1) x_t
         generator return_dict world
    = Raise IndexError.
Proof.
  intros HN HT Hn Hx Hrange.
  destruct (init_built N T a_s a_e c_s c_e) as [s Hs].
  destruct (init_well_sized _ _ _ _ _ _ _ Hs) as (Hw & _ & HNs & _).
  exists s. split; [exact Hs|]. split.
  - cbn [set_timesteps timesteps]. rewrite py_index_rev_arange by lia.
    f_equal. lia.
  - apply (step_beyond_tables (RT := RealRuntime) (set_timesteps s n)
             (Z.to_nat T) b p).
    + cbn [set_timesteps num_embed]. lia.
    + apply set_timesteps_well_sized. exact Hw.
    + lia.
    + lia.
    + exact Hx.
    + cbn [set_timesteps num_embed]. rewrite HNs. exact Hrange.
Qed.

Lemma oversized_schedule_fails_at_first_step_witness :
  exists s,
    VQDiffusionScheduler__init__ 3 2 default_a_cumulative_start
      default_a_cumulative_end default_c_cumulative_start
      default_c_cumulative_end = Ok s /\
    py_index (timesteps (set_timesteps s 5)) 0 = Ok (5 - 1)%Z /\
    step (RT := RealRuntime) (set_timesteps s 5) [[[TFin 0]; [TFin 0]]]
         (5 - 1) [[2%Z]] None true (@Build_Rng RealRuntime 0%Z)
    = Raise IndexError.
Proof.
  apply (oversized_schedule_fails_at_first_step 3 2 _ _ _ _ 5 1 1).
  - lia.
  - lia.
  - lia.
  - split; [reflexivity | repeat constructor].
  - repeat (constructor; try lia).
Defined.

(** *** The entry appended to the cumulative tables *)

Lemma tadd_0_r (x : tfloat) : tadd x (TFin 0) = x.
Proof. destruct x; cbn; try reflexivity. f_equal. lra. Qed.

Lemma tlogaddexp_ninf_r (x : tfloat) : tlogaddexp x TNInf = x.
Proof. destruct x; reflexivity. Qed.

Lemma torch_log_1 : torch_log (Fin 1%Qc) = TFin 0.
Proof.
  unfold torch_log. replace (sgn 1%Qc) with Gt by reflexivity.
  rewrite Q2R_Qc_1, ln_1. reflexivity.
Qed.

Lemma torch_log_0 : torch_log (Fin 0%Qc) = TNInf.
Proof. reflexivity. Qed.

Lemma map2_diag {A B : Type} (f : A -> A -> B) (xs : list A) :
  map2 f xs xs = map (fun x => f x x) xs.
Proof. induction xs as [|x xs IH]; cbn; congruence. Qed.

Lemma map3_ext_id {A : Type} (f : A -> A) (t : list (list (list A))) :
  (forall v, f v = v) -> map3 f t = t.
Proof.
  intros H. unfold map3.
  rewrite (map_ext _ (fun m : list (list A) => m)); [apply map_id|].
  intros m. rewrite (map_ext _ (fun r : list A => r)); [apply map_id|].
  intros r. rewrite (map_ext _ (fun v : A => v)); [apply map_id|].
  exact H.
Qed.

Lemma beta_after_last (k : Z) :
  k <> 0%Z ->
  torch_log (div (sub (sub (Fin 1%Qc) (Fin 1%Qc)) (Fin 0%Qc)) (of_Z k))
  = TNInf.
Proof.
  intros Hk. unfold of_Z, sub. cbn [neg add].
  rewrite div_Fin by (apply of_Z_nonzero; exact Hk).
  match goal with
  | |- torch_log (Fin ?q) = _ => replace q with 0%Qc
  end.
  - apply torch_log_0.
  - symmetry. unfold Qcdiv. ring.
Qed.

(** X12.  The entry that construction appends to the cumulative tables,
    which index [-1] reads, is [log 1] for alpha and [log 0] for gamma
    and, unless [num_embed = 1], for beta.  With it,
    [apply_cumulative_transitions] at [t = -1] (the step before the
    first one) leaves [q] unchanged and appends a mask channel of
    probability zero. *)
Theorem cumulative_transitions_before_origin (N T : Z)
    (a_s a_e c_s c_e : Qc) (q : tensor3) :
  N <> 1%Z ->
  exists s,
    VQDiffusionScheduler__init__ N T a_s a_e c_s c_e = Ok s /\
    py_index (log_cumprod_at s) (-1) = Ok (TFin 0) /\
    py_index (log_cumprod_bt s) (-1) = Ok TNInf /\
    py_index (log_cumprod_ct s) (-1) = Ok TNInf /\
    apply_cumulative_transitions (RT := RealRuntime) s q (-1)
    = Ok (map (fun m => m ++ [repeat TNInf (width m)]) q).
Proof.
  intros HN.
  destruct (init_built N T a_s a_e c_s c_e) as [s Hs].
  exists s. split; [exact Hs|].
  assert (Ha : py_index (log_cumprod_at s) (-1) = Ok (TFin 0) /\
               py_index (log_cumprod_bt s) (-1) = Ok TNInf /\
               py_index (log_cumprod_ct s) (-1) = Ok TNInf).
  { revert Hs. unfold VQDiffusionScheduler__init__.
    pose proof (alpha_schedules_length T a_s a_e) as [_ La].
    pose proof (gamma_schedules_length T c_s c_e) as [_ Lc].
    pose proof (cumulative_schedules_sentinel T a_s a_e c_s c_e) as [Sa Sc].
    destruct (alpha_schedules _ _ _) as [at_ att].
    destruct (gamma_schedules _ _ _) as [ct ctt].
    cbn [fst snd] in *. intros [= <-].
    cbn [log_cumprod_at log_cumprod_bt log_cumprod_ct].
    split; [|split].
    - rewrite (py_index_map torch_log att (-1) _ Sa). f_equal.
      apply torch_log_1.
    - unfold beta_schedule.
      rewrite (py_index_map torch_log _ (-1) _
                 (py_index_map2 _ att ctt (-1) _ _ ltac:(congruence) Sa Sc)).
      f_equal. apply beta_after_last. lia.
    - rewrite (py_index_map torch_log ctt (-1) _ Sc). f_equal. }
  destruct Ha as (Ha & Hb & Hc).
  split; [exact Ha|]. split; [exact Hb|]. split; [exact Hc|].
  unfold apply_cumulative_transitions.
  change (@F RealRuntime) with tfloat. rewrite Ha, Hb, Hc. cbn [bind].
  f_equal.
  rewrite map3_ext_id; [apply map2_diag|].
  intros v. cbn [logaddexp fadd RealRuntime].
  rewrite tadd_0_r. apply tlogaddexp_ninf_r.
Qed.

Lemma cumulative_transitions_before_origin_witness :
  exists s,
    VQDiffusionScheduler__init__ 3 2 default_a_cumulative_start
      default_a_cumulative_end default_c_cumulative_start
      default_c_cumulative_end = Ok s /\
    py_index (log_cumprod_at s) (-1) = Ok (TFin 0) /\
    py_index (log_cumprod_bt s) (-1) = Ok TNInf /\
    py_index (log_cumprod_ct s) (-1) = Ok TNInf /\
    apply_cumulative_transitions (RT := RealRuntime) s
      [[[TFin 1; TFin 2]]] (-1)
    = Ok (map (fun m => m ++ [repeat TNInf (width m)])
              [[[TFin 1; TFin 2]]]).
Proof.
  apply (cumulative_transitions_before_origin 3 2).
  lia.
Defined.

End ExactScheduler.

(** ** The entries of the transition rows *)

Lemma entry3_map2_3 {A B C : Type} (f : A -> B -> C)
    (s : list (list (list A))) (t : list (list (list B)))
    (i c j : nat) (x : A) (y : B) :
  entry3 s i c j = Some x -> entry3 t i c j = Some y ->
  entry3 (map2 (map2 (map2 f)) s t) i c j = Some (f x y).
Proof.
  unfold entry3, entry2. intros Hs Ht.
  destruct (nth_error s i) as [m|] eqn:Em; [|discriminate].
  destruct (nth_error t i) as [m'|] eqn:Em'; [|discriminate].
  rewrite (nth_error_map2 _ s t i m m' Em Em').
  destruct (nth_error m c) as [r|] eqn:Er; [|discriminate].
  destruct (nth_error m' c) as [r'|] eqn:Er'; [|discriminate].
  rewrite (nth_error_map2 _ m m' c r r' Er Er').
  apply nth_error_map2; assumption.
Qed.

Lemma nth_error_removelast {A : Type} (xs : list A) (n : nat) :
  (S n < length xs)%nat -> nth_error (removelast xs) n = nth_error xs n.
Proof.
  intros H. rewrite removelast_firstn_len, nth_error_firstn.
  replace (n <? pred (length xs))%nat with true
    by (symmetry; apply Nat.ltb_lt; lia).
  reflexivity.
Qed.

Lemma entry3_mask (x_t : list (list Z)) (k : nat) (f : Z -> bool)
    (i ch j : nat) (v : Z) :
  entry2 x_t i j = Some v -> (ch < k)%nat ->
  entry3 (map (fun r => repeat r k) (map (map f) x_t)) i ch j = Some (f v).
Proof.
  unfold entry3, entry2. intros Hv Hch. rewrite !nth_error_map.
  destruct (nth_error x_t i) as [r|]; [|discriminate].
  cbn [option_map]. rewrite nth_error_repeat by exact Hch.
  rewrite nth_error_map, Hv. reflexivity.
Qed.

Lemma is_tensor3_nth {A : Type} (b c p : nat) (t : list (list (list A)))
    (i : nat) (m : list (list A)) :
  is_tensor3 b c p t -> nth_error t i = Some m -> is_mat c p m.
Proof.
  intros [_ H] E. rewrite Forall_forall in H. apply H.
  apply nth_error_In with (n := i). exact E.
Qed.

Lemma entry3_drop_last {A : Type} (b n p : nat) (t : list (list (list A)))
    (i ch j : nat) :
  is_tensor3 b (S n) p t -> (ch < n)%nat ->
  entry3 (map (@removelast _) t) i ch j = entry3 t i ch j.
Proof.
  intros Ht Hch. unfold entry3. rewrite nth_error_map.
  destruct (nth_error t i) as [m|] eqn:E; [|reflexivity].
  cbn [option_map]. unfold entry2.
  destruct (is_tensor3_nth b (S n) p t i m Ht E) as [Hl _].
  rewrite nth_error_removelast by lia. reflexivity.
Qed.

Lemma mapM_nth {A B : Type} (f : A -> result B) (xs : list A)
    (ys : list B) (i : nat) (x : A) :
  mapM f xs = Ok ys -> nth_error xs i = Some x ->
  exists y, nth_error ys i = Some y /\ f x = Ok y.
Proof.
  revert ys i. induction xs as [|x0 xs IH]; intros ys i H Hx.
  - destruct i; discriminate.
  - cbn [mapM] in H. destruct (f x0) as [y0|] eqn:E0; [|discriminate].
    cbn [bind] in H. destruct (mapM f xs) as [ys'|]; [|discriminate].
    cbn [bind] in H. injection H as <-. destruct i as [|i].
    + injection Hx as <-. exists y0. split; [reflexivity | exact E0].
    + cbn [nth_error] in *. apply (IH ys' i eq_refl Hx).
Qed.

Section TransitionEntries.

Context {RT : TensorRuntime}.

Variable self : VQDiffusionScheduler F.

Local Abbreviation N := (Z.to_nat (num_embed self)).
Local Abbreviation K := (Z.to_nat (num_embed self - 1)).

(** The tensor that [log_Q_t_transitioning_to_known_class] returns on the
    documented shapes, written out. *)
Lemma log_Q_t_closed (b p : nat) (t : Z) (x_t : long2)
    (log_onehot_x_t : tensor3) (cumulative : bool) (a_t b_t c_t : F) :
  (1 <= num_embed self)%Z ->
  is_mat b p x_t ->
  is_tensor3 b N p log_onehot_x_t ->
  py_index (if cumulative then log_cumprod_at self else log_at self) t
  = Ok a_t ->
  py_index (if cumulative then log_cumprod_bt self else log_bt self) t
  = Ok b_t ->
  py_index (if cumulative then log_cumprod_ct self else log_ct self) t
  = Ok c_t ->
  exists q,
    q = map2 (map2 (map2 (fun (m : bool) v => if m then c_t else v)))
          (map (fun r => repeat r K)
               (map (map (fun v => (v =? mask_class self)%Z)) x_t))
          (map3 (fun v => logaddexp (fadd v a_t) b_t)
                (drop_last_channel log_onehot_x_t)) /\
    is_tensor3 b K p q /\
    if cumulative
    then log_Q_t_transitioning_to_known_class self t x_t log_onehot_x_t true
         = Ok q
    else exists saved,
        last_channel log_onehot_x_t = Ok saved /\
        is_tensor3 b 1 p saved /\
        log_Q_t_transitioning_to_known_class self t x_t log_onehot_x_t false
        = Ok (map2 (@app _) q saved).
Proof.
  intros HN Hx Hoh Ha Hb Hc.
  pose proof (mask_shape self b p x_t Hx) as Hmask.
  pose proof (body_shape self HN b p a_t b_t log_onehot_x_t Hoh) as Hbody.
  eexists. split; [reflexivity|].
  assert (Hq : is_tensor3 b K p
            (map2 (map2 (map2 (fun (m : bool) (v : F) => if m then c_t else v)))
               (map (fun r => repeat r K)
                    (map (map (fun v => (v =? mask_class self)%Z)) x_t))
               (map3 (fun v => logaddexp (fadd v a_t) b_t)
                     (drop_last_channel log_onehot_x_t)))).
  { apply (is_tensor3_map2 _ b K K K p); [|exact Hmask|exact Hbody].
    intros m m'. apply is_mat_map2. }
  split; [exact Hq|].
  unfold log_Q_t_transitioning_to_known_class.
  destruct cumulative; cbn [negb] in *.
  - rewrite Ha, Hb, Hc. cbn [bind].
    rewrite (expand_dim1_known self HN). cbn [bind].
    unfold masked_assign.
    rewrite (same_shape3_true b K p _ _ Hmask Hbody). reflexivity.
  - rewrite (N_is_S_K self HN) in Hoh.
    destruct (last_channel_known b K p _ Hoh) as (saved & Hsaved & Hss).
    exists saved. split; [exact Hsaved|]. split; [exact Hss|].
    rewrite Ha, Hb, Hc. cbn [bind]. rewrite Hsaved. cbn [bind].
    rewrite (expand_dim1_known self HN). cbn [bind].
    unfold masked_assign.
    rewrite (same_shape3_true b K p _ _ Hmask Hbody). cbn [bind].
    destruct (cat_dim1_known b K p _ saved Hq Hss) as [Hcat _].
    exact Hcat.
Qed.

Lemma entry3_cat_front (b k p : nat) (q saved : tensor3) (i ch j : nat) :
  is_tensor3 b k p q -> is_tensor3 b 1 p saved -> (ch < k)%nat ->
  entry3 (map2 (@app _) q saved) i ch j = entry3 q i ch j.
Proof.
  intros Hq Hs Hch. unfold entry3.
  destruct (nth_error q i) as [m|] eqn:Em.
  - destruct (nth_error saved i) as [m'|] eqn:Em'.
    + rewrite (nth_error_map2 _ q saved i m m' Em Em'). unfold entry2.
      destruct (is_tensor3_nth b k p q i m Hq Em) as [Hl _].
      rewrite nth_error_app1 by lia. reflexivity.
    + apply nth_error_None in Em'.
      assert (i < length q)%nat by (apply nth_error_Some; congruence).
      destruct Hq as [Hlq _], Hs as [Hls _]. lia.
  - destruct (nth_error (map2 (@app _) q saved) i) as [m|] eqn:E;
      [|reflexivity].
    apply nth_error_map2_inv in E as (x & y & Ex & _). congruence.
Qed.

(** The entries of the transition rows, one by one. *)
Lemma transition_entries_on_documented_shapes (b p : nat) (t : Z) (x_t : long2)
    (log_onehot_x_t : tensor3) (cumulative : bool) (a_t b_t c_t : F) :
  (1 <= num_embed self)%Z ->
  is_mat b p x_t ->
  is_tensor3 b N p log_onehot_x_t ->
  py_index (if cumulative then log_cumprod_at self else log_at self) t
  = Ok a_t ->
  py_index (if cumulative then log_cumprod_bt self else log_bt self) t
  = Ok b_t ->
  py_index (if cumulative then log_cumprod_ct self else log_ct self) t
  = Ok c_t ->
  exists log_Q_t,
    log_Q_t_transitioning_to_known_class self t x_t log_onehot_x_t cumulative
    = Ok log_Q_t /\
    (forall (i ch j : nat) (v : Z) (l : F),
       entry2 x_t i j = Some v ->
       entry3 log_onehot_x_t i ch j = Some l ->
       (ch < K)%nat ->
       entry3 log_Q_t i ch j
       = Some (if (v =? mask_class self)%Z then c_t
               else logaddexp (fadd l a_t) b_t)) /\
    (cumulative = false ->
     forall (i j : nat) (l : F),
       entry3 log_onehot_x_t i K j = Some l ->
       entry3 log_Q_t i K j = Some l).
Proof.
  intros HN Hx Hoh Ha Hb Hc.
  destruct (log_Q_t_closed b p t x_t log_onehot_x_t cumulative a_t b_t c_t
              HN Hx Hoh Ha Hb Hc) as (q & Eq & Hq & Hres).
  assert (Hentry : forall (i ch j : nat) (v : Z) (l : F),
            entry2 x_t i j = Some v ->
            entry3 log_onehot_x_t i ch j = Some l ->
            (ch < K)%nat ->
            entry3 q i ch j
            = Some (if (v =? mask_class self)%Z then c_t
                    else logaddexp (fadd l a_t) b_t)).
  { intros i ch j v l Hv Hl Hch. rewrite Eq.
    apply (entry3_map2_3 (fun (m : bool) (v : F) => if m then c_t else v)).
    - exact (entry3_mask x_t K (fun v => (v =? mask_class self)%Z)
               i ch j v Hv Hch).
    - rewrite entry3_map3. unfold drop_last_channel.
      rewrite (N_is_S_K self HN) in Hoh.
      rewrite (entry3_drop_last b K p _ i ch j Hoh Hch), Hl. reflexivity. }
  destruct cumulative.
  - exists q. split; [exact Hres|]. split; [exact Hentry|]. discriminate.
  - destruct Hres as (saved & Hsaved & Hss & Hres).
    exists (map2 (@app _) q saved). split; [exact Hres|]. split.
    + intros i ch j v l Hv Hl Hch.
      rewrite (entry3_cat_front b K p q saved i ch j Hq Hss Hch).
      apply Hentry; assumption.
    + intros _ i j l Hl. unfold entry3 in *.
      destruct (nth_error log_onehot_x_t i) as [m|] eqn:Em; [|discriminate].
      destruct (mapM_nth _ _ _ i m Hsaved Em) as (s & Es & Hs).
      assert (Hi : (i < length q)%nat).
      { destruct Hq as [Hlq _], Hoh as [Hlo _].
        assert (i < length log_onehot_x_t)%nat
          by (apply nth_error_Some; congruence).
        lia. }
      destruct (nth_error q i) as [qi|] eqn:Eqi;
        [|apply nth_error_None in Eqi; lia].
      rewrite (nth_error_map2 _ q saved i qi s Eqi Es).
      destruct (is_tensor3_nth b K p q i qi Hq Eqi) as [Hlqi _].
      rewrite (N_is_S_K self HN) in Hoh.
      destruct (is_tensor3_nth b (S K) p _ i m Hoh Em) as [Hlm _].
      destruct (py_index m (-1)) as [r|] eqn:Er; [|discriminate].
      cbn [bind] in Hs. injection Hs as <-.
      apply py_index_Ok_inv in Er. cbv zeta in Er.
      replace (-1 <? 0)%Z with true in Er by reflexivity.
      destruct Er as [_ Er].
      replace (Z.to_nat (-1 + Z.of_nat (length m))) with K in Er by lia.
      unfold entry2 in *. rewrite Er in Hl.
      rewrite nth_error_app2 by lia.
      replace (K - length qi)%nat with 0%nat by lia.
      cbn [nth_error]. exact Hl.
Qed.

(** X13.  On the documented shapes,
    [log_Q_t_transitioning_to_known_class] returns a tensor whose entry
    for a pixel of class [v] and a class [ch] other than the mask class
    is the gamma [c] of the timestep when the pixel is masked, and
    [logaddexp(l + a, b)] otherwise, where [l] is the entry of the log
    one-hot tensor and [a], [b] the alpha and beta of the timestep.  In
    the non-cumulative case the row of the mask class is the one of the
    log one-hot tensor, unchanged. *)
Theorem transition_entries (b p : nat) (t : Z) (x_t : long2)
    (log_onehot_x_t : tensor3) (cumulative : bool) (a_t b_t c_t : F) :
  (1 <= num_embed self)%Z ->
  is_mat b p x_t ->
  is_tensor3 b N p log_onehot_x_t ->
  py_index (if cumulative then log_cumprod_at self else log_at self) t
  = Ok a_t ->
  py_index (if cumulative then log_cumprod_bt self else log_bt self) t
  = Ok b_t ->
  py_index (if cumulative then log_cumprod_ct self else log_ct self) t
  = Ok c_t ->
  exists log_Q_t,
    log_Q_t_transitioning_to_known_class self t x_t log_onehot_x_t cumulative
    = Ok log_Q_t /\
    (forall (i ch j : nat) (v : Z) (l : F),
       entry2 x_t i j = Some v ->
       entry3 log_onehot_x_t i ch j = Some l ->
       (ch < K)%nat ->
       entry3 log_Q_t i ch j
       = Some (if (v =? mask_class self)%Z then c_t
               else logaddexp (fadd l a_t) b_t)) /\
    (cumulative = false ->
     forall (i j : nat) (l : F),
       entry3 log_onehot_x_t i K j = Some l ->
       entry3 log_Q_t i K j = Some l).
Proof.
  apply transition_entries_on_documented_shapes.
Qed.

End TransitionEntries.

(** ** Transition probabilities over the exact runtime *)

Module ExactTransitions.

Import Exact.

Lemma transition_entries_witness :
  exists self : VQDiffusionScheduler tfloat,
    default_scheduler 3 2 = Ok self /\
    exists (a_t b_t c_t : tfloat) (log_Q_t : tensor3),
      py_index (log_at self) 1 = Ok a_t /\
      py_index (log_bt self) 1 = Ok b_t /\
      py_index (log_ct self) 1 = Ok c_t /\
      log_Q_t_transitioning_to_known_class (RT := RealRuntime) self 1
        [[0; 2]]%Z
        [[[TFin 0; TFin 1]; [TFin 2; TFin 3]; [TFin 4; TFin 5]]] false
      = Ok log_Q_t /\
      (forall (i ch j : nat) (v : Z) (l : tfloat),
         entry2 [[0; 2]]%Z i j = Some v ->
         entry3 [[[TFin 0; TFin 1]; [TFin 2; TFin 3]; [TFin 4; TFin 5]]]
                i ch j = Some l ->
         (ch < 2)%nat ->
         entry3 log_Q_t i ch j
         = Some (if (v =? 2)%Z then c_t
                 else tlogaddexp (tadd l a_t) b_t)) /\
      (false = false ->
       forall (i j : nat) (l : tfloat),
         entry3 [[[TFin 0; TFin 1]; [TFin 2; TFin 3]; [TFin 4; TFin 5]]]
                i 2 j = Some l ->
         entry3 log_Q_t i 2 j = Some l).
Proof.
  eexists. split; [reflexivity|].
  eexists. eexists. eexists.
  match goal with
  | |- exists q, _ /\ _ /\ _ /\
         log_Q_t_transitioning_to_known_class ?s _ _ _ _ = _ /\ _ =>
      destruct (transition_entries (RT := RealRuntime) s 1 2 1 [[0; 2]]%Z
                  [[[TFin 0; TFin 1]; [TFin 2; TFin 3]; [TFin 4; TFin 5]]]
                  false _ _ _
                  ltac:(cbn; lia)
                  ltac:(split; [reflexivity | repeat constructor])
                  ltac:(split; [reflexivity | repeat constructor])
                  eq_refl eq_refl eq_refl)
        as (log_Q_t & Hq & Hentries & Hlast)
  end.
  exists log_Q_t.
  split; [reflexivity|]. split; [reflexivity|]. split; [reflexivity|].
  split; [exact Hq|]. split; [exact Hentries | exact Hlast].
Defined.

Lemma exp_hot (la lb : R) :
  exp (ln (exp (0 + la) + exp lb)) = (1 * exp la + exp lb)%R.
Proof.
  pose proof (exp_pos (0 + la)). pose proof (exp_pos lb).
  rewrite exp_ln by lra. rewrite Rplus_0_l. lra.
Qed.

Lemma exp_cold (la lb : R) :
  exp (ln (exp (ln eps + la) + exp lb)) = (eps * exp la + exp lb)%R.
Proof.
  pose proof (exp_pos (ln eps + la)). pose proof (exp_pos lb).
  rewrite exp_ln by lra. rewrite exp_plus.
  rewrite exp_ln by apply ExactFacts.eps_pos. reflexivity.
Qed.

(** X14.  Over exact reals, with finite log-alpha [la] and log-beta [lb]
    at the timestep, the rows that
    [log_Q_t_transitioning_to_known_class] builds from the log one-hot
    encoding of [x_t] hold, for a pixel of class [v] and a class [ch]
    other than the mask class: the gamma of the timestep when the pixel
    is masked; the logarithm of [alpha + beta] when [v = ch]; and the
    logarithm of [1e-30 * alpha + beta] otherwise (the clamp of the
    one-hot vector leaves [1e-30 * alpha] on top of the [beta] that the
    source's comment names). *)
Theorem transition_probabilities (self : VQDiffusionScheduler tfloat)
    (b p : nat) (t : Z) (x_t : long2) (cumulative : bool) (la lb : R)
    (c_t : tfloat) :
  (1 <= num_embed self)%Z ->
  is_mat b p x_t ->
  Forall (Forall (fun v => (0 <= v < num_embed self)%Z)) x_t ->
  py_index (if cumulative then log_cumprod_at self else log_at self) t
  = Ok (TFin la) ->
  py_index (if cumulative then log_cumprod_bt self else log_bt self) t
  = Ok (TFin lb) ->
  py_index (if cumulative then log_cumprod_ct self else log_ct self) t
  = Ok c_t ->
  exists log_onehot_x_t log_Q_t : tensor3,
    index_to_log_onehot (RT := RealRuntime) x_t (num_embed self)
    = Ok log_onehot_x_t /\
    log_Q_t_transitioning_to_known_class (RT := RealRuntime) self t x_t
      log_onehot_x_t cumulative = Ok log_Q_t /\
    forall (i ch j : nat) (v : Z),
      entry2 x_t i j = Some v ->
      (ch < Z.to_nat (num_embed self - 1))%nat ->
      if (v =? mask_class self)%Z
      then entry3 log_Q_t i ch j = Some c_t
      else exists r : R,
          entry3 log_Q_t i ch j = Some (TFin r) /\
          exp r = ((if (v =? Z.of_nat ch)%Z then 1 else eps) * exp la
                   + exp lb)%R.
Proof.
  intros HN Hx Hrange Ha Hb Hc.
  destruct (index_to_log_onehot_shape (RT := RealRuntime) b p x_t _
              Hx Hrange) as (lo & Hoh & Hohs).
  pose proof (index_to_log_onehot_closed (RT := RealRuntime) x_t _ Hrange)
    as Hcl.
  rewrite Hoh in Hcl. injection Hcl as Hlo.
  destruct (transition_entries_on_documented_shapes (RT := RealRuntime)
              self b p t x_t lo cumulative (TFin la) (TFin lb) c_t
              HN Hx Hohs Ha Hb Hc) as (q & Hq & Hent & _).
  exists lo, q. split; [exact Hoh|]. split; [exact Hq|].
  intros i ch j v Hv Hch.
  assert (Hl : entry3 lo i ch j
               = Some (if (v =? Z.of_nat ch)%Z then TFin 0
                       else TFin (ln eps))).
  { rewrite Hlo.
    rewrite (log_onehot_entry (RT := RealRuntime) x_t _ i ch j v Hv)
      by lia.
    f_equal. apply ExactOneHot.log_hot_value. }
  change (@F RealRuntime) with tfloat in *.
  rewrite (Hent i ch j v _ Hv Hl Hch).
  destruct (v =? mask_class self)%Z; [reflexivity|].
  destruct (v =? Z.of_nat ch)%Z;
    cbn [logaddexp fadd RealRuntime tadd tlogaddexp];
    eexists; (split; [reflexivity|]).
  - apply exp_hot.
  - apply exp_cold.
Qed.

Lemma torch_log_Gt (q : Qc) :
  sgn q = Gt -> torch_log (Fin q) = TFin (ln (Q2R q)).
Proof. intros H. unfold torch_log. rewrite H. reflexivity. Qed.

(** The per-step tables of the default scheduler of three classes and two
    timesteps hold finite values at the last timestep. *)
Lemma default_3_2_reads :
  exists (s : VQDiffusionScheduler tfloat) (la lb lc : R),
    default_scheduler 3 2 = Ok s /\
    num_embed s = 3%Z /\ mask_class s = 2%Z /\
    py_index (log_at s) 1 = Ok (TFin la) /\
    py_index (log_bt s) 1 = Ok (TFin lb) /\
    py_index (log_ct s) 1 = Ok (TFin lc).
Proof.
  unfold default_scheduler, VQDiffusionScheduler__init__.
  destruct (alpha_schedules 2 default_a_cumulative_start
              default_a_cumulative_end) as [at_ att] eqn:Ealpha.
  destruct (gamma_schedules 2 default_c_cumulative_start
              default_c_cumulative_end) as [ct ctt] eqn:Egamma.
  assert (Eat : at_ = fst (alpha_schedules 2 default_a_cumulative_start
                             default_a_cumulative_end))
    by now rewrite Ealpha.
  assert (Ect : ct = fst (gamma_schedules 2 default_c_cumulative_start
                            default_c_cumulative_end))
    by now rewrite Egamma.
  assert (Ha : exists qa, nth_error at_ 1 = Some (Fin qa) /\ sgn qa = Gt).
  { rewrite Eat. eexists. split; vm_compute; reflexivity. }
  assert (Hc : exists qc, nth_error ct 1 = Some (Fin qc) /\ sgn qc = Gt).
  { rewrite Ect. eexists. split; vm_compute; reflexivity. }
  assert (Hb : exists qb, nth_error (beta_schedule (3 - 1) at_ ct) 1
                          = Some (Fin qb) /\ sgn qb = Gt).
  { rewrite Eat, Ect. eexists. split; vm_compute; reflexivity. }
  destruct Ha as (qa & Ha & Hqa), Hb as (qb & Hb & Hqb),
    Hc as (qc & Hc & Hqc).
  eexists. exists (ln (Q2R qa)), (ln (Q2R qb)), (ln (Q2R qc)).
  split; [reflexivity|]. cbn [log_at log_bt log_ct num_embed mask_class].
  split; [reflexivity|]. split; [reflexivity|].
  repeat split;
    (apply py_index_nth; [lia|]; rewrite nth_error_map;
     change (Z.to_nat 1) with 1%nat).
  - rewrite Ha. cbn [option_map]. now rewrite torch_log_Gt.
  - rewrite Hb. cbn [option_map]. now rewrite torch_log_Gt.
  - rewrite Hc. cbn [option_map]. now rewrite torch_log_Gt.
Qed.

Lemma transition_probabilities_witness :
  exists self : VQDiffusionScheduler tfloat,
    default_scheduler 3 2 = Ok self /\
    exists (la lb : R) (c_t : tfloat) (log_onehot_x_t log_Q_t : tensor3),
      py_index (log_at self) 1 = Ok (TFin la) /\
      py_index (log_bt self) 1 = Ok (TFin lb) /\
      py_index (log_ct self) 1 = Ok c_t /\
      index_to_log_onehot (RT := RealRuntime) [[0; 2]]%Z (num_embed self)
      = Ok log_onehot_x_t /\
      log_Q_t_transitioning_to_known_class (RT := RealRuntime) self 1
        [[0; 2]]%Z log_onehot_x_t false = Ok log_Q_t /\
      forall (i ch j : nat) (v : Z),
        entry2 [[0; 2]]%Z i j = Some v ->
        (ch < Z.to_nat (num_embed self - 1))%nat ->
        if (v =? mask_class self)%Z
        then entry3 log_Q_t i ch j = Some c_t
        else exists r : R,
            entry3 log_Q_t i ch j = Some (TFin r) /\
            exp r = ((if (v =? Z.of_nat ch)%Z then 1 else eps) * exp la
                     + exp lb)%R.
Proof.
  destruct default_3_2_reads
    as (s & la & lb & lc & Hs & HN & Hm & Ha & Hb & Hc).
  exists s. split; [exact Hs|].
  exists la, lb, (TFin lc).
  destruct (transition_probabilities s 1 2 1 [[0; 2]]%Z false la lb
              (TFin lc)
              ltac:(rewrite HN; lia)
              ltac:(split; [reflexivity | repeat constructor])
              ltac:(rewrite HN; repeat (constructor; try lia))
              Ha Hb Hc)
    as (lo & q & Hoh & Hq & Hent).
  exists lo, q.
  split; [exact Ha|]. split; [exact Hb|]. split; [exact Hc|].
  split; [exact Hoh|]. split; [exact Hq | exact Hent].
Defined.

End ExactTransitions.

(** ** [apply_cumulative_transitions] *)

Section CumulativeTransitions.

Context {RT : TensorRuntime}.

(** X15.  For a scheduler whose tables have the sizes of [T] timesteps
    and a tensor [q] of shape (b, c + 1, p),
    [apply_cumulative_transitions] at an index [t] of the cumulative
    tables returns a tensor of shape (b, c + 2, p): every entry [l] of
    [q] becomes [logaddexp(l + a, b)] for the cumulative alpha and beta
    at [t], and the appended last channel holds the cumulative gamma at
    [t] for every pixel.  At any other [t] it raises [IndexError]. *)
Theorem cumulative_transitions_entries (self : VQDiffusionScheduler F)
    (T b c p : nat) (q : tensor3) (t : Z) :
  well_sized self T ->
  is_tensor3 b (S c) p q ->
  ((- Z.of_nat (S T) <= t < Z.of_nat (S T))%Z ->
   exists (a_t b_t c_t : F) (r : tensor3),
     py_index (log_cumprod_at self) t = Ok a_t /\
     py_index (log_cumprod_bt self) t = Ok b_t /\
     py_index (log_cumprod_ct self) t = Ok c_t /\
     apply_cumulative_transitions self q t = Ok r /\
     is_tensor3 b (S (S c)) p r /\
     (forall (i ch j : nat) (l : F),
        entry3 q i ch j = Some l ->
        entry3 r i ch j = Some (logaddexp (fadd l a_t) b_t)) /\
     (forall i j : nat,
        (i < b)%nat -> (j < p)%nat -> entry3 r i (S c) j = Some c_t)) /\
  (~ (- Z.of_nat (S T) <= t < Z.of_nat (S T))%Z ->
   apply_cumulative_transitions self q t = Raise IndexError).
Proof.
  intros (_ & _ & _ & H4 & H5 & H6) Hq. split.
  - intros Ht.
    destruct (py_index_in_range (log_cumprod_at self) t) as [a_t Ha]; [lia|].
    destruct (py_index_in_range (log_cumprod_bt self) t) as [b_t Hb]; [lia|].
    destruct (py_index_in_range (log_cumprod_ct self) t) as [c_t Hc]; [lia|].
    destruct (apply_cumulative_transitions_shape self b c p q t a_t b_t c_t
                Hq Ha Hb Hc) as [Hr Hrs].
    exists a_t, b_t, c_t. eexists.
    split; [exact Ha|]. split; [exact Hb|]. split; [exact Hc|].
    split; [exact Hr|]. split; [exact Hrs|]. split.
    + intros i ch j l Hl. unfold entry3 in *.
      destruct (nth_error q i) as [m|] eqn:Em; [|discriminate].
      assert (Em' : nth_error (map3 (fun v => logaddexp (fadd v a_t) b_t) q) i
                    = Some (map (map (fun v => logaddexp (fadd v a_t) b_t)) m)).
      { unfold map3. rewrite nth_error_map, Em. reflexivity. }
      rewrite (nth_error_map2 _ _ _ i _ _ Em Em').
      unfold entry2 in *.
      destruct (nth_error m ch) as [row|] eqn:Erow; [|discriminate].
      assert (ch < length m)%nat by (apply nth_error_Some; congruence).
      rewrite nth_error_app1 by (rewrite length_map; lia).
      rewrite nth_error_map, Erow. cbn [option_map].
      rewrite nth_error_map, Hl. reflexivity.
    + intros i j Hi Hj. unfold entry3.
      destruct (nth_error q i) as [m|] eqn:Em;
        [|apply nth_error_None in Em; destruct Hq as [Hl _]; lia].
      assert (Em' : nth_error (map3 (fun v => logaddexp (fadd v a_t) b_t) q) i
                    = Some (map (map (fun v => logaddexp (fadd v a_t) b_t)) m)).
      { unfold map3. rewrite nth_error_map, Em. reflexivity. }
      rewrite (nth_error_map2 _ _ _ i _ _ Em Em').
      pose proof (is_tensor3_nth b (S c) p q i m Hq Em) as Hm.
      rewrite (width_is_mat c p m Hm). destruct Hm as [Hlm _].
      unfold entry2. rewrite nth_error_app2 by (rewrite length_map; lia).
      rewrite length_map, Hlm, Nat.sub_diag. cbn [nth_error].
      apply nth_error_repeat. exact Hj.
  - intros Ht. unfold apply_cumulative_transitions.
    rewrite (py_index_out_of_range (log_cumprod_at self) t) by lia.
    reflexivity.
Qed.

End CumulativeTransitions.

Lemma cumulative_transitions_entries_witness :
  exists self : VQDiffusionScheduler Torch.tfloat,
    default_scheduler 3 2 = Ok self /\
    ((- Z.of_nat 3 <= 1 < Z.of_nat 3)%Z ->
     exists (a_t b_t c_t : Torch.tfloat) (r : tensor3),
       py_index (log_cumprod_at self) 1 = Ok a_t /\
       py_index (log_cumprod_bt self) 1 = Ok b_t /\
       py_index (log_cumprod_ct self) 1 = Ok c_t /\
       apply_cumulative_transitions (RT := Exact.RealRuntime) self
         [[[TFin 0; TFin 1]; [TFin 2; TFin 3]]] 1 = Ok r /\
       is_tensor3 1 3 2 r /\
       (forall (i ch j : nat) (l : Torch.tfloat),
          entry3 [[[TFin 0; TFin 1]; [TFin 2; TFin 3]]] i ch j = Some l ->
          entry3 r i ch j = Some (Exact.tlogaddexp (Exact.tadd l a_t) b_t)) /\
       (forall i j : nat,
          (i < 1)%nat -> (j < 2)%nat -> entry3 r i 2 j = Some c_t)) /\
    (~ (- Z.of_nat 3 <= 1 < Z.of_nat 3)%Z ->
     apply_cumulative_transitions (RT := Exact.RealRuntime) self
       [[[TFin 0; TFin 1]; [TFin 2; TFin 3]]] 1 = Raise IndexError).
Proof.
  eexists. split; [reflexivity|].
  match goal with
  | |- (_ -> exists a b c r, py_index (log_cumprod_at ?s) _ = _ /\ _) /\ _ =>
      exact (cumulative_transitions_entries (RT := Exact.RealRuntime) s
               2 1 1 2 [[[TFin 0; TFin 1]; [TFin 2; TFin 3]]] 1
               ltac:(unfold well_sized; cbn; repeat split; reflexivity)
               ltac:(split; [reflexivity | repeat constructor]))
  end.
Defined.

(** * Further properties of the Wuerstchen prior pipeline *)

Module WuerstchenSampling.

Import Wuerstchen.

Lemma chunk2_app {A : Type} (a b : list A) :
  length a = length b -> chunk2 (a ++ b) = Ok (a, b).
Proof.
  intros H. unfold chunk2. rewrite length_app, <- H.
  replace (length a + length a =? 1)%nat with false
    by (symmetry; apply Nat.eqb_neq; lia).
  replace ((length a + length a + 1) / 2)%nat with (length a).
  - rewrite firstn_app, Nat.sub_diag, firstn_all. cbn [firstn].
    rewrite app_nil_r.
    rewrite skipn_app, Nat.sub_diag, skipn_all. reflexivity.
  - apply Nat.div_unique with (r := 1%nat); lia.
Qed.

Lemma same_shape2_refl {A : Type} (x : list (list A)) :
  same_shape2 x x = true.
Proof.
  unfold same_shape2. induction x as [|r x IH]; [reflexivity|].
  cbn [all2]. rewrite Nat.eqb_refl. exact IH.
Qed.

Lemma lerp_scalar_same (s w : Qc) : lerp_scalar s s w = s.
Proof. unfold lerp_scalar. ring. Qed.

Lemma map2_lerp_same (x : tensor) (w : Qc) :
  map2 (map2 (fun s e => lerp_scalar s e w)) x x = x.
Proof.
  induction x as [|r x IH]; [reflexivity|].
  cbn [map2]. rewrite IH. f_equal.
  induction r as [|v r IHr]; [reflexivity|].
  cbn [map2]. rewrite lerp_scalar_same, IHr. reflexivity.
Qed.

(** X16.  [chunk(2)] undoes the doubling of a batch: a batch made of
    two halves of equal length is split into these halves, so
    [torch.cat([x] * 2).chunk(2)] gives [x] twice, also for the empty
    batch. *)
Theorem chunk2_splits_doubled_batch {A : Type} (a b : list A) :
  length a = length b ->
  chunk2 (a ++ b) = Ok (a, b) /\ chunk2 (cat2 a) = Ok (a, a).
Proof.
  intros H. split; [apply chunk2_app; exact H|].
  unfold cat2. apply chunk2_app. reflexivity.
Qed.

Lemma chunk2_splits_doubled_batch_witness :
  chunk2 ([[Q2Qc 1]; [Q2Qc 2]] ++ [[Q2Qc 3]; [Q2Qc 4]])
  = Ok ([[Q2Qc 1]; [Q2Qc 2]], [[Q2Qc 3]; [Q2Qc 4]]) /\
  chunk2 (cat2 [[Q2Qc 1]; [Q2Qc 2]])
  = Ok ([[Q2Qc 1]; [Q2Qc 2]], [[Q2Qc 1]; [Q2Qc 2]]).
Proof.
  apply (chunk2_splits_doubled_batch [[Q2Qc 1]; [Q2Qc 2]]
           [[Q2Qc 3]; [Q2Qc 4]]).
  reflexivity.
Defined.

Section Sampling.

Variable Embeds : Type.
Variable Generator : Type.
Variable prior : tensor -> list Qc -> Embeds -> tensor.
Variable c_in : Z.
Variable _encode_prompt :
  list (list nat) -> Z -> bool -> option Prompt -> result Embeds.
Variable scheduler_timesteps : list (Qc * Z) -> list Qc.
Variable scheduler_step :
  tensor -> list Qc -> tensor -> option Generator -> tensor * option Generator.
Variable randn_tensor :
  Z -> Z -> option Generator -> tensor * option Generator.

(** X17.  Under guidance, when the network returns the same prediction
    for the conditional and the unconditional half of the doubled batch,
    the guided prediction is that prediction, whatever the guidance
    scale. *)
Theorem guidance_between_equal_predictions (guidance_scale : Qc)
    (text_encoder_hidden_states : Embeds) (latents : tensor)
    (ratio : list Qc) (y : tensor) :
  do_classifier_free_guidance guidance_scale = true ->
  prior (cat2 latents) (cat2 ratio) text_encoder_hidden_states = cat2 y ->
  predict prior guidance_scale text_encoder_hidden_states latents ratio
  = Ok y.
Proof.
  intros Hcfg Hy. unfold predict. rewrite Hcfg, Hy.
  unfold cat2 at 1. rewrite chunk2_app by reflexivity. cbn [bind].
  unfold lerp. rewrite same_shape2_refl, map2_lerp_same. reflexivity.
Qed.


(** *** The loop and the call *)

Lemma sampling_loop_app (guidance_scale : Qc) (hidden : Embeds)
    (ts1 ts2 : list Qc) (state : tensor * option Generator) :
  sampling_loop prior scheduler_step guidance_scale hidden (ts1 ++ ts2) state
  = (state' <- sampling_loop prior scheduler_step guidance_scale hidden
                 ts1 state ;;
     sampling_loop prior scheduler_step guidance_scale hidden ts2 state').
Proof.
  revert state. induction ts1 as [|t ts1 IH]; intros state; [reflexivity|].
  cbn [app sampling_loop].
  destruct (iteration prior scheduler_step guidance_scale hidden t state)
    as [state'|e]; [|reflexivity].
  cbn [bind]. apply IH.
Qed.

(** X18.  Running the sampling loop over a schedule is the same as
    running it over a first part of the schedule and then, from the state
    reached, over the rest; an exception raised in the first part is the
    result of the whole loop, and the rest is not run. *)
Theorem sampling_loop_splits (guidance_scale : Qc) (hidden : Embeds)
    (ts1 ts2 : list Qc) (state : tensor * option Generator) :
  (forall state',
     sampling_loop prior scheduler_step guidance_scale hidden ts1 state
     = Ok state' ->
     sampling_loop prior scheduler_step guidance_scale hidden (ts1 ++ ts2)
       state
     = sampling_loop prior scheduler_step guidance_scale hidden ts2 state') /\
  (forall e,
     sampling_loop prior scheduler_step guidance_scale hidden ts1 state
     = Raise e ->
     sampling_loop prior scheduler_step guidance_scale hidden (ts1 ++ ts2)
       state
     = Raise e).
Proof.
  split; intros x Hx; rewrite sampling_loop_app, Hx; reflexivity.
Qed.

Local Abbreviation call :=
  (WuerstchenPriorPipeline__call__ prior c_in _encode_prompt
     scheduler_timesteps scheduler_step randn_tensor).

(** X19.  [__call__] raises [ValueError] for a prompt that is neither a
    string nor a list, before anything is encoded; it treats a string as
    the list of that one string; it passes on any exception of
    [_encode_prompt]; and, once the prompt is encoded, it raises
    [ValueError] for supplied latents whose batch size is not
    [num_images_per_prompt * len(prompt)] or one of whose entries does not
    hold [c_in * latent_height * latent_width] values, where the latent
    sizes are [128 * (size // 128) // (1024 // 24)]. *)
Theorem call_error_behaviour (height width : Z)
    (num_inference_steps : list (Qc * Z)) (guidance_scale : Qc)
    (negative_prompt : option Prompt) (num_images_per_prompt : Z)
    (generator : option Generator) (latents : option tensor) :
  call PromptOther height width num_inference_steps guidance_scale
    negative_prompt num_images_per_prompt generator latents
  = Raise ValueError /\
  (forall s,
     call (PromptStr s) height width num_inference_steps guidance_scale
       negative_prompt num_images_per_prompt generator latents
     = call (PromptList [s]) height width num_inference_steps guidance_scale
         negative_prompt num_images_per_prompt generator latents) /\
  (forall l e,
     _encode_prompt l num_images_per_prompt
       (do_classifier_free_guidance guidance_scale) negative_prompt
     = Raise e ->
     call (PromptList l) height width num_inference_steps guidance_scale
       negative_prompt num_images_per_prompt generator latents
     = Raise e) /\
  (forall l h x,
     _encode_prompt l num_images_per_prompt
       (do_classifier_free_guidance guidance_scale) negative_prompt
     = Ok h ->
     latents = Some x ->
     (Z.of_nat (length x)
      <> num_images_per_prompt * Z.of_nat (length l) \/
      exists entry,
        In entry x /\
        Z.of_nat (length entry)
        <> c_in * (128 * (height / 128) / (1024 / 24))
                * (128 * (width / 128) / (1024 / 24)))%Z ->
     call (PromptList l) height width num_inference_steps guidance_scale
       negative_prompt num_images_per_prompt generator latents
     = Raise ValueError).
Proof.
  split; [reflexivity|]. split; [reflexivity|]. split.
  - intros l e He. unfold WuerstchenPriorPipeline__call__. cbn [bind].
    rewrite He. reflexivity.
  - intros l h x Hh -> Hbad. unfold WuerstchenPriorPipeline__call__.
    cbn [bind]. rewrite Hh. cbn [bind]. unfold prepare_latents.
    match goal with
    | |- context [if ?c then _ else _] => replace c with false
    end; [reflexivity|].
    symmetry. apply andb_false_iff. destruct Hbad as [Hb | (entry & Hin & Hb)].
    + left. apply Z.eqb_neq. exact Hb.
    + right. apply not_true_is_false. intros Hall.
      rewrite forallb_forall in Hall. specialize (Hall entry Hin).
      apply Z.eqb_eq in Hall. contradiction.
Qed.


End Sampling.

End WuerstchenSampling.

Lemma guidance_between_equal_predictions_witness :
  Wuerstchen.predict Wuerstchen.echo_prior (Q2Qc 8) tt
    [[Q2Qc 3; Q2Qc 4]] [Q2Qc 1]
  = Ok [[Q2Qc 3; Q2Qc 4]].
Proof.
  apply (WuerstchenSampling.guidance_between_equal_predictions unit
           Wuerstchen.echo_prior (Q2Qc 8) tt [[Q2Qc 3; Q2Qc 4]] [Q2Qc 1]).
  - reflexivity.
  - reflexivity.
Defined.


(** * Properties of [_encode_prompt] *)

Module EncodePromptFacts.

Import Wuerstchen EncodePrompt.

Lemma slice_to_all {A : Type} (stop : Z) (xs : list A) :
  (Z.of_nat (length xs) <= stop)%Z -> slice_to stop xs = xs.
Proof.
  intros H. unfold slice_to, clamp.
  replace (stop <? 0)%Z with false by (symmetry; apply Z.ltb_ge; lia).
  rewrite Z.min_r by exact H. rewrite Nat2Z.id. apply firstn_all.
Qed.

Lemma map_slice_to_all {A : Type} (stop : Z) (rows : list (list A)) :
  Forall (fun r => (Z.of_nat (length r) <= stop)%Z) rows ->
  map (slice_to stop) rows = rows.
Proof.
  induction 1 as [|r rows Hr _ IH]; [reflexivity|].
  cbn [map]. rewrite slice_to_all by exact Hr. now rewrite IH.
Qed.

Lemma duplicated_interleaves (u : tensor3d) (B n : Z) :
  Z.of_nat (size0 u) = B ->
  (1 <= n)%Z -> (1 <= size0 u)%nat -> (1 <= size1 u)%nat ->
  duplicated u B n = repeat_interleave0 u n.
Proof.
  intros <- Hn HB HL. unfold duplicated, repeat_dim1, repeat_interleave0.
  replace (n <? 0)%Z with false by (symmetry; apply Z.ltb_ge; lia).
  cbn [and_then]. unfold view. cbn [size0 size1 size2 entries].
  replace ((Z.of_nat (size0 u) * n <? 0)%Z || (Z.of_nat (size1 u) <? 0)%Z)
    with false
    by (symmetry; apply orb_false_iff; split; apply Z.ltb_ge; nia).
  rewrite Nat2Z.id.
  replace (Z.to_nat (Z.of_nat (size0 u) * n))
    with (size0 u * Z.to_nat n)%nat by nia.
  assert (Hk : (size0 u * Z.to_nat n * size1 u <> 0)%nat) by nia.
  replace (size0 u * Z.to_nat n * size1 u =? 0)%nat with false
    by (symmetry; apply Nat.eqb_neq; exact Hk).
  replace (size0 u * (size1 u * Z.to_nat n) * size2 u)%nat
    with (size2 u * (size0 u * Z.to_nat n * size1 u))%nat by nia.
  rewrite Nat.Div0.mod_mul, Nat.div_mul by exact Hk.
  reflexivity.
Qed.

Lemma duplicated_of_nothing (u : tensor3d) (n : Z) :
  (n <= 0)%Z \/ size0 u = 0%nat \/ size1 u = 0%nat ->
  duplicated u (Z.of_nat (size0 u)) n = Raises (Other RuntimeError).
Proof.
  intros H. unfold duplicated, repeat_dim1.
  destruct (Z.ltb_spec n 0) as [Hneg|Hpos]; [reflexivity|].
  cbn [and_then]. unfold view. cbn [size0 size1 size2 entries].
  replace ((Z.of_nat (size0 u) * n <? 0)%Z || (Z.of_nat (size1 u) <? 0)%Z)
    with false
    by (symmetry; apply orb_false_iff; split; apply Z.ltb_ge; nia).
  replace (Z.to_nat (Z.of_nat (size0 u) * n) * Z.to_nat (Z.of_nat (size1 u))
           =? 0)%nat with true; [reflexivity|].
  symmetry. apply Nat.eqb_eq. rewrite Nat2Z.id.
  destruct H as [H | [H | H]].
  - replace n with 0%Z by lia. rewrite Z.mul_0_r. reflexivity.
  - rewrite H. reflexivity.
  - rewrite H. lia.
Qed.

(** X21.  Duplicating the embeddings of a batch of [B >= 1] entries
    with at least one token each, [n >= 1] times by [repeat] along the
    sequence and [view], gives the tensor of [repeat_interleave(n)]:
    each entry [n] times in a row.  With nothing to duplicate ([n = 0],
    an empty batch or no token) the [view] cannot infer its last size
    and raises [RuntimeError], and a negative [n] is refused by
    [repeat]. *)
Theorem duplication_is_repeat_interleave (u : tensor3d) (n : Z) :
  ((1 <= n)%Z -> (1 <= size0 u)%nat -> (1 <= size1 u)%nat ->
   duplicated u (Z.of_nat (size0 u)) n = repeat_interleave0 u n) /\
  ((n <= 0)%Z \/ size0 u = 0%nat \/ size1 u = 0%nat ->
   duplicated u (Z.of_nat (size0 u)) n = Raises (Other RuntimeError)).
Proof.
  split; [apply duplicated_interleaves; reflexivity
        | apply duplicated_of_nothing].
Qed.

Section Encoder.

Variable model_max_length : Z.
Variable tokenizer : Text -> list (list Z) * list (list Z).
Variable tokenizer_longest : Text -> list (list Z).
Variable text_encoder : list (list Z) -> list (list Z) -> tensor3d.

Local Abbreviation encode :=
  (_encode_prompt model_max_length tokenizer tokenizer_longest text_encoder).

(** X22.  [_encode_prompt] looks at [negative_prompt] only under
    guidance.  There, once the text embeddings are repeated (which
    [repeat_interleave] refuses for a negative number of images), a
    negative prompt whose type is not that of the prompt raises
    [TypeError] (in particular a string beside a list of prompts, which
    is what [__call__] passes), and a list of another length than the
    prompt raises [ValueError].  Without guidance no negative prompt
    changes the result. *)
Theorem negative_prompt_is_checked (prompt : Text)
    (num_images_per_prompt : Z) :
  ((num_images_per_prompt < 0)%Z ->
   forall guidance negative_prompt,
     encode prompt num_images_per_prompt guidance negative_prompt
     = Raises (Other RuntimeError)) /\
  ((0 <= num_images_per_prompt)%Z ->
   forall negative_prompt,
     same_type prompt negative_prompt = false ->
     encode prompt num_images_per_prompt true (Some negative_prompt)
     = Raises TypeError) /\
  ((0 <= num_images_per_prompt)%Z ->
   forall l l',
     prompt = Strs l -> length l <> length l' ->
     encode prompt num_images_per_prompt true (Some (PromptList l'))
     = Raises (Other ValueError)) /\
  (forall negative_prompt negative_prompt',
     encode prompt num_images_per_prompt false negative_prompt
     = encode prompt num_images_per_prompt false negative_prompt').
Proof.
  split; [|split; [|split]].
  - intros Hn guidance negative_prompt. unfold _encode_prompt.
    destruct (tokenizer prompt) as [ids mask]. unfold repeat_interleave0.
    replace (num_images_per_prompt <? 0)%Z with true
      by (symmetry; apply Z.ltb_lt; exact Hn).
    reflexivity.
  - intros Hn negative_prompt Htype. unfold _encode_prompt.
    destruct (tokenizer prompt) as [ids mask]. unfold repeat_interleave0.
    replace (num_images_per_prompt <? 0)%Z with false
      by (symmetry; apply Z.ltb_ge; exact Hn).
    cbn [and_then]. rewrite Htype. reflexivity.
  - intros Hn l l' -> Hlen. unfold _encode_prompt.
    destruct (tokenizer (Strs l)) as [ids mask]. unfold repeat_interleave0.
    replace (num_images_per_prompt <? 0)%Z with false
      by (symmetry; apply Z.ltb_ge; exact Hn).
    cbn [and_then same_type negb].
    replace (Z.of_nat (length l) =? Z.of_nat (length l'))%Z with false
      by (symmetry; apply Z.eqb_neq; lia).
    reflexivity.
  - intros negative_prompt negative_prompt'. reflexivity.
Qed.

(** X23.  Under guidance, for at least one image for each prompt and a
    negative prompt that is accepted (none, a string beside a string, or
    a list of the length of the list of prompts), when the text encoder
    returns for the unconditional tokens one entry for each prompt with
    at least one token, [_encode_prompt] returns what it returns without
    guidance followed, along the batch, by the embeddings of the
    unconditional tokens with each entry [num_images_per_prompt] times
    in a row; the warning is the same, and [cat] raises when the two
    halves differ in their sequence or embedding size. *)
Theorem guided_encoding_extends_unguided (prompt : Text)
    (num_images_per_prompt : Z) (negative_prompt : option Prompt)
    (uncond_tokens : list (list nat)) :
  (1 <= num_images_per_prompt)%Z ->
  accepted prompt negative_prompt uncond_tokens ->
  Z.of_nat (size0 (text_encoder (fst (tokenizer (Strs uncond_tokens)))
                                (snd (tokenizer (Strs uncond_tokens)))))
  = batch_size_of prompt ->
  (1 <= batch_size_of prompt)%Z ->
  (1 <= size1 (text_encoder (fst (tokenizer (Strs uncond_tokens)))
                            (snd (tokenizer (Strs uncond_tokens)))))%nat ->
  encode prompt num_images_per_prompt true negative_prompt
  = (unguided <~ encode prompt num_images_per_prompt false negative_prompt ;;
     uncond <~
       repeat_interleave0
         (text_encoder (fst (tokenizer (Strs uncond_tokens)))
                       (snd (tokenizer (Strs uncond_tokens))))
         num_images_per_prompt ;;
     both <~ cat (fst unguided) uncond ;;
     Returns (both, snd unguided)).
Proof.
  intros Hn Hacc HB HB1 HL. unfold _encode_prompt.
  destruct (tokenizer prompt) as [ids mask].
  cbv zeta.
  match goal with
  | |- and_then (repeat_interleave0 ?h _) _ = _ =>
      destruct (repeat_interleave0 h num_images_per_prompt) as [c|e] eqn:Ec
  end; [|reflexivity].
  cbn [and_then fst snd].
  assert (Htok :
    match negative_prompt with
    | None => Returns (repeat [] (Z.to_nat (batch_size_of prompt)))
    | Some np =>
        if negb (same_type prompt np) then Raises TypeError
        else
          match np with
          | PromptStr s => Returns [s]
          | PromptList l =>
              if negb (batch_size_of prompt =? Z.of_nat (length l))%Z
              then Raises (Other ValueError)
              else Returns l
          | PromptOther => Raises TypeError
          end
    end = Returns uncond_tokens).
  { destruct Hacc as [[-> ->] | [(s & s' & -> & -> & ->) | (l & -> & -> & Hl)]].
    - reflexivity.
    - reflexivity.
    - cbn [same_type negb batch_size_of]. rewrite Hl, Z.eqb_refl.
      reflexivity. }
  unfold batch_size_of in Htok at 1 2.
  rewrite Htok. cbn [and_then].
  destruct (tokenizer (Strs uncond_tokens)) as [uids umask].
  cbn [fst snd] in *.
  set (u := text_encoder uids umask) in *.
  pose proof (duplicated_interleaves u _ num_images_per_prompt HB Hn
                ltac:(lia) HL) as Hd.
  unfold duplicated, batch_size_of in Hd.
  destruct (repeat_dim1 u num_images_per_prompt) as [u1|e];
    cbn [and_then] in *.
  - rewrite Hd. reflexivity.
  - rewrite <- Hd. reflexivity.
Qed.

(** X24.  When no row of the token ids and of the attention mask that
    the tokenizer returns is longer than [model_max_length] (the
    tokenizer is asked to truncate to it), the branch that detects a
    truncation changes nothing but the warning: the tensor returned is
    the one returned when the untruncated ids are the truncated ones, and
    a warning comes with it exactly when the untruncated ids are at least
    as wide as the truncated ones and differ from them. *)
Theorem truncation_only_warns (prompt : Text) (num_images_per_prompt : Z)
    (guidance : bool) (negative_prompt : option Prompt) :
  Forall (fun r => (Z.of_nat (length r) <= model_max_length)%Z)
         (fst (tokenizer prompt)) ->
  Forall (fun r => (Z.of_nat (length r) <= model_max_length)%Z)
         (snd (tokenizer prompt)) ->
  (r <~ encode prompt num_images_per_prompt guidance negative_prompt ;;
   Returns (fst r))
  = (r <~ _encode_prompt model_max_length tokenizer
            (fun text => fst (tokenizer text)) text_encoder
            prompt num_images_per_prompt guidance negative_prompt ;;
     Returns (fst r)) /\
  forall r warning,
    encode prompt num_images_per_prompt guidance negative_prompt
    = Returns (r, warning) ->
    (warning <> None <->
     (width (fst (tokenizer prompt)) <= width (tokenizer_longest prompt))%nat
     /\ fst (tokenizer prompt) <> tokenizer_longest prompt).
Proof.
  intros Hids Hmask. unfold _encode_prompt.
  destruct (tokenizer prompt) as [ids mask]. cbn [fst snd] in *.
  cbv zeta.
  rewrite (map_slice_to_all model_max_length ids Hids).
  rewrite (map_slice_to_all model_max_length mask Hmask).
  assert (Hsame : forall b : bool, (if b then ids else ids) = ids)
    by (intros []; reflexivity).
  assert (Hsame' : forall b : bool, (if b then mask else mask) = mask)
    by (intros []; reflexivity).
  rewrite !Hsame, !Hsame'.
  destruct (repeat_interleave0 (text_encoder ids mask) num_images_per_prompt)
    as [c|e]; [|split; [reflexivity | discriminate]].
  cbn [and_then].
  assert (Hwarn :
    forall w,
      w = (if (width ids <=? width (tokenizer_longest prompt))%nat
              && negb (ids_equal ids (tokenizer_longest prompt))
           then Some (map (slice (model_max_length - 1) (-1))
                          (tokenizer_longest prompt))
           else None) ->
      (w <> None <->
       (width ids <= width (tokenizer_longest prompt))%nat /\
       ids <> tokenizer_longest prompt)).
  { intros w ->. unfold ids_equal.
    destruct (Nat.leb_spec (width ids) (width (tokenizer_longest prompt)));
      destruct (list_eq_dec (list_eq_dec Z.eq_dec) ids
                  (tokenizer_longest prompt));
      cbn [andb negb]; split; try congruence; try tauto; try lia;
      intros [? ?]; try lia; try congruence. }
  destruct guidance.
  - match goal with
    | |- context [and_then ?m _] =>
        match m with
        | match negative_prompt with _ => _ end =>
            destruct m as [tokens|e]
        end
    end; [|split; [reflexivity | discriminate]].
    cbn [and_then].
    destruct (tokenizer (Strs tokens)) as [uids umask].
    destruct (repeat_dim1 (text_encoder uids umask) num_images_per_prompt)
      as [u1|e]; [|split; [reflexivity | discriminate]].
    cbn [and_then].
    match goal with
    | |- context [and_then (view ?a ?b ?c) _] =>
        destruct (view a b c) as [u2|e]
    end; [|split; [reflexivity | discriminate]].
    cbn [and_then].
    destruct (cat c u2) as [both|e]; [|split; [reflexivity | discriminate]].
    cbn [and_then fst]. split; [reflexivity|].
    intros r w [= <- <-]. apply Hwarn. reflexivity.
  - cbn [and_then fst]. split; [reflexivity|].
    intros r w [= <- <-]. apply Hwarn. reflexivity.
Qed.

End Encoder.

Lemma guided_encoding_extends_unguided_witness :
  _encode_prompt 3 toy_tokenizer toy_tokenizer_longest toy_text_encoder
    (Strs [[65; 66]; [67]]%nat) 2 true None
  = (unguided <~ _encode_prompt 3 toy_tokenizer toy_tokenizer_longest
                   toy_text_encoder (Strs [[65; 66]; [67]]%nat) 2 false None ;;
     uncond <~
       repeat_interleave0
         (toy_text_encoder (fst (toy_tokenizer (Strs (repeat [] 2))))
                           (snd (toy_tokenizer (Strs (repeat [] 2)))))
         2 ;;
     both <~ cat (fst unguided) uncond ;;
     Returns (both, snd unguided)).
Proof.
  apply (guided_encoding_extends_unguided 3 toy_tokenizer
           toy_tokenizer_longest toy_text_encoder
           (Strs [[65; 66]; [67]]%nat) 2 None (repeat [] 2)).
  - lia.
  - left. split; reflexivity.
  - reflexivity.
  - cbn. lia.
  - cbn. lia.
Defined.

Lemma truncation_only_warns_witness :
  (r <~ _encode_prompt 3 toy_tokenizer toy_tokenizer_longest
          toy_text_encoder (Strs [[65; 66; 67; 68]]%nat) 1 false None ;;
   Returns (fst r))
  = (r <~ _encode_prompt 3 toy_tokenizer
            (fun text => fst (toy_tokenizer text)) toy_text_encoder
            (Strs [[65; 66; 67; 68]]%nat) 1 false None ;;
     Returns (fst r)) /\
  forall r warning,
    _encode_prompt 3 toy_tokenizer toy_tokenizer_longest toy_text_encoder
      (Strs [[65; 66; 67; 68]]%nat) 1 false None
    = Returns (r, warning) ->
    (warning <> None <->
     (width (fst (toy_tokenizer (Strs [[65; 66; 67; 68]]%nat)))
      <= width (toy_tokenizer_longest (Strs [[65; 66; 67; 68]]%nat)))%nat
     /\ fst (toy_tokenizer (Strs [[65; 66; 67; 68]]%nat))
        <> toy_tokenizer_longest (Strs [[65; 66; 67; 68]]%nat)).
Proof.
  apply (truncation_only_warns 3 toy_tokenizer toy_tokenizer_longest
           toy_text_encoder (Strs [[65; 66; 67; 68]]%nat) 1 false None).
  - cbn. repeat (constructor; try (cbn; lia)).
  - cbn. repeat (constructor; try (cbn; lia)).
Defined.

(** The toy encoder on a prompt of four characters: the ids are cut to
    three tokens and the cut is reported. *)
Lemma toy_truncation_warns :
  exists r removed,
    _encode_prompt 3 toy_tokenizer toy_tokenizer_longest toy_text_encoder
      (Strs [[65; 66; 67; 68]]%nat) 1 false None
    = Returns (r, Some removed) /\
    size0 r = 1%nat /\ size1 r = 3%nat /\ removed = [[67%Z]].
Proof.
  eexists. eexists. split; [vm_compute; reflexivity|].
  repeat split.
Qed.

End EncodePromptFacts.

(** ** The Gumbel noise over the exact runtime *)

Module ExactGumbel.

Import Exact.

Lemma ln_below (y : R) : (0 < y)%R -> (ln y <= y - 1)%R.
Proof.
  intros Hy. destruct (Rle_or_lt y 1) as [H|H].
  - destruct H as [H| ->]; [|rewrite ln_1; lra].
    assert (ln y < 0)%R by (rewrite <- ln_1; apply ln_increasing; lra).
    destruct (Rle_or_lt (ln y) (y - 1)) as [G|G]; [exact G|].
    exfalso.
    assert (He : (1 + (y - 1) <= exp (y - 1))%R).
    { destruct (Req_dec (y - 1) 0) as [E|E].
      - rewrite E, exp_0. lra.
      - apply Rlt_le. apply exp_ineq1. exact E. }
    assert (Hexp : (exp (y - 1) < exp (ln y))%R) by (apply exp_increasing; lra).
    rewrite exp_ln in Hexp by exact Hy. lra.
  - apply Rlt_le. rewrite <- (ln_exp (y - 1)).
    apply ln_increasing; [exact Hy|].
    pose proof (exp_ineq1 (y - 1)) as He.
    assert (y - 1 <> 0)%R by lra. specialize (He H0). lra.
Qed.

Lemma gumbel_of_unit_draw (u : R) :
  (0 <= u < 1)%R ->
  tneg (tlog (tadd (tneg (tlog (tadd (TFin u) (TFin eps)))) (TFin eps)))
  = TFin (gumbel u).
Proof.
  intros [H0 H1]. pose proof ExactFacts.eps_pos as He.
  cbn [tadd]. rewrite ExactFacts.tlog_pos by lra. cbn [tneg tadd].
  assert (Hin : (0 < - ln (u + eps) + eps)%R).
  { pose proof (ln_below (u + eps) ltac:(lra)). lra. }
  rewrite ExactFacts.tlog_pos by exact Hin. reflexivity.
Qed.

Lemma lcg_rand_unit (g : Z) : unit_draw (fst (lcg_rand g)).
Proof.
  unfold lcg_rand, unit_draw. cbn [fst]. eexists. split; [reflexivity|].
  assert (Hm : (0 < IZR lcg_modulus)%R) by (apply IZR_lt; reflexivity).
  assert (Hs : (0 <= lcg_next g < lcg_modulus)%Z).
  { unfold lcg_next. apply Z.mod_pos_bound. reflexivity. }
  split.
  - apply Rmult_le_pos; [apply IZR_le; lia|].
    apply Rlt_le. apply Rinv_0_lt_compat. exact Hm.
  - apply (Rmult_lt_reg_r (IZR lcg_modulus)); [exact Hm|].
    unfold Rdiv. rewrite Rmult_assoc, Rinv_l by lra.
    rewrite Rmult_1_r, Rmult_1_l. apply IZR_lt. lia.
Qed.

Lemma rand_row_unit {A : Type} (shape : list A) (g : Z) :
  Forall unit_draw (fst (rand_row (RT := RealRuntime) shape g)).
Proof.
  revert g. induction shape as [|x shape IH]; intros g; [constructor|].
  cbn [rand_row]. pose proof (lcg_rand_unit g) as Hu.
  change (@rand RealRuntime g) with (lcg_rand g).
  destruct (lcg_rand g) as [u g1]. specialize (IH g1).
  destruct (rand_row (RT := RealRuntime) shape g1) as [us g2].
  cbn [fst] in *.
  constructor; assumption.
Qed.

Lemma rand_mat_unit {A : Type} (shape : list (list A)) (g : Z) :
  Forall (Forall unit_draw) (fst (rand_mat (RT := RealRuntime) shape g)).
Proof.
  revert g. induction shape as [|r shape IH]; intros g; [constructor|].
  cbn [rand_mat]. pose proof (rand_row_unit r g) as Hr.
  destruct (rand_row (RT := RealRuntime) r g) as [us g1].
  specialize (IH g1).
  destruct (rand_mat (RT := RealRuntime) shape g1) as [uss g2].
  cbn [fst] in *.
  constructor; assumption.
Qed.

Lemma torch_rand_unit {A : Type} (shape : list (list (list A))) (g : Z) :
  Forall (Forall (Forall unit_draw))
         (fst (torch_rand (RT := RealRuntime) shape g)).
Proof.
  revert g. induction shape as [|m shape IH]; intros g; [constructor|].
  cbn [torch_rand]. pose proof (rand_mat_unit m g) as Hm.
  destruct (rand_mat (RT := RealRuntime) m g) as [us g1].
  specialize (IH g1).
  destruct (torch_rand (RT := RealRuntime) shape g1) as [uss g2].
  cbn [fst] in *.
  constructor; assumption.
Qed.

Lemma noise_plus_finite (x y : tfloat) :
  unit_draw x -> is_finite y = true ->
  is_finite
    (tadd (tneg (tlog (tadd (tneg (tlog (tadd x (TFin eps)))) (TFin eps)))) y)
  = true.
Proof.
  intros (u & -> & Hu) Hy. rewrite gumbel_of_unit_draw by exact Hu.
  destruct y; try discriminate. reflexivity.
Qed.

(** X25.  Over exact reals, with a generator whose draws lie in [0, 1),
    [gumbel_noised] turns finite logits into finite values: the inner
    [1e-30] keeps [log(u + 1e-30)] finite at [u = 0], and the outer one
    keeps [-log(u + 1e-30) + 1e-30] positive for every [u < 1], so no
    entry is infinite or NaN. *)
Theorem gumbel_noised_is_finite (logits : tensor3) (generator : option Z)
    (world : @Rng RealRuntime) :
  all_finite logits ->
  all_finite (fst (fst (gumbel_noised (RT := RealRuntime) logits generator
                          world))).
Proof.
  intros Hl. unfold gumbel_noised, torch_rand_with.
  assert (Hgen : forall g u g',
            torch_rand (RT := RealRuntime) logits g = (u, g') ->
            all_finite
              (map2 (map2 (map2 tadd))
                 (map3 (fun u =>
                          tneg (tlog (tadd (tneg (tlog (tadd u (TFin eps))))
                                           (TFin eps)))) u)
                 logits)).
  { intros g u g' E. pose proof (torch_rand_unit logits g) as Hu.
    rewrite E in Hu. cbn [fst] in Hu. unfold all_finite, map3.
    apply (Forall_map2_2
             (Forall (Forall (fun n => exists x, unit_draw x /\
                n = tneg (tlog (tadd (tneg (tlog (tadd x (TFin eps))))
                                     (TFin eps))))))
             (Forall (Forall (fun x => is_finite x = true)))); [| |exact Hl].
    - intros m m'.
      apply (Forall_map2_2
               (Forall (fun n => exists x, unit_draw x /\
                  n = tneg (tlog (tadd (tneg (tlog (tadd x (TFin eps))))
                                       (TFin eps)))))
               (Forall (fun x => is_finite x = true))).
      intros r r'.
      apply (Forall_map2_2
               (fun n => exists x, unit_draw x /\
                  n = tneg (tlog (tadd (tneg (tlog (tadd x (TFin eps))))
                                       (TFin eps))))
               (fun x => is_finite x = true)).
      intros n y (x & Hx & ->) Hy. apply noise_plus_finite; assumption.
    - apply Forall_map. revert Hu. apply Forall_impl. intros m Hm.
      apply Forall_map. revert Hm. apply Forall_impl. intros r Hr.
      apply Forall_map. revert Hr. apply Forall_impl. intros x Hx.
      exists x. split; [exact Hx | reflexivity]. }
  destruct generator as [g|].
  - destruct (torch_rand (RT := RealRuntime) logits g) as [u g'] eqn:E.
    cbn [fst].
    exact (Hgen g u g' E).
  - destruct (torch_rand (RT := RealRuntime) logits
                (default_generator world)) as [u g'] eqn:E.
    cbn [fst]. exact (Hgen _ u g' E).
Qed.

Lemma gumbel_noised_is_finite_witness :
  all_finite
    (fst (fst (gumbel_noised (RT := RealRuntime)
                 [[[TFin 0; TFin 1]; [TFin 2; TFin 3]]] (Some 0%Z)
                 (@Build_Rng RealRuntime 1%Z)))).
Proof.
  apply (gumbel_noised_is_finite [[[TFin 0; TFin 1]; [TFin 2; TFin 3]]]).
  repeat constructor.
Defined.

End ExactGumbel.

(** ** The default schedule *)

(** X26.  The scheduler built with the default boundary values for a
    hundred timesteps and at least two classes holds, at every timestep
    [0 <= t < 100], finite log-coefficients whose exponentials are
    strictly positive and satisfy
    [alpha + beta * (num_embed - 1) + gamma = 1], for the per-step
    tables and for the cumulative ones: each row of the transition
    matrices is a probability distribution with no zero entry. *)
Theorem default_schedule_is_a_probability_mixture (N t : Z) :
  (2 <= N)%Z -> (0 <= t < 100)%Z ->
  exists s,
    default_scheduler N 100 = Ok s /\
    (exists la lb lc ea eb ec,
       py_index (log_at s) t = Ok la /\ py_index (log_bt s) t = Ok lb /\
       py_index (log_ct s) t = Ok lc /\
       torch_exp la = TFin ea /\ torch_exp lb = TFin eb /\
       torch_exp lc = TFin ec /\
       (0 < ea)%R /\ (0 < eb)%R /\ (0 < ec)%R /\
       (ea + eb * IZR (N - 1) + ec = 1)%R) /\
    (exists la lb lc ea eb ec,
       py_index (log_cumprod_at s) t = Ok la /\
       py_index (log_cumprod_bt s) t = Ok lb /\
       py_index (log_cumprod_ct s) t = Ok lc /\
       torch_exp la = TFin ea /\ torch_exp lb = TFin eb /\
       torch_exp lc = TFin ec /\
       (0 < ea)%R /\ (0 < eb)%R /\ (0 < ec)%R /\
       (ea + eb * IZR (N - 1) + ec = 1)%R).
Proof.
  apply default_schedule_is_a_mixture.
Qed.

Lemma default_schedule_is_a_probability_mixture_witness :
  exists s,
    default_scheduler 3 100 = Ok s /\
    (exists la lb lc ea eb ec,
       py_index (log_at s) 50 = Ok la /\ py_index (log_bt s) 50 = Ok lb /\
       py_index (log_ct s) 50 = Ok lc /\
       torch_exp la = TFin ea /\ torch_exp lb = TFin eb /\
       torch_exp lc = TFin ec /\
       (0 < ea)%R /\ (0 < eb)%R /\ (0 < ec)%R /\
       (ea + eb * IZR (3 - 1) + ec = 1)%R) /\
    (exists la lb lc ea eb ec,
       py_index (log_cumprod_at s) 50 = Ok la /\
       py_index (log_cumprod_bt s) 50 = Ok lb /\
       py_index (log_cumprod_ct s) 50 = Ok lc /\
       torch_exp la = TFin ea /\ torch_exp lb = TFin eb /\
       torch_exp lc = TFin ec /\
       (0 < ea)%R /\ (0 < eb)%R /\ (0 < ec)%R /\
       (ea + eb * IZR (3 - 1) + ec = 1)%R).
Proof.
  apply (default_schedule_is_a_probability_mixture 3 50); lia.
Defined.
